(** * auswahl: VISSA / iVISSA feature selection and the benchmarking DataHandler

  A shallow embedding of [auswahl/_vissa.py] and of the key checking of
  [auswahl/benchmarking/util/data_handling.py].

  Conventions.
  - a numpy float is the rational it denotes ([Q]).  Where the code rounds a
    float product or quotient to an integer count, or stores it as a weight
    ([var_weights * n_submodels], [count / selection_quantile]), the
    operation is rounded to binary64 ([Np.double]) as numpy does; scores,
    their means and the certainty threshold [(n - 0.5) / n] are kept exact
    (the weights compared with the threshold are fractions of the top
    quantile, either 1 or further below it than a float64 resolves).
  - a cross-validation returns a number or raises.  A score that is not a
    number is outside the model: Python's sort of the submodels is then no
    longer determined by its contract.
  - a numpy boolean matrix is a list of rows, each a [list bool].
  - Python exceptions are the constructors of [exn]; fallible code returns
    a [result].
  - [numpy.random.RandomState] and [numpy.argsort] are library interfaces:
    they are type classes carrying the part of their contract the code
    relies on. *)

From Stdlib Require Import List ZArith QArith Qround Qpower Qreduction.
From Stdlib Require Import Lia Lqa Permutation Bool Arith.
From Stdlib Require Import Strings.String Strings.Ascii Sorting.Sorted DecimalString.
Import ListNotations.

Set Implicit Arguments.

(** ** Python exceptions and results *)

Inductive exn : Type :=
| ValueError            (* unpacking an empty zip, numpy reshape failures *)
| TypeError             (* arithmetic on None *)
| IndexError (i : Z)    (* index or mask size i does not fit the array *)
| KeyError (msg : string).

Inductive result (A : Type) : Type :=
| Ok (a : A)
| Raise (e : exn).
Arguments Ok {A} a.
Arguments Raise {A} e.

Definition bind {A B} (r : result A) (k : A -> result B) : result B :=
match r with
| Ok a => k a
| Raise e => Raise e
end.

Notation "x <- r ;; k" := (bind r (fun x => k))
(at level 61, r at next level, right associativity).

(** ** numpy primitives *)

Module Np.

(** [numpy.round]: round half to even. *)
Definition round (x : Q) : Z :=
  let f := Qfloor x in
  match ((x - inject_Z f) ?= (1 # 2))%Q with
  | Lt => f
  | Gt => (f + 1)%Z
  | Eq => if Z.even f then f else (f + 1)%Z
  end.

(** The binade of a positive number: the [e] with [2^e <= x < 2^(e+1)]. *)
Definition binade (x : Q) : Z :=
  let e := (Z.log2 (Qnum x) - Z.log2 (Zpos (Qden x)))%Z in
  if Qle_bool (2 ^ e) x then e else (e - 1)%Z.

(** The binary64 number nearest to a positive [x], ties to even: [x] in
    units of the last place of its 53-bit significand, rounded. *)
Definition nearest (x : Q) : Q :=
  let ulp := (2 ^ (binade x - 52))%Q in
  (inject_Z (round (x / ulp)) * ulp)%Q.

(** The result of a float64 operation whose exact value is [x]: the
    nearest binary64 number (the exponent range is not modelled: no
    overflow, no subnormal numbers). *)
Definition double (x : Q) : Q :=
  let x := Qred x in
  match Qnum x with
  | Z0 => 0%Q
  | Zpos _ => Qred (nearest x)
  | Zneg _ => Qred (- nearest (- x))
  end.

(** An integer converted to float64. *)
Definition float (z : Z) : Q := double (inject_Z z).

(** [numpy.reshape(p, (rows, cols))] of a flat array, row major. *)
Fixpoint reshape {A} (rows cols : nat) (p : list A) : list (list A) :=
  match rows with
  | O => []
  | S r => firstn cols p :: reshape r cols (skipn cols p)
  end.

(** [a[idx]] for an index array [idx] known to be in bounds. *)
Definition take {A} (d : A) (a : list A) (idx : list nat) : list A :=
  map (fun k => nth k a d) idx.

(** [numpy.sum] of a boolean vector. *)
Definition count_true (row : list bool) : nat :=
  List.length (filter (fun b => b) row).

(** [numpy.sum] and [numpy.mean] of a float vector. *)
Definition sum (l : list Q) : Q := fold_right Qplus 0%Q l.
Definition mean (l : list Q) : Q :=
  (sum l / inject_Z (Z.of_nat (List.length l)))%Q.

(** Column [j] of a matrix given by rows. *)
Definition column (m : list (list bool)) (j : nat) : list bool :=
  map (fun row => nth j row false) m.

(** [numpy.nonzero(mask)[0]]: the indices of the true entries. *)
Fixpoint nonzero_from (i : nat) (mask : list bool) : list nat :=
  match mask with
  | [] => []
  | b :: m => if b then i :: nonzero_from (S i) m else nonzero_from (S i) m
  end.
Definition nonzero := nonzero_from 0.

End Np.

(** Strict comparison of floats, [x < y]. *)
Definition Qltb (x y : Q) : bool := negb (Qle_bool y x).

(** [numpy.random.RandomState]: the generator state is threaded explicitly.
  [shuffle] permutes its argument, whatever the state. *)
Class RandomState (R : Type) : Type := {
  seed_state : Z -> R;
  shuffle : R -> list nat -> R * list nat;
  shuffle_perm : forall r l, Permutation l (snd (shuffle r l))
}.

(** [numpy.argsort] with the default [kind]: numpy documents the default
  (quicksort) as not stable, so the interface only promises a permutation
  of the indices along which the keys do not decrease. *)
Class NumpySort : Type := {
  argsort : forall A : Type, (A -> A -> bool) -> A -> list A -> list nat;
  argsort_perm : forall A (leb : A -> A -> bool) d l,
      Permutation (argsort leb d l) (seq 0 (List.length l));
  argsort_sorted : forall A (leb : A -> A -> bool) d l,
      (forall x y, leb x y = true \/ leb y x = true) ->
      (forall x y z, leb x y = true -> leb y z = true -> leb x z = true) ->
      StronglySorted (fun i j => leb (nth i l d) (nth j l d) = true)
                     (argsort leb d l)
}.

(** ** The _VISSA mixin *)

Section VISSA_mixin.

Context {R : Type} {RS : RandomState R} {NS : NumpySort}.

(** The data: [X.shape[1]], and [cross_val_score] of the estimator on the
    given columns of X, averaged over the folds: X, y, the estimator and the
    folds are fixed during a fit, and k-fold splitting without shuffling is
    deterministic.  The call raises when the estimator cannot be fitted on
    these columns (the default PLS regression on no column at all, for
    one). *)
Variable n_features : nat.
Variable cv_score : list nat -> result Q.

(** [np.round(var_weights * n_submodels)]: the int is converted to
    float64, the product is a float64 product, and its rounding is an
    integer. *)
Definition appearances (var_weights : list Q) (n_submodels : nat) : list Z :=
  map (fun w => Np.round (Np.double (w * Np.float (Z.of_nat n_submodels))))
      var_weights.

(** One row of [bsm <= appearances]: entry [j] compares [j+1], converted to
    float64 as numpy does when an int array meets a float array, with the
    row's number of appearances. *)
Definition bsm_row (n_submodels : nat) (a : Z) : list bool :=
  map (fun j => Qle_bool (Np.float (Z.of_nat j)) (inject_Z a))
      (seq 1 n_submodels).

Definition initial_bsm (var_weights : list Q) (n_submodels : nat)
  : list (list bool) :=
  map (bsm_row n_submodels) (appearances var_weights n_submodels).

(** The permutation applied to each row: [argsort] of the row's slice of
    the shuffled [arange]. *)
Definition row_permutations (n_feats n_submodels : nat) (p : list nat)
  : list (list nat) :=
  map (argsort Nat.leb 0%nat) (Np.reshape n_feats n_submodels p).

Definition permute_rows (bsm : list (list bool)) (p : list (list nat))
  : list (list bool) :=
  map (fun rp => Np.take false (fst rp) (snd rp)) (combine bsm p).

Definition _produce_submodels (var_weights : list Q) (n_submodels : nat)
           (random_state : R) : R * list (list bool) :=
  let n_feats := List.length var_weights in
  let bsm := initial_bsm var_weights n_submodels in
  let '(random_state, p) :=
    shuffle random_state (seq 0 (n_submodels * n_feats)) in
  (random_state,
   permute_rows bsm (row_permutations n_feats n_submodels p)).

(** [_evaluate]: the mean cross-validation score of the estimator on the
    columns it is given, paired with the index it was called with; an error
    of the cross-validation is not caught. *)
Definition _evaluate {I : Type} (columns : list nat) (submodel_index : I)
  : result (Q * I) :=
  cv_mean <- cv_score columns ;; Ok (cv_mean, submodel_index).

(** [X[:, bsm[:, i]]]: the sampling matrix, of [shape1] columns, must have
    a column [i], and that column, a boolean mask, must have one entry for
    each column of X; numpy raises IndexError otherwise. *)
Definition masked_columns (shape1 : nat) (bsm : list (list bool)) (i : nat)
  : result (list nat) :=
  if (i <? shape1)%nat then
    if (List.length bsm =? n_features)%nat
    then Ok (Np.nonzero (Np.column bsm i))
    else Raise (IndexError (Z.of_nat (List.length bsm)))
  else Raise (IndexError (Z.of_nat i)).

(** Evaluating the calls of a generator in order, up to the first that
    raises. *)
Fixpoint for_each {A B} (f : A -> result B) (l : list A) : result (list B) :=
  match l with
  | [] => Ok []
  | x :: t => y <- f x ;; ys <- for_each f t ;; Ok (y :: ys)
  end.

(** [_evaluate_submodels]: submodel [i] is fitted on [X[:, bsm[:, i]]], the
    columns of X where column [i] of the sampling matrix is true; joblib
    returns the results in submission order.  The count is the estimator's
    [self.n_submodels]. *)
Definition _evaluate_submodels (self_n_submodels shape1 : nat)
           (bsm : list (list bool)) : result (list (Q * nat)) :=
  for_each (fun i => columns <- masked_columns shape1 bsm i ;;
                     _evaluate columns i)
           (seq 0 self_n_submodels).

(** Python's [sorted(l, key=...)]: stable, ascending in the key. *)
Fixpoint sorted_insert {A} (key : A -> Q) (x : A) (l : list A) : list A :=
  match l with
  | [] => [x]
  | y :: t => if Qle_bool (key x) (key y) then x :: y :: t
              else y :: sorted_insert key x t
  end.

Definition sorted {A} (key : A -> Q) (l : list A) : list A :=
  fold_right (sorted_insert key) [] l.

(** Unpacking the transposed pairs into two tuples, as [list(zip(...))]
    does: with no pair the zip is empty and the unpacking raises
    ValueError. *)
Definition unzip_pairs {A B} (pairs : list (A * B)) : result (list A * list B) :=
  match pairs with
  | [] => Raise ValueError
  | _ => Ok (map fst pairs, map snd pairs)
  end.

(** [np.sum(bsm[:, top_models], axis=1) / selection_quantile]: an int
    array divided by an int, which numpy does in float64. *)
Definition top_frequencies (bsm : list (list bool)) (top_models : list nat)
           (selection_quantile : nat) : list Q :=
  map (fun row =>
         Np.double
           (Np.float (Z.of_nat (Np.count_true (Np.take false row top_models)))
            / Np.float (Z.of_nat selection_quantile))) bsm.

(** What one pass through the body of the [for i in range(5)] loop did. *)
Inductive round_event : Type :=
| Improved (avg_top_scores : Q) (candidate : list Q)
    (* the [if] branch: the best score and the best weights are replaced *)
| Stalled (avg_top_scores : Q)    (* the [else] branch: [break] *)
| Failed (e : exn).               (* the body raised *)

Record refinement : Type := {
  rng_after : R;
  rounds : list round_event;
  outcome : result (Q * option (list Q))
}.

Definition sentinel : Q := (- inject_Z 10000000)%Q.

(** The loop of [_yield_best_weights] with [iters] iterations left.  Every
    iteration samples from the same [var_weights]. *)
Fixpoint refinement_loop (iters : nat) (self_n_submodels : nat)
         (var_weights : list Q) (n_submodels : nat) (random_state : R)
         (selection_quantile : nat)
         (best_score : Q) (best_var_weights : option (list Q)) : refinement :=
  match iters with
  | O => {| rng_after := random_state; rounds := [];
            outcome := Ok (best_score, best_var_weights) |}
  | S iters' =>
      let '(random_state, bsm) :=
        _produce_submodels var_weights n_submodels random_state in
      match
        submodels <- _evaluate_submodels self_n_submodels n_submodels bsm ;;
        let submodels_sorted := sorted (fun x => (- fst x)%Q) submodels in
        unzip_pairs (firstn selection_quantile submodels_sorted)
      with
      | Raise e => {| rng_after := random_state; rounds := [Failed e];
                      outcome := Raise e |}
      | Ok (top_scores, top_models) =>
          let avg_top_scores := Np.mean top_scores in
          if Qltb best_score avg_top_scores then
            let candidate :=
              top_frequencies bsm top_models selection_quantile in
            let r := refinement_loop iters' self_n_submodels var_weights
                       n_submodels random_state selection_quantile
                       avg_top_scores (Some candidate) in
            {| rng_after := rng_after r;
               rounds := Improved avg_top_scores candidate :: rounds r;
               outcome := outcome r |}
          else
            {| rng_after := random_state; rounds := [Stalled avg_top_scores];
               outcome := Ok (best_score, best_var_weights) |}
      end
  end.

(** The last improving round of a run of the loop, if any. *)
Fixpoint last_improved (evs : list round_event) : option (Q * list Q) :=
  match evs with
  | [] => None
  | Improved a c :: rest =>
      match last_improved rest with
      | Some x => Some x
      | None => Some (a, c)
      end
  | _ :: rest => last_improved rest
  end.

(** A run of the loop that starts with running best score [best]: every
    round but the last improved strictly on the best score before it, and a
    round that did not (or that raised) is the last one. *)
Fixpoint climbs (best : Q) (evs : list round_event) : Prop :=
  match evs with
  | [] => True
  | Improved a _ :: rest => (best < a)%Q /\ climbs a rest
  | Stalled a :: rest => (a <= best)%Q /\ rest = []
  | Failed _ :: rest => rest = []
  end.

(** No round of a run raised. *)
Definition raises_nothing (evs : list round_event) : Prop :=
  forall e, ~ In (Failed e) evs.

Definition _yield_best_weights (self_n_submodels : nat)
           (var_weights : list Q) (n_submodels : nat) (random_state : R)
           (selection_quantile : nat) : refinement :=
  refinement_loop 5 self_n_submodels var_weights n_submodels random_state
                  selection_quantile sentinel None.

End VISSA_mixin.

(** ** VISSA *)

(** The [random_state] constructor argument: an int seed, a RandomState
    instance (shared with the caller, so its state persists), or None (the
    process-wide generator of numpy). *)
Inductive random_state_arg (R : Type) : Type :=
| seed (z : Z)
| instance (r : R)
| unseeded.
Arguments seed {R} z.
Arguments instance {R} r.
Arguments unseeded {R}.

(** The estimator object.  [weights_] is [None] while the attribute is not
    set, [Some None] when it holds Python's None. *)
Record VISSA (R : Type) : Type := {
  n_features_to_select : nat;
  n_submodels : nat;
  random_state : random_state_arg R;
  weights_ : option (option (list Q));
  support_ : option (list bool)
}.

(** What one pass through the body of the [while True] loop of [_fit] did. *)
Inductive outer_event : Type :=
| Accepted (score : Q) (var_weights : list Q)
| Rejected (score : Q) (var_weights : option (list Q))
| Aborted (e : exn).

(** The local variables of [_fit] when its loop is left. *)
Record loop_exit : Type := {
  top_score : Q;
  top_var_weights : list Q;
  var_weights : option (list Q)
}.

Section VISSA_fit.

Context {R : Type} {RS : RandomState R} {NS : NumpySort}.

(** The data: [X.shape[1]] and the cross-validation score on a choice of
    columns of X against y. *)
Variable n_features : nat.
Variable cv_score : list nat -> result Q.

Record convergence : Type := {
  rng_final : R;
  history : list outer_event;
  exit : result loop_exit
}.

(** [sklearn.utils.check_random_state] *)
Definition check_random_state (arg : random_state_arg R) (global : R) : R :=
  match arg with
  | seed z => seed_state z
  | instance r => r
  | unseeded => global
  end.

(** Where the generator state lives once the fit is over. *)
Definition release_random_state (arg : random_state_arg R) (global r : R)
  : random_state_arg R * R :=
  match arg with
  | seed z => (seed z, global)
  | instance _ => (instance r, global)
  | unseeded => (unseeded, r)
  end.

(** [int(0.05 * n)]: the double nearest 0.05 exceeds 1/20 by 2^-54
    relatively, less than half an ulp, so the product truncates to n / 20. *)
Definition selection_quantile_of (n_submodels : nat) : nat := (n_submodels / 20)%nat.

Definition certainty (n_subs : nat) : Q :=
  ((inject_Z (Z.of_nat n_subs) - (1 # 2)) / inject_Z (Z.of_nat n_subs))%Q.

(** [np.sum(var_weights >= ((n_subs - 0.5) / n_subs))] *)
Definition n_certain (n_subs : nat) (var_weights : list Q) : nat :=
  Np.count_true (map (fun w => Qle_bool (certainty n_subs) w) var_weights).

Definition add_event (ev : outer_event) (c : convergence) : convergence :=
  {| rng_final := rng_final c; history := ev :: history c; exit := exit c |}.

(** The [while True] loop of [_fit]; [fuel] bounds the number of passes. *)
Fixpoint convergence_loop (fuel : nat) (n_subs selection_quantile k : nat)
         (top_score : Q) (top_var_weights : list Q) (random_state : R)
  : option convergence :=
  match fuel with
  | O => None
  | S fuel' =>
      let r := _yield_best_weights n_features cv_score n_subs top_var_weights
                                   n_subs random_state selection_quantile in
      match outcome r with
      | Raise e => Some {| rng_final := rng_after r; history := [Aborted e];
                           exit := Raise e |}
      | Ok (score, var_weights) =>
          if Qltb top_score score then
            match var_weights with
            | None =>   (* [None >= float] *)
                Some {| rng_final := rng_after r; history := [Aborted TypeError];
                        exit := Raise TypeError |}
            | Some w =>
                if (k <=? n_certain n_subs w)%nat then
                  Some {| rng_final := rng_after r;
                          history := [Accepted score w];
                          exit := Ok {| top_score := score;
                                        top_var_weights := w;
                                        var_weights := Some w |} |}
                else
                  option_map (add_event (Accepted score w))
                    (convergence_loop fuel' n_subs selection_quantile k
                                      score w (rng_after r))
            end
          else
            Some {| rng_final := rng_after r;
                    history := [Rejected score var_weights];
                    exit := Ok {| top_score := top_score;
                                  top_var_weights := top_var_weights;
                                  var_weights := var_weights |} |}
      end
  end.

(** [mask = zeros(n).astype('bool'); mask[idx] = True] *)
Definition mask_of (n : nat) (idx : list nat) : list bool :=
  map (fun i => existsb (Nat.eqb i) idx) (seq 0 n).

(** [np.argsort(-var_weights)[: n_features_to_select]] *)
Definition top_indices (var_weights : list Q) (k : nat) : list nat :=
  firstn k (argsort Qle_bool 0%Q (map Qopp var_weights)).

Definition with_attributes (self : VISSA R) (rs : random_state_arg R)
           (w : option (option (list Q))) (s : option (list bool)) : VISSA R :=
  {| n_features_to_select := n_features_to_select self;
     n_submodels := n_submodels self;
     random_state := rs;
     weights_ := w;
     support_ := s |}.

(** [VISSA._fit(X, y, n_features_to_select)].  Returns the estimator and
    the process-wide generator as the call leaves them, with the history of
    the loop and what the call returned or raised; [None] when [fuel] passes
    of the loop were not enough. *)
Definition _fit (self : VISSA R) (global : R) (fuel : nat)
  : option (VISSA R * R * list outer_event * result unit) :=
  let random_state0 := check_random_state (random_state self) global in
  let selection_quantile := selection_quantile_of (n_submodels self) in
  let n_subs := n_submodels self in
  match convergence_loop fuel n_subs selection_quantile
          (n_features_to_select self) sentinel
          (repeat (1 # 2)%Q n_features) random_state0 with
  | None => None
  | Some c =>
      let '(rs, global) :=
        release_random_state (random_state self) global (rng_final c) in
      match exit c with
      | Raise e =>
          Some (with_attributes self rs (weights_ self) (support_ self),
                global, history c, Raise e)
      | Ok x =>
          match var_weights x with
          | None =>   (* [-None] after both attributes were assigned *)
              Some (with_attributes self rs (Some None)
                      (Some (repeat false n_features)),
                    global, history c, Raise TypeError)
          | Some w =>
              Some (with_attributes self rs (Some (Some w))
                      (Some (mask_of n_features
                               (top_indices w (n_features_to_select self)))),
                    global, history c, Ok tt)
          end
      end
  end.

End VISSA_fit.

(** ** iVISSA: interval expansion *)

Module IVISSA.

(** [a[i]] on a one-dimensional numpy array: a negative index counts from
    the end, anything outside [-len, len) raises IndexError. *)
Definition resolve_index (len : nat) (i : Z) : result nat :=
  if ((0 <=? i) && (i <? Z.of_nat len))%Z then Ok (Z.to_nat i)
  else if ((- Z.of_nat len <=? i) && (i <? 0))%Z
       then Ok (Z.to_nat (Z.of_nat len + i))
       else Raise (IndexError i).

Definition getitem (a : list Q) (i : Z) : result Q :=
  k <- resolve_index (List.length a) i ;; Ok (nth k a 0%Q).

Fixpoint setitem (a : list Q) (k : nat) (v : Q) : list Q :=
  match a, k with
  | [], _ => []
  | _ :: t, O => v :: t
  | x :: t, S k' => x :: setitem t k' v
  end.

(** [X[:, columns]] with a list of integer column indices. *)
Fixpoint select_columns (n_features : nat) (columns : list Z)
  : result (list nat) :=
  match columns with
  | [] => Ok []
  | c :: rest =>
      k <- resolve_index n_features c ;;
      ks <- select_columns n_features rest ;;
      Ok (k :: ks)
  end.

(** The local variables of [_expand_interval]. *)
Record locals : Type := {
  var_weights : list Q;
  score : Q;
  features : list Z;
  borders : list Z;
  index : nat;
  progress : bool
}.

Definition set_border (borders : list Z) (index : nat) (b : Z) : list Z :=
  match index with
  | O => b :: tl borders
  | _ => hd 0%Z borders :: [b]
  end.

Section Expansion.

Variable n_features : nat.                 (* X.shape[1] *)
Variable cv_score : list nat -> result Q.

(** [(1 - index) * -1 + index * 1] *)
Definition direction (index : nat) : Z :=
  ((1 - Z.of_nat index) * -1 + Z.of_nat index * 1)%Z.

(** [limits = [0, -(X.shape[1] - 1)]] *)
Definition limits : list Z := [0%Z; (- (Z.of_nat n_features - 1))%Z].

(** The [if borders[index] >= limits[index]] statement. *)
Definition probe (threshold : Q) (l : locals) : result locals :=
  let b := nth (index l) (borders l) 0%Z in
  if (nth (index l) limits 0%Z <=? b)%Z then
    w <- getitem (var_weights l) b ;;
    if Qle_bool threshold w then
      Ok {| var_weights := var_weights l; score := score l;
            features := features l;
            borders := set_border (borders l) (index l) (b + direction (index l));
            index := index l; progress := true |}
    else
      cols <- select_columns n_features (features l ++ [b]) ;;
      evaluated <- _evaluate cv_score cols tt ;;
      let feature_score := fst evaluated in
      if Qltb (score l) feature_score then
        k <- resolve_index (List.length (var_weights l)) b ;;
        Ok {| var_weights := setitem (var_weights l) k 1%Q;
              score := feature_score;
              features := features l ++ [b];
              borders := set_border (borders l) (index l) (b + direction (index l));
              index := index l; progress := true |}
      else Ok l
  else Ok l.

(** The [while True] loop, [fuel] passes at most. *)
Fixpoint expand (fuel : nat) (threshold : Q) (l : locals)
  : option (result locals) :=
  match fuel with
  | O => None
  | S fuel' =>
      match probe threshold l with
      | Raise e => Some (Raise e)
      | Ok l =>
          if ((index l =? 1) && negb (progress l))%nat%bool then Some (Ok l)
          else
            let progress' := if (index l =? 1)%nat then false else progress l in
            expand fuel' threshold
                   {| var_weights := var_weights l; score := score l;
                      features := features l; borders := borders l;
                      index := (index l + 1) mod 2; progress := progress' |}
      end
  end.

(** [return features, score], with the weight vector as it was left. *)
Definition returned (l : locals) : list Z * Q * list Q :=
  (features l, score l, var_weights l).

(** [iVISSA._expand_interval] from its third statement on, with the
    threshold and the list of features the first two gave: returns
    [(features, score)]; the weight vector is the caller's array and is
    updated in place, so it is returned with them. *)
Definition expansion (fuel : nat) (threshold : Q) (var_weights : list Q)
           (score : Q) (features : list Z) (new_feature : Z)
  : option (result (list Z * Q * list Q)) :=
  match expand fuel threshold
          {| var_weights := var_weights; score := score; features := features;
             borders := [(new_feature - 1)%Z; (new_feature + 1)%Z];
             index := 0; progress := true |} with
  | None => None
  | Some (Raise e) => Some (Raise e)
  | Some (Ok l) => Some (Ok (returned l))
  end.

End Expansion.

End IVISSA.

(** ** The benchmarking DataHandler: retrieval and its key check *)

Module DataHandling.

Open Scope string_scope.

(** Index labels: dataset, method and metric names are strings, runs are
    ints, feature configurations are ints or (intervals, width) tuples, and
    the n_features level holds FeatureDescriptor objects. *)
Inductive label : Type :=
| Str (s : string)
| Int (z : Z)
| Tuple (a b : Z)
| Descriptor (org_key : label).

(** Modelled from the spec: the class FeatureDescriptor of auswahl/_base.py,
    which is not among the sources.  A descriptor keeps the key it was built
    from as [org_key]; descriptors are equal when their keys are, and
    building one from a descriptor copies it. *)
Definition FeatureDescriptor (feature : label) : label :=
  match feature with
  | Descriptor k => Descriptor k
  | raw => Descriptor raw
  end.

Fixpoint label_eqb (a b : label) : bool :=
  match a, b with
  | Str s, Str t => String.eqb s t
  | Int x, Int y => Z.eqb x y
  | Tuple x1 x2, Tuple y1 y2 => Z.eqb x1 y1 && Z.eqb x2 y2
  | Descriptor k, Descriptor k' => label_eqb k k'
  | _, _ => false
  end.

Definition str_int (z : Z) : string := NilZero.string_of_int (Z.to_int z).

(** What an f-string prints for a label. *)
Fixpoint render (l : label) : string :=
  match l with
  | Str s => s
  | Int z => str_int z
  | Tuple a b => "(" ++ str_int a ++ ", " ++ str_int b ++ ")"
  | Descriptor k => render k
  end.

(** A positional part of a [.loc] key, and a Python argument of a retrieval
    call: None, one value, or a list of values. *)
Inductive key_item : Type :=
| slice_all                       (* slice(None) *)
| one (l : label)
| several (ls : list label).

Inductive arg : Type :=
| PyNone
| Scalar (l : label)
| PyList (ls : list label).

(** [pandas.MultiIndex]: the level names and the tuples it holds. *)
Record MultiIndex : Type := {
  names : list string;
  tuples : list (list label)
}.

(** [MultiIndex.from_product]; the later [sortlevel] reorders the tuples
    and nothing here depends on their order. *)
Fixpoint product (levels : list (list label)) : list (list label) :=
  match levels with
  | [] => [[]]
  | l :: rest => flat_map (fun x => map (cons x) (product rest)) l
  end.

Definition from_product (levels : list (list label)) (names : list string)
  : MultiIndex :=
  {| names := names; tuples := product levels |}.

(** [np.any(multiindex.isin([item], level=level))] *)
Definition isin_any (multiindex : MultiIndex) (item : label) (level : nat)
  : bool :=
  existsb (fun t => match nth_error t level with
                    | Some x => label_eqb x item
                    | None => false
                    end) (tuples multiindex).

Definition message (multiindex : MultiIndex) (item : label) (level : nat)
  : string :=
  "Item " ++ render item ++ " not present in level "
          ++ nth level (names multiindex) "".

(** The inner [for item in k] loop of [_identify_key_error]. *)
Fixpoint first_missing (multiindex : MultiIndex) (level : nat)
         (items : list label) : option string :=
  match items with
  | [] => None
  | item :: rest =>
      if isin_any multiindex item level then first_missing multiindex level rest
      else Some (message multiindex item level)
  end.

Definition items_of (k : key_item) : list label :=
  match k with
  | slice_all => []
  | one l => [l]
  | several ls => ls
  end.

(** The outer loop of [_identify_key_error], from position [level] on. *)
Fixpoint identify_from (level : nat) (key : list key_item)
         (multiindex : MultiIndex) : option string :=
  match key with
  | [] => None
  | k :: rest =>
      match first_missing multiindex level (items_of k) with
      | Some msg => Some msg
      | None => identify_from (S level) rest multiindex
      end
  end.

Definition _identify_key_error (key : list key_item) (multiindex : MultiIndex)
  : option string :=
  identify_from 0 key multiindex.

(** A pandas frame: the row labels (the methods) and the column index. *)
Record DataFrame : Type := {
  index : list label;
  columns : MultiIndex
}.

Record DataHandler : Type := {
  selection_data : DataFrame;
  stab_data : DataFrame;
  reg_data : DataFrame;
  measurement_data : DataFrame
}.

Definition runs (n_runs : nat) : list label :=
  map (fun i => Int (Z.of_nat i)) (seq 0 n_runs).

(** [DataHandler.__init__], as far as the four indices go. *)
Definition new_handler (datasets methods features reg_metrics stab_metrics
                          : list label) (n_runs : nat) : DataHandler :=
  let frame levels names :=
    {| index := methods; columns := from_product levels names |} in
  {| selection_data :=
       frame [datasets; features; runs n_runs] ["dataset"; "n_features"; "run"];
     stab_data :=
       frame [datasets; features; stab_metrics]
             ["dataset"; "n_features"; "stability_metric"];
     reg_data :=
       frame [datasets; features; reg_metrics; runs n_runs]
             ["dataset"; "n_features"; "regression_metric"; "run"];
     measurement_data :=
       frame [datasets; features; runs n_runs] ["dataset"; "n_features"; "run"]
  |}.

Definition or_slice (a : arg) : key_item :=
  match a with
  | PyNone => slice_all
  | Scalar l => one l
  | PyList ls => several ls
  end.

(** [value != -1] on what [kwargs.pop(key_item, -1)] gave. *)
Definition differs_from_minus_one (a : arg) : bool :=
  match a with
  | Scalar (Int z) => negb (Z.eqb z (-1))
  | _ => true
  end.

(** The keyword arguments [reg_metric], [stab_metric] and [sample] of
    [_make_key]: [None] here means the keyword was not passed. *)
Definition keyword_items (kwargs : list (option arg)) : list key_item :=
  flat_map (fun kw => match kw with
                      | None => []
                      | Some value => if differs_from_minus_one value
                                      then [or_slice value] else []
                      end) kwargs.

Definition _make_key (dataset method n_features : arg)
           (reg_metric stab_metric sample : option arg)
  : key_item * list key_item :=
  let method_key := or_slice method in
  let n_features :=
    match n_features with
    | PyNone => slice_all
    | Scalar f => several (map FeatureDescriptor [f])
    | PyList fs => several (map FeatureDescriptor fs)
    end in
  (method_key,
   ([or_slice dataset; n_features]
      ++ keyword_items [reg_metric; stab_metric; sample])%list).

Section Retrieval.

(** The frame contents a lookup returns, and pandas' [frame.loc[rows, cols]]:
    [None] when pandas itself raises KeyError. *)
Variable Frame : Type.
Variable loc : DataFrame -> key_item -> list key_item -> option Frame.

(** The decorator [_protected] applied to a retrieval method's body. *)
Definition _protected (frame : DataFrame) (keys : key_item * list key_item)
  : result Frame :=
  match loc frame (fst keys) (snd keys) with
  | None => Raise (KeyError "")
  | Some res =>
      match _identify_key_error (snd keys) (columns frame) with
      | Some key_error => Raise (KeyError key_error)
      | None => Ok res
      end
  end.

Definition get_regression_data (s : DataHandler)
           (dataset method n_features reg_metric sample : arg) : result Frame :=
  _protected (reg_data s)
    (_make_key dataset method n_features (Some reg_metric) None (Some sample)).

Definition get_selection_data (s : DataHandler)
           (dataset method n_features sample : arg) : result Frame :=
  _protected (selection_data s)
    (_make_key dataset method n_features None None (Some sample)).

Definition get_stability_data (s : DataHandler)
           (dataset method n_features stab_metric : arg) : result Frame :=
  _protected (stab_data s)
    (_make_key dataset method n_features None (Some stab_metric) None).

Definition get_measurement_data (s : DataHandler)
           (dataset method n_features sample : arg) : result Frame :=
  _protected (measurement_data s)
    (_make_key dataset method n_features None None (Some sample)).

(** Item [item] is asked for at position [pos] of the column key and no
    tuple of the index has it at that level. *)
Definition missing_in (key : list key_item) (multiindex : MultiIndex)
           (pos : nat) (item : label) : Prop :=
  exists k, nth_error key pos = Some k /\ In item (items_of k)
            /\ isin_any multiindex item pos = false.

(** Item [item] is the first missing one in key order: it is asked for at
    position [pos] of the column key and is in no tuple of the index at that
    level, while every item listed before it at that position, and every
    item asked for at an earlier position, is in the index at its level. *)
Definition first_missing_in (key : list key_item) (multiindex : MultiIndex)
           (pos : nat) (item : label) : Prop :=
  exists k pre post,
    nth_error key pos = Some k
    /\ items_of k = (pre ++ item :: post)%list
    /\ isin_any multiindex item pos = false
    /\ (forall x, In x pre -> isin_any multiindex x pos = true)
    /\ (forall pos' k' x, (pos' < pos)%nat -> nth_error key pos' = Some k' ->
                          In x (items_of k') ->
                          isin_any multiindex x pos' = true).

(** The call raised a KeyError that names the first missing item and its
    level. *)
Definition reports_missing (r : result Frame) (key : list key_item)
           (multiindex : MultiIndex) : Prop :=
  exists pos item, first_missing_in key multiindex pos item
                   /\ r = Raise (KeyError (message multiindex item pos)).

(** What a protected lookup in [frame] with [keys] does, by cases on pandas'
    own lookup. *)
Definition diagnoses (frame : DataFrame) (keys : key_item * list key_item)
           (r : result Frame) : Prop :=
  (loc frame (fst keys) (snd keys) = None -> r = Raise (KeyError ""))
  /\ (forall res, loc frame (fst keys) (snd keys) = Some res ->
                  (exists pos item, missing_in (snd keys) (columns frame) pos item) ->
                  reports_missing r (snd keys) (columns frame))
  /\ (forall res, loc frame (fst keys) (snd keys) = Some res ->
                  (forall pos item, ~ missing_in (snd keys) (columns frame) pos item) ->
                  r = Ok res).

End Retrieval.

(** Two stand-ins for pandas: one whose lookup always returns a (possibly
    empty) selection, and one that raises KeyError when a single row label
    is not in the frame's index. *)
Definition lenient_loc (frame : DataFrame) (rows : key_item)
           (cols : list key_item) : option unit := Some tt.

Definition strict_rows_loc (frame : DataFrame) (rows : key_item)
           (cols : list key_item) : option unit :=
  match rows with
  | one l => if existsb (label_eqb l) (index frame) then Some tt else None
  | _ => Some tt
  end.

(** A store with one dataset, one method, one feature configuration, one
    metric of each kind and two runs. *)
Definition small_store : DataHandler :=
  new_handler [Str "corn"] [Str "VIP"] [Descriptor (Int 10)]
              [Str "mean_squared_error"] [Str "zucknick"] 2.

End DataHandling.

(** ** Concrete generators, sorts and data used to run the model *)

Module Concrete.

(** A stable argsort by insertion: among equal keys the smaller index comes
    first. *)
Fixpoint insert_index {A} (leb : A -> A -> bool) (d : A) (l : list A)
         (i : nat) (acc : list nat) : list nat :=
  match acc with
  | [] => [i]
  | j :: t => if leb (nth i l d) (nth j l d) then i :: j :: t
              else j :: insert_index leb d l i t
  end.

Definition stable_argsort (A : Type) (leb : A -> A -> bool) (d : A)
           (l : list A) : list nat :=
  fold_right (insert_index leb d l) [] (seq 0 (List.length l)).

(** An argsort that is not stable: among equal keys the larger index comes
    first. *)
Fixpoint insert_index_late {A} (leb : A -> A -> bool) (d : A) (l : list A)
         (i : nat) (acc : list nat) : list nat :=
  match acc with
  | [] => [i]
  | j :: t => if leb (nth j l d) (nth i l d)
              then j :: insert_index_late leb d l i t
              else i :: j :: t
  end.

Definition unstable_argsort (A : Type) (leb : A -> A -> bool) (d : A)
           (l : list A) : list nat :=
  fold_right (insert_index_late leb d l) [] (seq 0 (List.length l)).

(** numpy's default quicksort sorts up to 17 elements by insertion, which
    is stable, and partitions longer arrays, which is not; this sort does
    the same up to 17 elements and stands for the partitioning beyond. *)
Definition quicksort_like_argsort (A : Type) (leb : A -> A -> bool) (d : A)
           (l : list A) : list nat :=
  if (List.length l <=? 17)%nat then stable_argsort leb d l
  else unstable_argsort leb d l.

(** A generator that replays a script: its state is the list of the
    permutations still to come; an entry that is not a permutation of the
    array to shuffle leaves the array as it is. *)
Definition perm_check (p l : list nat) : bool :=
  (List.length p =? List.length l)%nat
  && forallb (fun x => (count_occ Nat.eq_dec p x =? count_occ Nat.eq_dec l x)%nat)
             (p ++ l).

Definition scripted_shuffle (s : list (list nat)) (l : list nat)
  : list (list nat) * list nat :=
  match s with
  | [] => ([], l)
  | p :: s' => (s', if perm_check p l then p else l)
  end.

(** The slice of a shuffled [arange] for the row starting at [base] whose
    true entries are to land on the columns [on], the others on [off]. *)
Definition row_script (base : nat) (on off : list nat) : list nat :=
  map (Nat.add base) (on ++ off).

(** Three features, forty submodels.  After [shuffle_a] column 0 is the only
    one holding features {0, 2} and column 20 holds feature {1} alone; after
    [shuffle_b] no column holds {0, 2} and columns 38, 39 hold {1} alone. *)
Definition shuffle_a : list nat :=
  row_script 0 (seq 0 20) (seq 20 20)
  ++ row_script 40 (seq 1 20) (0%nat :: seq 21 19)
  ++ row_script 80 (seq 0 20) (seq 20 20).

Definition shuffle_b : list nat :=
  row_script 0 (seq 0 20) (seq 20 20)
  ++ row_script 40 (seq 0 16 ++ [18; 19; 38; 39]%nat) ([16; 17]%nat ++ seq 20 18)
  ++ row_script 80 (seq 18 20) (seq 0 18 ++ [38; 39]%nat).

Definition book (z : Z) : list (list nat) :=
  [shuffle_a; shuffle_a; shuffle_b; shuffle_b].

(** Cross-validation scores (negative mean squared errors) of a data set on
    which features {0, 2} together predict best and feature 1 alone second
    best. *)
Definition cv_three (columns : list nat) : result Q :=
  match columns with
  | [0; 2]%nat => Ok (- (1))%Q
  | [1]%nat => Ok (- (3))%Q
  | _ => Ok (- (5))%Q
  end.

Definition three_features : VISSA (list (list nat)) :=
  {| n_features_to_select := 1; n_submodels := 40; random_state := seed 0;
     weights_ := None; support_ := None |}.

(** A data set whose targets are so large that every submodel has a mean
    squared error of 2e7. *)
Definition cv_huge (columns : list nat) : result Q :=
  Ok (- inject_Z 20000000)%Q.

(** A data set on which every submodel scores the same, with an estimator
    that can be fitted on any choice of columns. *)
Definition cv_flat (columns : list nat) : result Q := Ok (- (1))%Q.

(** The same data with the default estimator: PLS regression cannot be
    fitted on no column, and the cross-validation raises ValueError. *)
Definition cv_pls (columns : list nat) : result Q :=
  match columns with
  | [] => Raise ValueError
  | _ => Ok (- (1))%Q
  end.

Definition two_features : VISSA (list (list nat)) :=
  {| n_features_to_select := 1; n_submodels := 20; random_state := seed 7;
     weights_ := None; support_ := None |}.

Definition two_of_eighteen : VISSA (list (list nat)) :=
  {| n_features_to_select := 2; n_submodels := 20; random_state := seed 7;
     weights_ := None; support_ := None |}.

(** The same estimator built with a RandomState instance instead of an int
    seed. *)
Definition three_features_shared : VISSA (list (list nat)) :=
  {| n_features_to_select := 1; n_submodels := 40;
     random_state := instance (book 0);
     weights_ := None; support_ := None |}.

Definition few_submodels : VISSA (list (list nat)) :=
  {| n_features_to_select := 1; n_submodels := 10; random_state := seed 7;
     weights_ := None; support_ := None |}.

Definition no_script (z : Z) : list (list nat) := [].

End Concrete.

(** The selection rule in the words of the specification: rank the features
    by descending weight, ties by ascending index, and mark the first [k]. *)
Definition stable_support (var_weights : list Q) (k : nat) : list bool :=
  map (fun i => existsb (Nat.eqb i)
                  (firstn k (Concrete.stable_argsort Qle_bool 0%Q
                               (map Qopp var_weights))))
      (seq 0 (List.length var_weights)).

(** ** iVISSA: newly selected features and the growth of intervals *)

(** Exceptions beyond those of [exn], and the completion of a call that may
    raise them. *)
Inductive error : Type :=
| Builtin (e : exn)
| ZeroDivisionError
| AttributeError (attribute : string).

Inductive completion (A : Type) : Type :=
| Returns (a : A)
| Throws (e : error).
Arguments Returns {A} a.
Arguments Throws {A} e.

Definition of_result {A} (r : result A) : completion A :=
  match r with
  | Ok a => Returns a
  | Raise e => Throws (Builtin e)
  end.

Module IntervalGrowth.

(** [numpy.unique] of an index array: its values in increasing order, each
    once. *)
Fixpoint insert_unique (x : nat) (l : list nat) : list nat :=
  match l with
  | [] => [x]
  | y :: t => if (x <? y)%nat then x :: y :: t
              else if (x =? y)%nat then y :: t
              else y :: insert_unique x t
  end.

Definition unique (l : list nat) : list nat := fold_right insert_unique [] l.

(** [numpy.setdiff1d(ar1, ar2)]: the unique values of [ar1] that are not in
    [ar2], in increasing order. *)
Definition setdiff1d (ar1 ar2 : list nat) : list nat :=
  filter (fun x => negb (existsb (Nat.eqb x) (unique ar2))) (unique ar1).

(** [(n_submodels - 0.5) / n_submodels] on a Python int. *)
Definition threshold_of (n_submodels : nat) : completion Q :=
  if (n_submodels =? 0)%nat then Throws ZeroDivisionError
  else Returns (certainty n_submodels).

(** [np.nonzero(var_weights >= threshold)[0]] *)
Definition selected (threshold : Q) (var_weights : list Q) : list nat :=
  Np.nonzero (map (fun w => Qle_bool threshold w) var_weights).

(** [iVISSA._newly_selected] *)
Definition _newly_selected (var_weights next_var_weights : list Q)
           (n_submodels : nat) : completion (list nat * list nat) :=
  match threshold_of n_submodels with
  | Throws e => Throws e
  | Returns threshold =>
      let old_selected := selected threshold var_weights in
      let new_selected := selected threshold next_var_weights in
      Returns (new_selected, setdiff1d new_selected old_selected)
  end.

(** The [features] argument of [_expand_interval] is a numpy array on the
    first call of [_grow_intervals] and the Python list a previous call
    returned afterwards; only the array has [tolist]. *)
Inductive sequence : Type :=
| ndarray (l : list Z)
| pylist (l : list Z).

Definition tolist (s : sequence) : completion (list Z) :=
  match s with
  | ndarray l => Returns l
  | pylist _ => Throws (AttributeError "tolist")
  end.

Section Growth.

Variable n_features : nat.                 (* X.shape[1] *)
Variable cv_score : list nat -> result Q.

(** [iVISSA._expand_interval]: the threshold, then [features.tolist()],
    then the loop; [None] when [fuel] passes of the loop were not enough. *)
Definition _expand_interval (fuel : nat) (var_weights : list Q) (score : Q)
           (features : sequence) (new_feature : Z) (n_submodels : nat)
  : option (completion (list Z * Q * list Q)) :=
  match threshold_of n_submodels with
  | Throws e => Some (Throws e)
  | Returns threshold =>
      match tolist features with
      | Throws e => Some (Throws e)
      | Returns features =>
          option_map of_result
            (IVISSA.expansion n_features cv_score fuel threshold var_weights
                              score features new_feature)
      end
  end.

(** The [for i in range(new_features.size)] loop of [_grow_intervals]; the
    weight vector is the array the expansions write to. *)
Fixpoint grow (fuel : nat) (new_features : list nat)
         (next_var_weights : list Q) (score : Q) (features : sequence)
         (n_submodels : nat) : option (completion (list Q * Q)) :=
  match new_features with
  | [] => Some (Returns (next_var_weights, score))
  | new_feature :: rest =>
      match _expand_interval fuel next_var_weights score features
                             (Z.of_nat new_feature) n_submodels with
      | None => None
      | Some (Throws e) => Some (Throws e)
      | Some (Returns (features, score, next_var_weights)) =>
          grow fuel rest next_var_weights score (pylist features) n_submodels
      end
  end.

(** [iVISSA._grow_intervals]: returns [(next_var_weights, score)]. *)
Definition _grow_intervals (fuel : nat) (var_weights next_var_weights : list Q)
           (score : Q) (n_submodels : nat)
  : option (completion (list Q * Q)) :=
  match _newly_selected var_weights next_var_weights n_submodels with
  | Throws e => Some (Throws e)
  | Returns (features, new_features) =>
      grow fuel new_features next_var_weights score
           (ndarray (map Z.of_nat features)) n_submodels
  end.

End Growth.

End IntervalGrowth.

(** ** iVISSA: the fit *)

Section IVISSA_fit.

Context {R : Type} {RS : RandomState R} {NS : NumpySort}.
Variable n_features : nat.
Variable cv_score : list nat -> result Q.

(** The [while True] loop of [iVISSA._fit], at most [fuel] passes, each
    expansion at most [fuel_e] passes; the result is the variable
    [var_weights] when the loop is left.  An accepted round goes through
    [_grow_intervals], whose weights and score become the best ones. *)
Fixpoint interval_loop (fuel fuel_e : nat) (n_subs selection_quantile : nat)
         (top_score : Q) (top_var_weights : list Q) (random_state : R)
  : option (completion (option (list Q))) :=
  match fuel with
  | O => None
  | S fuel' =>
      let r := _yield_best_weights n_features cv_score n_subs top_var_weights
                                   n_subs random_state selection_quantile in
      match outcome r with
      | Raise e => Some (Throws (Builtin e))
      | Ok (score, var_weights) =>
          if Qltb top_score score then
            match var_weights with
            | None => Some (Throws (Builtin TypeError))  (* [None >= float] *)
            | Some w =>
                match IntervalGrowth._grow_intervals n_features cv_score fuel_e
                        top_var_weights w score n_subs with
                | None => None
                | Some (Throws e) => Some (Throws e)
                | Some (Returns (w', score')) =>
                    interval_loop fuel' fuel_e n_subs selection_quantile
                                  score' w' (rng_after r)
                end
            end
          else Some (Returns var_weights)
      end
  end.

(** [iVISSA._fit(X, y, n_intervals_to_select, interval_width)] with the
    generator [check_random_state] gave: the attributes [weights_] and
    [support_] it sets when it returns. *)
Definition interval_fit (fuel fuel_e : nat) (n_submodels : nat)
           (random_state : R) (n_intervals_to_select interval_width : nat)
  : option (completion (list Q * list bool)) :=
  match interval_loop fuel fuel_e n_submodels
          (selection_quantile_of n_submodels) sentinel
          (repeat (1 # 2)%Q n_features) random_state with
  | None => None
  | Some (Throws e) => Some (Throws e)
  | Some (Returns None) => Some (Throws (Builtin TypeError))   (* [-None] *)
  | Some (Returns (Some w)) =>
      Some (Returns (w, mask_of n_features
                          (top_indices w (n_intervals_to_select * interval_width))))
  end.

End IVISSA_fit.

(** ** Predicates on weight vectors and on the history of a fit *)

(** A weight in [0, 1]. *)
Definition unit_weight (v : Q) : Prop := (0 <= v)%Q /\ (v <= 1)%Q.

(** A history of the loop of [_fit] that starts with best score [best]:
    every accepted round scored strictly above the best score before it, and
    a rejected round, which did not, or a round that raised, is the last. *)
Fixpoint ascends (best : Q) (h : list outer_event) : Prop :=
  match h with
  | [] => True
  | Accepted s _ :: rest => (best < s)%Q /\ ascends s rest
  | Rejected s _ :: rest => (s <= best)%Q /\ rest = []
  | Aborted _ :: rest => rest = []
  end.

(** ** Enumerations that bound the number of passes of a fit *)

(** All boolean masks of a given length. *)
Fixpoint all_masks (n : nat) : list (list bool) :=
  match n with
  | O => [[]]
  | S n' => flat_map (fun m => [true :: m; false :: m]) (all_masks n')
  end.

(** All lists of a given length over the values [vs]. *)
Fixpoint tuples {A} (vs : list A) (n : nat) : list (list A) :=
  match n with
  | O => [[]]
  | S n' => flat_map (fun t => map (fun v => v :: t) vs) (tuples vs n')
  end.

(** The cross-validation returns on every choice of columns. *)
Definition always_returns (cv_score : list nat -> result Q) : Prop :=
  forall columns, exists cv_mean, cv_score columns = Ok cv_mean.

(** The cross-validation on these columns returns a score of at most [s]. *)
Definition scores_at_most (cv_score : list nat -> result Q)
           (columns : list nat) (s : Q) : Prop :=
  exists cv_mean, cv_score columns = Ok cv_mean /\ (cv_mean <= s)%Q.

(** The score of a mask, if its cross-validation returns. *)
Definition score_of_mask (cv_score : list nat -> result Q) (mask : list bool)
  : list Q :=
  match cv_score (Np.nonzero mask) with
  | Ok cv_mean => [cv_mean]
  | Raise _ => []
  end.

(** The average top scores a refinement round can reach on data with
    [n_features] columns: the means of [m] scores of submodels. *)
Definition reachable_scores (n_features : nat)
           (cv_score : list nat -> result Q) (m : nat) : list Q :=
  map Np.mean
      (tuples (flat_map (score_of_mask cv_score) (all_masks n_features)) m).

(** A strictly increasing run of scores above [best]. *)
Fixpoint rising (best : Q) (l : list Q) : Prop :=
  match l with
  | [] => True
  | x :: t => (best < x)%Q /\ rising x t
  end.

(** ** The DataHandler: meta information and the name of the pickle file *)

Module Registry.

Section Meta.

(** Spectra and targets are arrays the handler only stores; [shape] is
    [x.shape] of the spectra. *)
Variables Spectra Targets : Type.
Variable shape : Spectra -> nat * nat.

Definition entry : Type := (Spectra * Targets * (nat * nat))%type.

(** The dict [self.meta]: keys in insertion order. *)
Definition dict : Type := list (string * entry).

Fixpoint setitem (d : dict) (k : string) (v : entry) : dict :=
  match d with
  | [] => [(k, v)]
  | (k', v') :: t => if String.eqb k' k then (k', v) :: t
                     else (k', v') :: setitem t k v
  end.

Fixpoint getitem (d : dict) (k : string) : result entry :=
  match d with
  | [] => Raise (KeyError k)
  | (k', v) :: t => if String.eqb k' k then Ok v else getitem t k
  end.

(** The argument of [register_meta]: one tuple (x, y, name, _) or a list of
    them. *)
Definition dataset_tuple : Type := (Spectra * Targets * string * Q)%type.

Inductive argument : Type :=
| single (t : dataset_tuple)
| many (l : list dataset_tuple).

Definition register_meta (meta : dict) (dataset_meta : argument) : dict :=
  let dataset_meta :=
    match dataset_meta with
    | single t => [t]
    | many l => l
    end in
  fold_left (fun meta t =>
               let '(x, y, name, _) := t in setitem meta name (x, y, shape x))
            dataset_meta meta.

Definition get_meta (meta : dict) (dataset : string) : result entry :=
  getitem meta dataset.

End Meta.

(** ['.' in file_name]. *)
Fixpoint has_dot (file_name : string) : bool :=
  match file_name with
  | EmptyString => false
  | String c rest => Ascii.eqb c "."%char || has_dot rest
  end.

(** [file_name.split('.')[0]]: what precedes the first dot, or the whole
    name when it has none. *)
Fixpoint first_field (file_name : string) : string :=
  match file_name with
  | EmptyString => EmptyString
  | String c rest => if Ascii.eqb c "."%char then EmptyString
                     else String c (first_field rest)
  end.

Fixpoint ends_with_slash (s : string) : bool :=
  match s with
  | EmptyString => false
  | String c EmptyString => Ascii.eqb c "/"%char
  | String _ rest => ends_with_slash rest
  end.

(** [os.path.join] of two components on a POSIX system. *)
Definition path_join (a b : string) : string :=
  match b with
  | String "/"%char _ => b
  | _ => match a with
         | EmptyString => b
         | _ => if ends_with_slash a then (a ++ b)%string
                else (a ++ "/" ++ b)%string
         end
  end.

(** The path [DataHandler.store] opens for writing. *)
Definition store_path (file_path file_name : string) : string :=
  let file_name :=
    if has_dot file_name then first_field file_name else file_name in
  path_join file_path (file_name ++ ".pickle")%string.

End Registry.

(** ** Stability metrics *)

Module Metrics.

(** [numpy.intersect1d]: the values common to both arrays, in increasing
    order, each once. *)
Definition intersect1d (ar1 ar2 : list nat) : list nat :=
  filter (fun x => existsb (Nat.eqb x) ar2) (IntervalGrowth.unique ar1).

Definition size {A} (l : list A) : Q := inject_Z (Z.of_nat (List.length l)).

(** [DengScore.pairwise_sim_func] once [n_wavelengths] has been read from
    the meta information: Python ints and floats, so a zero divisor
    raises. *)
Definition deng (n_wavelengths : nat) (set_1 set_2 : list nat) : completion Q :=
  let n := size set_1 in
  if (n_wavelengths =? 0)%nat then Throws ZeroDivisionError
  else
    let e := (n * n / inject_Z (Z.of_nat n_wavelengths))%Q in
    if Qeq_bool (n - e) 0 then Throws ZeroDivisionError
    else Returns ((size (intersect1d set_1 set_2) - e) / (n - e))%Q.

Section Deng.

Variables Spectra Targets : Type.

(** [DengScore.pairwise_sim_func]: [data.get_meta(dataset)[2][1]] is the
    number of wavelengths. *)
Definition deng_pairwise_sim_func (meta : Registry.dict Spectra Targets)
           (set_1 set_2 : list nat) (dataset : string) : completion Q :=
  match Registry.get_meta meta dataset with
  | Raise e => Throws (Builtin e)
  | Ok (_, _, (_, n_wavelengths)) => deng n_wavelengths set_1 set_2
  end.

End Deng.

Section Zucknick.

Variables Spectra Targets : Type.

(** [np.sum(correlation[:support_1.size, support_1.size:])] of the
    thresholded absolute correlations between the features of [support_1]
    and those of the set difference: floating-point statistics of the
    spectra, taken as given. *)
Variable correlation_sum : Spectra -> list nat -> list nat -> Q.

(** A Python int or a numpy float: they divide by zero differently. *)
Inductive number : Type :=
| pyint (z : Z)
| npfloat (q : Q).

Definition value (x : number) : Q :=
  match x with
  | pyint z => inject_Z z
  | npfloat q => q
  end.

Definition _thresholded_correlation (spectra : Spectra)
           (support_1 support_2 : list nat) : number :=
  let set_diff := IntervalGrowth.setdiff1d support_2 support_1 in
  if (List.length set_diff =? 0)%nat then pyint 0
  else npfloat ((1 / size support_2) * correlation_sum spectra support_1 set_diff)%Q.

(** [ZucknickScore.pairwise_sim_func].  [Returns None] stands for the inf
    or nan numpy gives, with a warning, when a numpy float is divided by
    zero. *)
Definition zucknick_pairwise_sim_func (meta : Registry.dict Spectra Targets)
           (set_1 set_2 : list nat) (dataset : string)
  : completion (option Q) :=
  let n := Z.of_nat (List.length set_1) in
  match Registry.get_meta meta dataset with
  | Raise e => Throws (Builtin e)
  | Ok (spectra, _, _) =>
      let intersection_size :=
        Z.of_nat (List.length (intersect1d set_1 set_2)) in
      let union_size := (2 * n - intersection_size)%Z in
      let c_12 := _thresholded_correlation spectra set_1 set_2 in
      let c_21 := _thresholded_correlation spectra set_2 set_1 in
      if (union_size =? 0)%Z then
        match c_12, c_21 with
        | pyint _, pyint _ => Throws ZeroDivisionError
        | _, _ => Returns None
        end
      else
        Returns (Some ((inject_Z intersection_size + value c_12 + value c_21)
                         / inject_Z union_size)%Q)
  end.

End Zucknick.

(** [numpy.triu_indices(r)]: the pairs (i, j) with i <= j < r, row by row. *)
Definition triu_indices (r : nat) : list (nat * nat) :=
  flat_map (fun i => map (pair i) (seq i (r - i))) (seq 0 r).

(** The pairs of runs [_pairwise_scoring] compares: those of
    [triu_indices] off the diagonal. *)
Definition compared_pairs (r : nat) : list (nat * nat) :=
  filter (fun p => negb (fst p =? snd p)%nat) (triu_indices r).

(** A float a similarity function returns: [Some] of a number, or [None]
    for a value that is not finite, the nan or infinity numpy gives for a
    float divided by zero. *)
Definition finite (c : completion Q) : completion (option Q) :=
  match c with
  | Returns v => Returns (Some v)
  | Throws e => Throws e
  end.

(** The values of an array of floats when all of them are finite. *)
Fixpoint finite_values (sims : list (option Q)) : option (list Q) :=
  match sims with
  | [] => Some []
  | Some v :: rest => option_map (cons v) (finite_values rest)
  | None :: _ => None
  end.

(** [np.mean(np.array(pairwise_sim))]: nan for no value, and not finite
    when a value is not finite. *)
Definition mean_of (sims : list (option Q)) : option Q :=
  match sims with
  | [] => None
  | _ => option_map Np.mean (finite_values sims)
  end.

Section PairwiseScoring.

Variable Support : Type.
Variable pairwise_sim_func : Support -> Support -> completion (option Q).

Definition run (supports : list Support) (i : nat) : completion Support :=
  match nth_error supports i with
  | Some s => Returns s
  | None => Throws (Builtin (IndexError (Z.of_nat i)))
  end.

Fixpoint collect (pairs : list (nat * nat)) (supports : list Support)
  : completion (list (option Q)) :=
  match pairs with
  | [] => Returns []
  | (i, j) :: rest =>
      match run supports i with
      | Throws e => Throws e
      | Returns set_1 =>
          match run supports j with
          | Throws e => Throws e
          | Returns set_2 =>
              match pairwise_sim_func set_1 set_2 with
              | Throws e => Throws e
              | Returns v =>
                  match collect rest supports with
                  | Throws e => Throws e
                  | Returns vs => Returns (v :: vs)
                  end
              end
          end
      end
  end.

(** The score [_pairwise_scoring] registers for one method, dataset and
    feature configuration from the selections of the [r] runs: the mean of
    the similarities of the compared pairs; [None] is a score that is not
    finite. *)
Definition pairwise_score (r : nat) (supports : list Support)
  : completion (option Q) :=
  match collect (compared_pairs r) supports with
  | Throws e => Throws e
  | Returns sims => Returns (mean_of sims)
  end.

End PairwiseScoring.

End Metrics.

(** * Properties *)

(** ** Lists, counting and rearranging *)

Lemma count_true_app (l1 l2 : list bool) :
  Np.count_true (l1 ++ l2) = (Np.count_true l1 + Np.count_true l2)%nat.
Proof.
  unfold Np.count_true. now rewrite filter_app, length_app.
Qed.

Lemma count_true_perm (l1 l2 : list bool) :
  Permutation l1 l2 -> Np.count_true l1 = Np.count_true l2.
Proof.
  intros P. induction P; unfold Np.count_true in *; simpl.
  - reflexivity.
  - destruct x; simpl; congruence.
  - destruct x, y; reflexivity.
  - congruence.
Qed.

Lemma take_all {A} (d : A) (l : list A) :
  Np.take d l (seq 0 (List.length l)) = l.
Proof.
  unfold Np.take. induction l as [|x l IH]; simpl; [reflexivity|].
  f_equal. rewrite <- seq_shift, map_map. exact IH.
Qed.

Lemma take_perm {A} (d : A) (l : list A) (idx : list nat) :
  Permutation idx (seq 0 (List.length l)) -> Permutation l (Np.take d l idx).
Proof.
  intros P. rewrite <- (take_all d l) at 1.
  unfold Np.take. apply Permutation_map. now symmetry.
Qed.

Lemma reshape_length {A} (rows cols : nat) (p : list A) :
  List.length (Np.reshape rows cols p) = rows.
Proof.
  revert p. induction rows; intros p; simpl; [reflexivity|]. now rewrite IHrows.
Qed.

Lemma reshape_row_length {A} (rows cols : nat) (p : list A) (row : list A) :
  List.length p = (cols * rows)%nat -> In row (Np.reshape rows cols p) ->
  List.length row = cols.
Proof.
  revert p. induction rows as [|r IH]; intros p Hp Hin; simpl in Hin.
  - contradiction.
  - destruct Hin as [<- | Hin].
    + rewrite length_firstn. lia.
    + apply (IH (skipn cols p)); [|exact Hin]. rewrite length_skipn. lia.
Qed.

(** ** Rounding *)

Lemma round_range (x : Q) (n : Z) :
  (0 <= x)%Q -> (x <= inject_Z n)%Q -> (0 <= Np.round x <= n)%Z.
Proof.
  intros H0 Hn.
  assert (F0 : (0 <= Qfloor x)%Z).
  { change 0%Z with (Qfloor 0). now apply Qfloor_resp_le. }
  assert (Fn : (Qfloor x <= n)%Z).
  { rewrite <- (Qfloor_Z n). now apply Qfloor_resp_le. }
  assert (Fl := Qfloor_le x).
  assert (Up : ((1 # 2) <= x - inject_Z (Qfloor x))%Q -> (Qfloor x + 1 <= n)%Z).
  { intros Hh.
    assert (Hlt : (inject_Z (Qfloor x) < inject_Z n)%Q) by lra.
    rewrite <- Zlt_Qlt in Hlt. lia. }
  unfold Np.round.
  destruct (Qcompare_spec (x - inject_Z (Qfloor x)) (1 # 2)) as [E|E|E].
  - destruct (Z.even (Qfloor x)); [lia|].
    assert (Qfloor x + 1 <= n)%Z by (apply Up; rewrite E; apply Qle_refl). lia.
  - lia.
  - assert (Qfloor x + 1 <= n)%Z by (apply Up; now apply Qlt_le_weak). lia.
Qed.

(** ** Rounding to binary64 *)

Lemma round_integer (x : Q) (n : Z) : (x == inject_Z n)%Q -> Np.round x = n.
Proof.
  intros E.
  assert (F : Qfloor x = n) by (rewrite E; apply Qfloor_Z).
  assert (C : ((x - inject_Z n) ?= (1 # 2))%Q = Lt).
  { assert (H : (x - inject_Z n == 0)%Q) by (rewrite E; ring).
    rewrite H. reflexivity. }
  unfold Np.round. cbv zeta. rewrite F, C. reflexivity.
Qed.

Lemma round_between (x : Q) :
  (Np.round x = Qfloor x /\ (x - inject_Z (Qfloor x) <= 1 # 2)%Q)
  \/ (Np.round x = (Qfloor x + 1)%Z /\ ((1 # 2) <= x - inject_Z (Qfloor x))%Q).
Proof.
  unfold Np.round. cbv zeta.
  destruct (Qcompare_spec (x - inject_Z (Qfloor x)) (1 # 2)) as [E|E|E].
  - destruct (Z.even (Qfloor x)); [left|right]; split; auto; rewrite E;
      apply Qle_refl.
  - left. split; [reflexivity|now apply Qlt_le_weak].
  - right. split; [reflexivity|now apply Qlt_le_weak].
Qed.

Lemma round_proper (x y : Q) : (x == y)%Q -> Np.round x = Np.round y.
Proof.
  intros E. unfold Np.round. cbv zeta.
  assert (F : Qfloor x = Qfloor y) by now rewrite E.
  rewrite F.
  assert (C : ((x - inject_Z (Qfloor y)) ?= (1 # 2))%Q
              = ((y - inject_Z (Qfloor y)) ?= (1 # 2))%Q) by now rewrite E.
  now rewrite C.
Qed.

Lemma round_mono (x y : Q) : (x <= y)%Q -> (Np.round x <= Np.round y)%Z.
Proof.
  intros H.
  assert (F : (Qfloor x <= Qfloor y)%Z) by now apply Qfloor_resp_le.
  destruct (Z.eq_dec (Qfloor x) (Qfloor y)) as [E|N].
  - unfold Np.round. cbv zeta. rewrite E.
    destruct (Qcompare_spec (x - inject_Z (Qfloor y)) (1 # 2)) as [C|C|C];
      destruct (Qcompare_spec (y - inject_Z (Qfloor y)) (1 # 2)) as [D|D|D];
      try destruct (Z.even (Qfloor y)); try lia; exfalso; lra.
  - destruct (@round_between x) as [[-> _]|[-> _]];
      destruct (@round_between y) as [[-> _]|[-> _]]; lia.
Qed.

Lemma pow2_pos (e : Z) : (0 < 2 ^ e)%Q.
Proof. apply Qpower_0_lt. reflexivity. Qed.

Lemma pow2_nonzero (e : Z) : ~ (2 ^ e == 0)%Q.
Proof. intros E. pose proof (pow2_pos e) as H. rewrite E in H. now apply Qlt_irrefl in H. Qed.

Lemma pow2_succ (e : Z) : (2 ^ (e + 1) == 2 * 2 ^ e)%Q.
Proof. rewrite Qpower_plus by discriminate. rewrite Qpower_1_r. ring. Qed.

Lemma pow2_le (a b : Z) : (a <= b)%Z -> (2 ^ a <= 2 ^ b)%Q.
Proof. intros H. apply Qpower_le_compat_l; [exact H|discriminate]. Qed.

Lemma pow2_lt_inv (a b : Z) : (2 ^ a < 2 ^ b)%Q -> (a < b)%Z.
Proof. intros H. apply (Qpower_lt_compat_l_inv 2); [exact H|reflexivity]. Qed.

Lemma pow2_Z (n : Z) : (0 <= n)%Z -> (inject_Z (2 ^ n) == 2 ^ n)%Q.
Proof. intros H. now rewrite Zpower_Qpower. Qed.

Lemma log2_bounds (p : Z) :
  (0 < p)%Z ->
  (2 ^ Z.log2 p <= inject_Z p)%Q /\ (inject_Z p < 2 ^ (Z.log2 p + 1))%Q.
Proof.
  intros H. destruct (Z.log2_spec p H) as [L U].
  pose proof (Z.log2_nonneg p) as N.
  split.
  - rewrite <- pow2_Z by exact N. now rewrite <- Zle_Qle.
  - rewrite <- pow2_Z by lia. rewrite <- Zlt_Qlt.
    replace (Z.log2 p + 1)%Z with (Z.succ (Z.log2 p)) by lia. exact U.
Qed.

Lemma binade_spec (x : Q) :
  (0 < x)%Q ->
  (2 ^ Np.binade x <= x)%Q /\ (x < 2 ^ (Np.binade x + 1))%Q.
Proof.
  intros Hx. unfold Np.binade. cbv zeta.
  destruct x as [p q].
  assert (Hp : (0 < p)%Z) by (unfold Qlt in Hx; simpl in Hx; lia).
  cbn [Qnum Qden].
  set (lp := Z.log2 p). set (lq := Z.log2 (Z.pos q)).
  destruct (@log2_bounds p Hp) as [Lp Up]. fold lp in Lp, Up.
  destruct (@log2_bounds (Z.pos q) eq_refl) as [Lq Uq]. fold lq in Lq, Uq.
  assert (Ex : (p # q == inject_Z p / inject_Z (Z.pos q))%Q)
    by apply Qmake_Qdiv.
  assert (Hq : (0 < inject_Z (Z.pos q))%Q) by reflexivity.
  assert (Low : (2 ^ (lp - lq - 1) < p # q)%Q).
  { rewrite Ex. apply Qlt_shift_div_l; [exact Hq|].
    replace (lp - lq - 1)%Z with (lp - (lq + 1))%Z by lia.
    rewrite Qpower_minus by discriminate.
    pose proof (pow2_pos (lq + 1)) as P1. pose proof (pow2_pos lp) as P2.
    apply Qlt_le_trans with (2 ^ lp / 2 ^ (lq + 1) * 2 ^ (lq + 1))%Q.
    - apply Qmult_lt_l; [|exact Uq].
      apply Qlt_shift_div_l; [exact P1|]. now rewrite Qmult_0_l.
    - assert (E : (2 ^ lp / 2 ^ (lq + 1) * 2 ^ (lq + 1) == 2 ^ lp)%Q)
        by (field; apply pow2_nonzero).
      now rewrite E. }
  assert (High : (p # q < 2 ^ (lp - lq + 1))%Q).
  { rewrite Ex. apply Qlt_shift_div_r; [exact Hq|].
    replace (lp - lq + 1)%Z with (lp + 1 - lq)%Z by lia.
    rewrite Qpower_minus by discriminate.
    pose proof (pow2_pos lq) as P1. pose proof (pow2_pos (lp + 1)) as P2.
    apply Qlt_le_trans with (2 ^ (lp + 1))%Q; [exact Up|].
    assert (E : (2 ^ (lp + 1) == 2 ^ (lp + 1) / 2 ^ lq * 2 ^ lq)%Q)
      by (field; apply pow2_nonzero).
    rewrite E at 1. apply Qmult_le_l; [|exact Lq].
    apply Qlt_shift_div_l; [exact P1|]. now rewrite Qmult_0_l. }
  destruct (Qle_bool (2 ^ (lp - lq)) (p # q)) eqn:C.
  - apply Qle_bool_iff in C. split; [exact C|exact High].
  - split.
    + now apply Qlt_le_weak.
    + replace (lp - lq - 1 + 1)%Z with (lp - lq)%Z by lia.
      apply Qnot_le_lt. intros H. apply Qle_bool_iff in H. congruence.
Qed.

Lemma binade_unique (x : Q) (e : Z) :
  (2 ^ e <= x)%Q -> (x < 2 ^ (e + 1))%Q -> Np.binade x = e.
Proof.
  intros L U.
  assert (Hx : (0 < x)%Q) by (eapply Qlt_le_trans; [apply pow2_pos|exact L]).
  destruct (@binade_spec x Hx) as [L' U'].
  assert (A : (e < Np.binade x + 1)%Z)
    by (apply pow2_lt_inv; eapply Qle_lt_trans; eassumption).
  assert (B : (Np.binade x < e + 1)%Z)
    by (apply pow2_lt_inv; eapply Qle_lt_trans; eassumption).
  lia.
Qed.

Lemma binade_proper (x y : Q) : (0 < x)%Q -> (x == y)%Q -> Np.binade x = Np.binade y.
Proof.
  intros Hx E. destruct (@binade_spec x Hx) as [L U].
  symmetry. apply binade_unique; now rewrite <- E.
Qed.

Lemma nearest_proper (x y : Q) :
  (0 < x)%Q -> (x == y)%Q -> (Np.nearest x == Np.nearest y)%Q.
Proof.
  intros Hx E. unfold Np.nearest. cbv zeta.
  rewrite <- (@binade_proper x y Hx E).
  assert (D : (y / 2 ^ (Np.binade x - 52) == x / 2 ^ (Np.binade x - 52))%Q).
  { apply Qmult_comp; [now symmetry|reflexivity]. }
  rewrite (@round_proper _ _ D).
  apply Qmult_comp; [reflexivity|reflexivity].
Qed.

Lemma double_proper (x y : Q) : (x == y)%Q -> Np.double x = Np.double y.
Proof. intros E. unfold Np.double. now rewrite (Qred_complete x y E). Qed.

Lemma double_nearest (x : Q) : (0 < x)%Q -> (Np.double x == Np.nearest x)%Q.
Proof.
  intros Hx. unfold Np.double. cbv zeta.
  assert (Hr : (0 < Qred x)%Q) by now rewrite Qred_correct.
  destruct (Qred x) as [p q] eqn:E. cbn [Qnum].
  destruct p as [|p|p]; try (unfold Qlt in Hr; simpl in Hr; lia).
  etransitivity; [apply Qred_correct|].
  apply nearest_proper; [exact Hr|]. rewrite <- E. apply Qred_correct.
Qed.

Lemma double_zero (x : Q) : (x == 0)%Q -> Np.double x = 0%Q.
Proof. intros E. rewrite (@double_proper x 0 E). reflexivity. Qed.

(** The significand of the nearest float lies between 2^52 and 2^53. *)
Lemma significand_range (x : Q) :
  (0 < x)%Q ->
  let k := Np.round (x / 2 ^ (Np.binade x - 52)) in
  (2 ^ 52 <= k <= 2 ^ 53)%Z.
Proof.
  intros Hx k. destruct (@binade_spec x Hx) as [L U].
  set (b := Np.binade x) in *. pose proof (pow2_pos (b - 52)) as P.
  assert (Lo : (inject_Z (2 ^ 52) <= x / 2 ^ (b - 52))%Q).
  { apply Qle_shift_div_l; [exact P|].
    rewrite pow2_Z by lia. rewrite <- Qpower_plus by discriminate.
    now replace (52 + (b - 52))%Z with b by lia. }
  assert (Hi : (x / 2 ^ (b - 52) <= inject_Z (2 ^ 53))%Q).
  { apply Qle_shift_div_r; [exact P|].
    rewrite pow2_Z by lia. rewrite <- Qpower_plus by discriminate.
    replace (53 + (b - 52))%Z with (b + 1)%Z by lia. now apply Qlt_le_weak. }
  apply round_mono in Lo. apply round_mono in Hi.
  rewrite (@round_integer _ (2 ^ 52) (Qeq_refl _)) in Lo.
  rewrite (@round_integer _ (2 ^ 53) (Qeq_refl _)) in Hi.
  fold k in Lo, Hi. lia.
Qed.

Lemma nearest_range (x : Q) :
  (0 < x)%Q ->
  (2 ^ Np.binade x <= Np.nearest x)%Q /\ (Np.nearest x <= 2 ^ (Np.binade x + 1))%Q.
Proof.
  intros Hx. pose proof (@significand_range x Hx) as K. cbv zeta in K.
  unfold Np.nearest. cbv zeta.
  set (b := Np.binade x) in *. set (k := Np.round _) in *.
  pose proof (pow2_pos (b - 52)) as P.
  assert (E1 : (2 ^ b == inject_Z (2 ^ 52) * 2 ^ (b - 52))%Q).
  { rewrite pow2_Z by lia. rewrite <- Qpower_plus by discriminate.
    now replace (52 + (b - 52))%Z with b by lia. }
  assert (E2 : (2 ^ (b + 1) == inject_Z (2 ^ 53) * 2 ^ (b - 52))%Q).
  { rewrite pow2_Z by lia. rewrite <- Qpower_plus by discriminate.
    now replace (53 + (b - 52))%Z with (b + 1)%Z by lia. }
  rewrite E1, E2. split; apply Qmult_le_compat_r;
    try (now apply Qlt_le_weak); rewrite <- Zle_Qle; lia.
Qed.

Lemma nearest_mono (x y : Q) :
  (0 < x)%Q -> (x <= y)%Q -> (Np.nearest x <= Np.nearest y)%Q.
Proof.
  intros Hx Hxy.
  assert (Hy : (0 < y)%Q) by (eapply Qlt_le_trans; eassumption).
  destruct (@binade_spec x Hx) as [Lx Ux]. destruct (@binade_spec y Hy) as [Ly Uy].
  assert (B : (Np.binade x < Np.binade y + 1)%Z).
  { apply pow2_lt_inv. eapply Qle_lt_trans; [exact Lx|].
    eapply Qle_lt_trans; eassumption. }
  destruct (Z.eq_dec (Np.binade x) (Np.binade y)) as [E|N].
  - unfold Np.nearest. cbv zeta. rewrite E.
    pose proof (pow2_pos (Np.binade y - 52)) as P.
    apply Qmult_le_compat_r; [|now apply Qlt_le_weak].
    rewrite <- Zle_Qle. apply round_mono.
    unfold Qdiv. apply Qmult_le_compat_r; [exact Hxy|].
    apply Qlt_le_weak. now apply Qinv_lt_0_compat.
  - destruct (@nearest_range x Hx) as [_ Hi]. destruct (@nearest_range y Hy) as [Lo _].
    eapply Qle_trans; [exact Hi|]. eapply Qle_trans; [|exact Lo].
    apply pow2_le. lia.
Qed.

Lemma double_nonneg (x : Q) : (0 <= x)%Q -> (0 <= Np.double x)%Q.
Proof.
  intros H. apply Qle_lteq in H. destruct H as [H|H].
  - rewrite (@double_nearest x H). destruct (@nearest_range x H) as [L _].
    eapply Qle_trans; [|exact L]. apply Qlt_le_weak, pow2_pos.
  - rewrite (@double_zero x) by now symmetry. apply Qle_refl.
Qed.

Lemma double_mono (x y : Q) :
  (0 <= x)%Q -> (x <= y)%Q -> (Np.double x <= Np.double y)%Q.
Proof.
  intros Hx Hxy. apply Qle_lteq in Hx. destruct Hx as [Hx|Hx].
  - assert (Hy : (0 < y)%Q) by (eapply Qlt_le_trans; eassumption).
    rewrite (@double_nearest x Hx), (@double_nearest y Hy).
    now apply nearest_mono.
  - rewrite (@double_zero x) by now symmetry. apply double_nonneg.
    now rewrite Hx.
Qed.

(** A positive number with a significand of at most 53 bits is a float. *)
Lemma nearest_exact (x : Q) (k e : Z) :
  (0 < x)%Q -> (x == inject_Z k * 2 ^ e)%Q -> (k <= 2 ^ 53)%Z ->
  (Np.nearest x == x)%Q.
Proof.
  intros Hx E Hk. destruct (@binade_spec x Hx) as [L U].
  unfold Np.nearest. cbv zeta. set (b := Np.binade x) in *.
  pose proof (pow2_pos (b - 52)) as P. pose proof (pow2_pos e) as Pe.
  assert (Hk0 : (0 < k)%Z).
  { destruct (Z.lt_ge_cases 0 k) as [?|Hle]; [assumption|exfalso].
    assert (inject_Z k <= 0)%Q by (change 0%Q with (inject_Z 0); rewrite <- Zle_Qle; lia).
    assert (inject_Z k * 2 ^ e <= 0)%Q by nra. rewrite <- E in H0. lra. }
  (* the unit in the last place divides x *)
  assert (D : (b - 52 <= e)%Z \/ (e = b - 53 /\ k = 2 ^ 53)%Z).
  { destruct (Z.le_gt_cases (b - 52) e) as [?|Hlt]; [now left|right].
    assert (Hb : (2 ^ b <= inject_Z (2 ^ 53) * 2 ^ e)%Q).
    { eapply Qle_trans; [exact L|]. rewrite E.
      apply Qmult_le_compat_r; [|now apply Qlt_le_weak].
      rewrite <- Zle_Qle. exact Hk. }
    rewrite pow2_Z in Hb by lia. rewrite <- Qpower_plus in Hb by discriminate.
    apply (Qpower_le_compat_l_inv 2) in Hb; [|reflexivity].
    assert (He : e = (b - 53)%Z) by lia. split; [exact He|].
    destruct (Z.eq_dec k (2 ^ 53)) as [?|Hne]; [assumption|exfalso].
    assert (Hk' : (k <= 2 ^ 53 - 1)%Z) by lia.
    assert (Hx' : (x < 2 ^ b)%Q).
    { rewrite E. apply Qle_lt_trans with (inject_Z (2 ^ 53 - 1) * 2 ^ e)%Q.
      - apply Qmult_le_compat_r; [|now apply Qlt_le_weak].
        rewrite <- Zle_Qle. exact Hk'.
      - replace b with (53 + e)%Z by lia. rewrite Qpower_plus by discriminate.
        rewrite <- (@pow2_Z 53) by lia. apply Qmult_lt_r; [exact Pe|].
        rewrite <- Zlt_Qlt. lia. }
    lra. }
  destruct D as [D|[He Hk53]].
  - pose proof (pow2_nonzero (b - 52)) as NZ.
    assert (Hint : (x / 2 ^ (b - 52) == inject_Z (k * 2 ^ (e - (b - 52))))%Q).
    { rewrite E, inject_Z_mult, pow2_Z by lia.
      rewrite (Qpower_minus 2 e (b - 52)) by discriminate.
      revert NZ. generalize (2 ^ (b - 52))%Q (2 ^ e)%Q. intros B A NZ.
      field. exact NZ. }
    rewrite (@round_integer _ _ Hint), inject_Z_mult, pow2_Z by lia.
    rewrite E, (Qpower_minus 2 e (b - 52)) by discriminate.
    revert NZ. generalize (2 ^ (b - 52))%Q (2 ^ e)%Q. intros B A NZ.
    field. exact NZ.
  - pose proof (pow2_nonzero (b - 53)) as NZ.
    assert (U2 : (2 ^ (b - 52) == 2 * 2 ^ (b - 53))%Q).
    { replace (b - 52)%Z with (b - 53 + 1)%Z by lia. apply pow2_succ. }
    assert (Hint : (x / 2 ^ (b - 52) == inject_Z (2 ^ 52))%Q).
    { rewrite E, Hk53, He, U2.
      revert NZ. generalize (2 ^ (b - 53))%Q. intros B NZ.
      change (inject_Z (2 ^ 53)) with (2 * inject_Z (2 ^ 52))%Q.
      field. exact NZ. }
    rewrite (@round_integer _ _ Hint).
    rewrite E, Hk53, He, U2.
    change (inject_Z (2 ^ 53)) with (2 * inject_Z (2 ^ 52))%Q.
    generalize (2 ^ (b - 53))%Q. intros B. ring.
Qed.

Lemma double_exact (x : Q) (k e : Z) :
  (0 <= x)%Q -> (x == inject_Z k * 2 ^ e)%Q -> (k <= 2 ^ 53)%Z ->
  (Np.double x == x)%Q.
Proof.
  intros Hx E Hk. apply Qle_lteq in Hx. destruct Hx as [Hx|Hx].
  - rewrite (@double_nearest x Hx). now apply nearest_exact with k e.
  - rewrite (@double_zero x) by now symmetry. exact Hx.
Qed.

(** Integers up to 2^53 are floats. *)
Lemma float_small_int (n : Z) :
  (0 <= n <= 2 ^ 53)%Z -> (Np.float n == inject_Z n)%Q.
Proof.
  intros H. unfold Np.float. apply double_exact with n 0%Z.
  - change 0%Q with (inject_Z 0). rewrite <- Zle_Qle. lia.
  - rewrite Qpower_0_r. ring.
  - lia.
Qed.

Lemma double_idempotent (x : Q) :
  (0 <= x)%Q -> (Np.double (Np.double x) == Np.double x)%Q.
Proof.
  intros Hx. apply Qle_lteq in Hx. destruct Hx as [Hx|Hx].
  - pose proof (@significand_range x Hx) as K. cbv zeta in K.
    apply double_exact with (Np.round (x / 2 ^ (Np.binade x - 52)))
                            (Np.binade x - 52)%Z.
    + apply double_nonneg. now apply Qlt_le_weak.
    + rewrite (@double_nearest x Hx). reflexivity.
    + lia.
  - rewrite (@double_zero x) by now symmetry. reflexivity.
Qed.

(** The float nearest to a natural number is an integer. *)
Lemma float_of_nat_integer (n : nat) :
  exists z, (Np.float (Z.of_nat n) == inject_Z z)%Q.
Proof.
  unfold Np.float.
  destruct (Z.le_gt_cases (Z.of_nat n) (2 ^ 53)) as [H|H].
  - exists (Z.of_nat n). apply float_small_int. lia.
  - set (x := inject_Z (Z.of_nat n)).
    assert (Hx : (0 < x)%Q).
    { unfold x. change 0%Q with (inject_Z 0). rewrite <- Zlt_Qlt. lia. }
    destruct (@binade_spec x Hx) as [L U].
    assert (Hb : (53 <= Np.binade x)%Z).
    { assert (A : (2 ^ 53 < 2 ^ (Np.binade x + 1))%Q).
      { eapply Qle_lt_trans; [|exact U]. unfold x.
        rewrite <- (@pow2_Z 53) by lia. rewrite <- Zle_Qle. lia. }
      apply pow2_lt_inv in A. lia. }
    exists (Np.round (x / 2 ^ (Np.binade x - 52)) * 2 ^ (Np.binade x - 52))%Z.
    rewrite (@double_nearest x Hx). unfold Np.nearest. cbv zeta.
    rewrite inject_Z_mult, pow2_Z by lia. reflexivity.
Qed.

Lemma float_nonneg (n : nat) : (0 <= Np.float (Z.of_nat n))%Q.
Proof.
  apply double_nonneg. change 0%Q with (inject_Z 0). rewrite <- Zle_Qle. lia.
Qed.

Lemma float_mono (m n : nat) :
  (m <= n)%nat -> (Np.float (Z.of_nat m) <= Np.float (Z.of_nat n))%Q.
Proof.
  intros H. apply double_mono.
  - change 0%Q with (inject_Z 0). rewrite <- Zle_Qle. lia.
  - rewrite <- Zle_Qle. lia.
Qed.

(** ** The weighted sampler *)

Section Sampler.

Context {R : Type} {RS : RandomState R} {NS : NumpySort}.

Lemma bsm_row_length (n : nat) (a : Z) : List.length (bsm_row n a) = n.
Proof. unfold bsm_row. now rewrite length_map, length_seq. Qed.

(** Up to 2^53 columns the column numbers are floats, and the row holds
    the first [a] of them. *)
Lemma bsm_row_count (n : nat) (a : Z) :
  (0 <= a)%Z -> (Z.of_nat n <= 2 ^ 53)%Z ->
  Np.count_true (bsm_row n a) = Z.to_nat (Z.min a (Z.of_nat n)).
Proof.
  intros Ha. unfold bsm_row. induction n as [|n IH]; intros Hn.
  - simpl. now rewrite Z.min_r by lia.
  - rewrite seq_S, map_app, count_true_app, IH by lia.
    cbn [Nat.add map].
    assert (E : Qle_bool (Np.float (Z.of_nat (S n))) (inject_Z a)
                = (Z.of_nat (S n) <=? a)%Z).
    { apply eq_true_iff_eq.
      rewrite Qle_bool_iff, float_small_int, <- Zle_Qle, Z.leb_le by lia.
      reflexivity. }
    rewrite E.
    destruct (Z.leb_spec (Z.of_nat (S n)) a);
      [change (Np.count_true [true]) with 1%nat
      |change (Np.count_true [false]) with 0%nat]; lia.
Qed.

Lemma permute_rows_nth (bsm : list (list bool)) (p : list (list nat)) (i : nat)
      (row : list bool) (rp : list nat) :
  nth_error bsm i = Some row -> nth_error p i = Some rp ->
  nth_error (permute_rows bsm p) i = Some (Np.take false row rp).
Proof.
  revert p i. induction bsm as [|r bsm IH]; intros [|q p] [|i]; simpl;
    try discriminate.
  - now intros [= ->] [= ->].
  - intros Hr Hq. now apply IH.
Qed.

Lemma permute_rows_length (bsm : list (list bool)) (p : list (list nat)) :
  List.length (permute_rows bsm p)
  = Nat.min (List.length bsm) (List.length p).
Proof. unfold permute_rows. now rewrite length_map, length_combine. Qed.

Lemma row_permutations_length (n_feats n_submodels : nat) (p : list nat) :
  List.length (row_permutations n_feats n_submodels p) = n_feats.
Proof. unfold row_permutations. now rewrite length_map, reshape_length. Qed.

Lemma row_permutations_perm (n_feats n_submodels : nat) (p rp : list nat) :
  List.length p = (n_submodels * n_feats)%nat ->
  In rp (row_permutations n_feats n_submodels p) ->
  Permutation rp (seq 0 n_submodels).
Proof.
  intros Hp Hin. unfold row_permutations in Hin.
  apply in_map_iff in Hin. destruct Hin as (chunk & <- & Hin).
  pose proof (@reshape_row_length _ n_feats n_submodels p chunk Hp Hin) as L.
  rewrite <- L. apply argsort_perm.
Qed.

Lemma produce_submodels_length (var_weights : list Q) (n_submodels : nat)
      (random_state : R) :
  List.length (snd (_produce_submodels var_weights n_submodels random_state))
  = List.length var_weights.
Proof.
  unfold _produce_submodels.
  destruct (shuffle random_state _) as [r p]. simpl.
  rewrite permute_rows_length, row_permutations_length.
  unfold initial_bsm, appearances. rewrite !length_map. apply Nat.min_id.
Qed.

(** C1. For weights in [0,1], row [i] of the matrix [_produce_submodels]
    returns holds exactly the code's own target count
    [np.round(var_weights[i] * n_submodels)] of true entries, the product
    being the float64 product the code forms: the row built from the
    appearances has that many, and the returned row is a rearrangement of
    it, so the permutation step keeps the count.  The submodel count is one
    a float64 holds exactly (at most 2^53, far beyond any matrix that fits
    in memory); the bound [n_submodels >= 1] is not needed. *)
Theorem produce_submodels_exact_counts
        (var_weights : list Q) (n_submodels : nat) (random_state : R)
        (i : nat) (w : Q) :
  (Z.of_nat n_submodels <= 2 ^ 53)%Z ->
  (forall v, In v var_weights -> (0 <= v)%Q /\ (v <= 1)%Q) ->
  nth_error var_weights i = Some w ->
  exists before after : list bool,
    nth_error (initial_bsm var_weights n_submodels) i = Some before
    /\ nth_error (snd (_produce_submodels var_weights n_submodels random_state)) i
       = Some after
    /\ Permutation before after
    /\ Np.count_true after = Np.count_true before
    /\ List.length after = n_submodels
    /\ Z.of_nat (Np.count_true after)
       = Np.round (Np.double (w * Np.float (Z.of_nat n_submodels))).
Proof.
  intros Hn Hw Hi.
  set (a := Np.round (Np.double (w * Np.float (Z.of_nat n_submodels)))).
  assert (Hbefore : nth_error (initial_bsm var_weights n_submodels) i
                    = Some (bsm_row n_submodels a)).
  { unfold initial_bsm, appearances. rewrite !nth_error_map, Hi. reflexivity. }
  assert (Ha : (0 <= a <= Z.of_nat n_submodels)%Z).
  { destruct (Hw w (nth_error_In _ _ Hi)) as [W0 W1].
    assert (F : (Np.float (Z.of_nat n_submodels)
                 == inject_Z (Z.of_nat n_submodels))%Q)
      by (apply float_small_int; lia).
    assert (N0 : (0 <= inject_Z (Z.of_nat n_submodels))%Q).
    { change 0%Q with (inject_Z 0). rewrite <- Zle_Qle. lia. }
    assert (P0 : (0 <= w * Np.float (Z.of_nat n_submodels))%Q)
      by (rewrite F; nra).
    apply round_range.
    - now apply double_nonneg.
    - apply (Qle_trans _ (Np.double (inject_Z (Z.of_nat n_submodels)))).
      + apply double_mono; [exact P0|]. rewrite F. nra.
      + apply Qle_lteq. right. exact F. }
  unfold _produce_submodels.
  pose proof (shuffle_perm random_state
                (seq 0 (n_submodels * List.length var_weights))) as Hperm.
  destruct (shuffle random_state _) as [r p]. simpl in Hperm |- *.
  assert (Hlen : List.length p = (n_submodels * List.length var_weights)%nat).
  { rewrite <- (Permutation_length Hperm). apply length_seq. }
  assert (Hlt : (i < List.length (row_permutations (List.length var_weights)
                                                   n_submodels p))%nat).
  { rewrite row_permutations_length. apply nth_error_Some. congruence. }
  destruct (nth_error (row_permutations (List.length var_weights) n_submodels p) i)
    as [rp|] eqn:Hrp; [|apply nth_error_None in Hrp; lia].
  assert (Prp : Permutation rp (seq 0 n_submodels)).
  { eapply row_permutations_perm; [exact Hlen|]. eapply nth_error_In, Hrp. }
  assert (Pba : Permutation (bsm_row n_submodels a)
                            (Np.take false (bsm_row n_submodels a) rp)).
  { apply take_perm. now rewrite bsm_row_length. }
  exists (bsm_row n_submodels a), (Np.take false (bsm_row n_submodels a) rp).
  split; [exact Hbefore|].
  split; [now apply permute_rows_nth|].
  split; [exact Pba|].
  split; [symmetry; now apply count_true_perm|].
  split.
  - rewrite <- (Permutation_length Pba). apply bsm_row_length.
  - rewrite <- (count_true_perm Pba), bsm_row_count by lia.
    rewrite Z.min_l by lia. lia.
Qed.

End Sampler.

(** ** The concrete sorts and the scripted generator meet their interfaces *)

Module ConcreteFacts.
Import Concrete.

Section Insertion.

Variable A : Type.
Variable leb : A -> A -> bool.
Variable d : A.
Variable l : list A.

Let key_le (i j : nat) : Prop := leb (nth i l d) (nth j l d) = true.

Lemma insert_index_perm (i : nat) (acc : list nat) :
  Permutation (insert_index leb d l i acc) (i :: acc).
Proof.
  induction acc as [|j t IH]; simpl; [reflexivity|].
  destruct (leb _ _); [reflexivity|].
  rewrite IH. apply perm_swap.
Qed.

Lemma insert_index_late_perm (i : nat) (acc : list nat) :
  Permutation (insert_index_late leb d l i acc) (i :: acc).
Proof.
  induction acc as [|j t IH]; simpl; [reflexivity|].
  destruct (leb _ _); [|reflexivity].
  rewrite IH. apply perm_swap.
Qed.

Hypothesis leb_total : forall x y, leb x y = true \/ leb y x = true.
Hypothesis leb_trans :
  forall x y z, leb x y = true -> leb y z = true -> leb x z = true.

Lemma key_le_below (i j : nat) (t : list nat) :
  key_le i j -> Forall (key_le j) t -> Forall (key_le i) (j :: t).
Proof.
  intros Hij Ht. constructor; [exact Hij|].
  eapply Forall_impl; [|exact Ht]. intros k Hjk. eapply leb_trans; eassumption.
Qed.

Lemma insert_index_sorted (i : nat) (acc : list nat) :
  StronglySorted key_le acc -> StronglySorted key_le (insert_index leb d l i acc).
Proof.
  induction 1 as [|j t St IH Hj]; simpl.
  - repeat constructor.
  - destruct (leb (nth i l d) (nth j l d)) eqn:E.
    + constructor; [now constructor|]. now apply key_le_below.
    + constructor; [exact IH|].
      eapply Permutation_Forall; [symmetry; apply insert_index_perm|].
      constructor; [|exact Hj].
      destruct (leb_total (nth i l d) (nth j l d)); [congruence|assumption].
Qed.

Lemma insert_index_late_sorted (i : nat) (acc : list nat) :
  StronglySorted key_le acc ->
  StronglySorted key_le (insert_index_late leb d l i acc).
Proof.
  induction 1 as [|j t St IH Hj]; simpl.
  - repeat constructor.
  - destruct (leb (nth j l d) (nth i l d)) eqn:E.
    + constructor; [exact IH|].
      eapply Permutation_Forall; [symmetry; apply insert_index_late_perm|].
      now constructor.
    + constructor; [now constructor|]. apply key_le_below; [|exact Hj].
      destruct (leb_total (nth i l d) (nth j l d)); [assumption|congruence].
Qed.

End Insertion.

Lemma stable_argsort_perm A (leb : A -> A -> bool) (d : A) (l : list A) :
  Permutation (stable_argsort leb d l) (seq 0 (List.length l)).
Proof.
  unfold stable_argsort. induction (seq 0 (List.length l)) as [|i t IH]; simpl.
  - reflexivity.
  - rewrite insert_index_perm. now constructor.
Qed.

Lemma unstable_argsort_perm A (leb : A -> A -> bool) (d : A) (l : list A) :
  Permutation (unstable_argsort leb d l) (seq 0 (List.length l)).
Proof.
  unfold unstable_argsort. induction (seq 0 (List.length l)) as [|i t IH]; simpl.
  - reflexivity.
  - rewrite insert_index_late_perm. now constructor.
Qed.

Lemma stable_argsort_sorted A (leb : A -> A -> bool) (d : A) (l : list A) :
  (forall x y, leb x y = true \/ leb y x = true) ->
  (forall x y z, leb x y = true -> leb y z = true -> leb x z = true) ->
  StronglySorted (fun i j => leb (nth i l d) (nth j l d) = true)
                 (stable_argsort leb d l).
Proof.
  intros T Tr. unfold stable_argsort.
  induction (seq 0 (List.length l)) as [|i t IH]; simpl.
  - constructor.
  - now apply insert_index_sorted.
Qed.

Lemma unstable_argsort_sorted A (leb : A -> A -> bool) (d : A) (l : list A) :
  (forall x y, leb x y = true \/ leb y x = true) ->
  (forall x y z, leb x y = true -> leb y z = true -> leb x z = true) ->
  StronglySorted (fun i j => leb (nth i l d) (nth j l d) = true)
                 (unstable_argsort leb d l).
Proof.
  intros T Tr. unfold unstable_argsort.
  induction (seq 0 (List.length l)) as [|i t IH]; simpl.
  - constructor.
  - now apply insert_index_late_sorted.
Qed.

Lemma quicksort_like_argsort_perm A (leb : A -> A -> bool) (d : A) (l : list A) :
  Permutation (quicksort_like_argsort leb d l) (seq 0 (List.length l)).
Proof.
  unfold quicksort_like_argsort. destruct (_ <=? _)%nat;
    [apply stable_argsort_perm|apply unstable_argsort_perm].
Qed.

Lemma quicksort_like_argsort_sorted A (leb : A -> A -> bool) (d : A)
      (l : list A) :
  (forall x y, leb x y = true \/ leb y x = true) ->
  (forall x y z, leb x y = true -> leb y z = true -> leb x z = true) ->
  StronglySorted (fun i j => leb (nth i l d) (nth j l d) = true)
                 (quicksort_like_argsort leb d l).
Proof.
  intros T Tr. unfold quicksort_like_argsort. destruct (_ <=? _)%nat;
    [now apply stable_argsort_sorted|now apply unstable_argsort_sorted].
Qed.

Lemma perm_check_sound (p l : list nat) :
  perm_check p l = true -> Permutation l p.
Proof.
  unfold perm_check. intros H. apply andb_true_iff in H. destruct H as [_ H].
  rewrite forallb_forall in H.
  apply (Permutation_count_occ Nat.eq_dec). intros x.
  destruct (in_dec Nat.eq_dec x (p ++ l)) as [Hin|Hout].
  - symmetry. now apply Nat.eqb_eq, H.
  - rewrite in_app_iff in Hout.
    rewrite (proj1 (count_occ_not_In Nat.eq_dec l x)) by tauto.
    now rewrite (proj1 (count_occ_not_In Nat.eq_dec p x)) by tauto.
Qed.

Lemma scripted_shuffle_perm (s : list (list nat)) (l : list nat) :
  Permutation l (snd (scripted_shuffle s l)).
Proof.
  destruct s as [|p s]; simpl; [reflexivity|].
  destruct (perm_check p l) eqn:E; [now apply perm_check_sound|reflexivity].
Qed.

End ConcreteFacts.

(** numpy's argsort as the stable insertion sort. *)
Definition stable_numpy : NumpySort :=
  {| argsort := Concrete.stable_argsort;
     argsort_perm := ConcreteFacts.stable_argsort_perm;
     argsort_sorted := ConcreteFacts.stable_argsort_sorted |}.

(** numpy's argsort as a sort that is stable on short arrays only. *)
Definition quicksort_like_numpy : NumpySort :=
  {| argsort := Concrete.quicksort_like_argsort;
     argsort_perm := ConcreteFacts.quicksort_like_argsort_perm;
     argsort_sorted := ConcreteFacts.quicksort_like_argsort_sorted |}.

(** A generator whose seed selects a script of permutations. *)
Definition scripted (book : Z -> list (list nat)) : RandomState (list (list nat)) :=
  {| seed_state := book;
     shuffle := Concrete.scripted_shuffle;
     shuffle_perm := ConcreteFacts.scripted_shuffle_perm |}.

Lemma produce_submodels_exact_counts_witness :
  exists before after : list bool,
    nth_error (initial_bsm [1 # 2; Np.double (3 # 22); 1]%Q 451) 1 = Some before
    /\ nth_error (snd (@_produce_submodels _ (scripted Concrete.no_script)
                         stable_numpy [1 # 2; Np.double (3 # 22); 1]%Q 451 []))
                 1
       = Some after
    /\ Permutation before after
    /\ Np.count_true after = Np.count_true before
    /\ List.length after = 451%nat
    /\ Z.of_nat (Np.count_true after)
       = Np.round (Np.double (Np.double (3 # 22) * Np.float (Z.of_nat 451))).
Proof.
  apply (@produce_submodels_exact_counts _ (scripted Concrete.no_script)
           stable_numpy [1 # 2; Np.double (3 # 22); 1]%Q 451%nat [] 1%nat
           (Np.double (3 # 22))).
  - vm_compute. discriminate.
  - intros v [<-|[<-|[<-|[]]]]; split; vm_compute; discriminate.
  - reflexivity.
Defined.

(** The rounding is the float64 one.  The weight nearest 3/22 times 451
    submodels is a product just below 61.5, which rounds to 61, where the
    exact 3/22 * 451 = 61.5 would round to 62; and the weight nearest 0.35
    times 410 is a product just below 143.5 whose float64 is 143.5, which
    rounds to 144. *)
Example appearances_round_the_float_product :
  appearances [Np.double (3 # 22); Np.double (35 # 100)] 451 = [61%Z; 158%Z]
  /\ Np.round ((3 # 22) * inject_Z 451) = 62%Z
  /\ appearances [Np.double (35 # 100)] 410 = [144%Z]
  /\ Np.round (Np.double (35 # 100) * inject_Z 410) = 143%Z.
Proof. vm_compute. repeat split. Qed.

(** ** The weight-refinement loop *)

Lemma Qltb_lt (x y : Q) : Qltb x y = true <-> (x < y)%Q.
Proof.
  unfold Qltb. rewrite negb_true_iff, <- not_true_iff_false, Qle_bool_iff.
  split; [apply Qnot_le_lt | apply Qlt_not_le].
Qed.

Lemma Qltb_ge (x y : Q) : Qltb x y = false <-> (y <= x)%Q.
Proof.
  unfold Qltb. now rewrite negb_false_iff, Qle_bool_iff.
Qed.

Section Refinement.

Context {R : Type} {RS : RandomState R} {NS : NumpySort}.
Variable n_features : nat.
Variable cv_score : list nat -> result Q.
Variables (self_n_submodels n_submodels selection_quantile : nat).
Variable var_weights : list Q.

(** One unfolding of the loop, in the shape the proofs below destruct. *)
Ltac step_loop rs :=
  cbn [refinement_loop];
  destruct (_produce_submodels var_weights n_submodels rs) as [rs' bsm];
  destruct (bind _ _) as [[top_scores top_models]|e];
  [destruct (Qltb _ (Np.mean top_scores)) eqn:Cmp|];
  cbn [rounds outcome rng_after].

Lemma refinement_loop_climbs (iters : nat) (rs : R) (best : Q)
      (best_w : option (list Q)) :
  (List.length (rounds (refinement_loop n_features cv_score iters self_n_submodels var_weights
                           n_submodels rs selection_quantile best best_w)) <= iters)%nat
  /\ climbs best (rounds (refinement_loop n_features cv_score iters self_n_submodels var_weights
                           n_submodels rs selection_quantile best best_w)).
Proof.
  revert rs best best_w. induction iters as [|n IH]; intros rs best best_w.
  - simpl. split; [lia|exact I].
  - step_loop rs.
    + destruct (IH rs' (Np.mean top_scores)
                   (Some (top_frequencies bsm top_models selection_quantile)))
        as [L C].
      apply Qltb_lt in Cmp. cbn [List.length climbs]. split; [lia|now split].
    + apply Qltb_ge in Cmp. cbn [List.length climbs]. split; [lia|now split].
    + cbn [List.length climbs]. split; [lia|reflexivity].
Qed.

Lemma refinement_loop_returns (iters : nat) (rs : R) (best : Q)
      (best_w : option (list Q)) (s : Q) (w : option (list Q)) :
  outcome (refinement_loop n_features cv_score iters self_n_submodels var_weights
                           n_submodels rs selection_quantile best best_w) = Ok (s, w) ->
  match last_improved (rounds (refinement_loop n_features cv_score iters self_n_submodels var_weights
                           n_submodels rs selection_quantile best best_w)) with
  | None => s = best /\ w = best_w
  | Some (a, c) => s = a /\ w = Some c /\ (best < a)%Q
  end
  /\ (best <= s)%Q.
Proof.
  revert rs best best_w. induction iters as [|n IH]; intros rs best best_w.
  - simpl. intros [= <- <-]. repeat split. apply Qle_refl.
  - step_loop rs.
    + intros Hout. apply Qltb_lt in Cmp.
      destruct (IH _ _ _ Hout) as [Hlast Hle].
      cbn [last_improved]. split.
      * destruct (last_improved _) as [[a c]|].
        -- destruct Hlast as (-> & -> & Hlt). repeat split.
           eapply Qlt_trans; eassumption.
        -- destruct Hlast as [-> ->]. now repeat split.
      * eapply Qle_trans; [|exact Hle]. now apply Qlt_le_weak.
    + intros [= <- <-]. cbn [last_improved]. repeat split. apply Qle_refl.
    + discriminate.
Qed.

(** C5. [_yield_best_weights] runs the body of its loop at most five times;
    every round but the last raised the running best score strictly, and a
    round whose average top score does not exceed the running best score is
    the last one. *)
Theorem yield_best_weights_rounds (rs : R) :
  let r := _yield_best_weights n_features cv_score self_n_submodels var_weights
                               n_submodels rs selection_quantile in
  (List.length (rounds r) <= 5)%nat /\ climbs sentinel (rounds r).
Proof. apply refinement_loop_climbs. Qed.

(** C2, amended. When [_yield_best_weights] returns, either some round
    improved, and then the pair returned is the average score and the
    candidate weights of the last improving round, a score strictly above
    the sentinel; or no round improved, and then the pair is the sentinel and
    None.  In both cases the score is not below the sentinel, and a first
    round that improves has a score strictly above it. *)
Theorem yield_best_weights_returns (rs : R) (s : Q) (w : option (list Q)) :
  let r := _yield_best_weights n_features cv_score self_n_submodels var_weights
                               n_submodels rs selection_quantile in
  outcome r = Ok (s, w) ->
  match last_improved (rounds r) with
  | None => s = sentinel /\ w = None
  | Some (a, c) => s = a /\ w = Some c /\ (sentinel < a)%Q
  end
  /\ (sentinel <= s)%Q
  /\ (forall a c rest, rounds r = Improved a c :: rest -> (sentinel < a)%Q).
Proof.
  intros r Hout. destruct (refinement_loop_returns _ _ _ _ Hout) as [H1 H2].
  split; [exact H1|]. split; [exact H2|].
  intros a c rest Hr.
  pose proof (proj2 (refinement_loop_climbs 5 rs sentinel None)) as C.
  change (climbs sentinel (rounds r)) in C. rewrite Hr in C. exact (proj1 C).
Qed.

End Refinement.

Lemma yield_best_weights_returns_witness :
  let r := @_yield_best_weights _ (scripted Concrete.book) stable_numpy
             3 Concrete.cv_three 40 [1 # 2; 1 # 2; 1 # 2]%Q 40
             (Concrete.book 0) 2 in
  match last_improved (rounds r) with
  | None => (-4 # 2)%Q = sentinel /\ Some [1 # 2; 1 # 2; 1 # 2]%Q = None
  | Some (a, c) =>
      (-4 # 2)%Q = a /\ Some [1 # 2; 1 # 2; 1 # 2]%Q = Some c /\ (sentinel < a)%Q
  end
  /\ (sentinel <= -4 # 2)%Q
  /\ (forall a c rest, rounds r = Improved a c :: rest -> (sentinel < a)%Q).
Proof.
  apply (@yield_best_weights_returns _ (scripted Concrete.book) stable_numpy
           3%nat Concrete.cv_three 40%nat 40%nat 2%nat [1 # 2; 1 # 2; 1 # 2]%Q
           (Concrete.book 0) (-4 # 2)%Q (Some [1 # 2; 1 # 2; 1 # 2]%Q)).
  vm_compute. reflexivity.
Defined.

(** C2 as stated fails: when the first round does not beat the sentinel (here
    every submodel scores -2e7), no round improved and the weights returned
    are None, not the weights the loop was given. *)
Lemma yield_best_weights_without_improvement :
  let r := @_yield_best_weights _ (scripted Concrete.no_script) stable_numpy
             2 Concrete.cv_huge 20 [1 # 2; 1 # 2]%Q 20 [] 1 in
  last_improved (rounds r) = None
  /\ outcome r = Ok (sentinel, None)
  /\ outcome r <> Ok (sentinel, Some [1 # 2; 1 # 2]%Q).
Proof.
  vm_compute. repeat split. discriminate.
Qed.

(** The rounds of the run used above: one improving round, then a round
    that stalls. *)
Example yield_best_weights_rounds_example :
  rounds (@_yield_best_weights _ (scripted Concrete.book) stable_numpy
            3 Concrete.cv_three 40 [1 # 2; 1 # 2; 1 # 2]%Q 40
            (Concrete.book 0) 2)
  = [Improved (-4 # 2) [1 # 2; 1 # 2; 1 # 2]%Q; Stalled (-4 # 2)].
Proof. vm_compute. reflexivity. Qed.

(** ** The top quantile *)

Lemma sorted_insert_length {A} (key : A -> Q) (x : A) (l : list A) :
  List.length (sorted_insert key x l) = S (List.length l).
Proof.
  induction l as [|y t IH]; simpl; [reflexivity|].
  destruct (Qle_bool _ _); simpl; [reflexivity|now rewrite IH].
Qed.

Lemma sorted_length {A} (key : A -> Q) (l : list A) :
  List.length (sorted key l) = List.length l.
Proof.
  induction l as [|x l IH]; simpl; [reflexivity|].
  now rewrite sorted_insert_length, IH.
Qed.

Lemma unzip_pairs_nonempty {A B} (pairs : list (A * B)) :
  (1 <= List.length pairs)%nat ->
  unzip_pairs pairs = Ok (map fst pairs, map snd pairs).
Proof. destruct pairs; simpl; [lia|reflexivity]. Qed.

Lemma unzip_pairs_empty {A B} (pairs : list (A * B)) :
  List.length pairs = 0%nat -> unzip_pairs pairs = Raise ValueError.
Proof. destruct pairs; simpl; [reflexivity|discriminate]. Qed.

Lemma for_each_ok {A B} (f : A -> result B) (g : A -> B) (l : list A) :
  (forall x, In x l -> f x = Ok (g x)) -> for_each f l = Ok (map g l).
Proof.
  induction l as [|x l IH]; intros H; simpl; [reflexivity|].
  rewrite (H x) by now left. simpl. rewrite IH; [reflexivity|].
  intros y Hy. apply H. now right.
Qed.

Lemma for_each_length {A B} (f : A -> result B) (l : list A) (ys : list B) :
  for_each f l = Ok ys -> List.length ys = List.length l.
Proof.
  revert ys. induction l as [|x l IH]; intros ys; simpl.
  - now intros [= <-].
  - destruct (f x) as [y|e]; [|discriminate]. simpl.
    destruct (for_each f l) as [ys'|e]; [|discriminate]. simpl.
    intros [= <-]. simpl. f_equal. now apply IH.
Qed.

Section Quantile.

Context {R : Type} {RS : RandomState R} {NS : NumpySort}.
Variable n_features : nat.
Variable cv_score : list nat -> result Q.

Lemma evaluate_submodels_length (n shape1 : nat) (bsm : list (list bool))
      (submodels : list (Q * nat)) :
  _evaluate_submodels n_features cv_score n shape1 bsm = Ok submodels ->
  List.length submodels = n.
Proof.
  unfold _evaluate_submodels. intros H.
  rewrite (for_each_length _ _ H). apply length_seq.
Qed.

(** On a matrix with a row for each column of X and with as many columns as
    there are submodels, the masks fit: the evaluation of the submodels
    raises only what the cross-validation of one of them raises. *)
Lemma evaluate_submodels_raises (n m : nat) (bsm : list (list bool)) (e : exn) :
  (m <= n)%nat -> List.length bsm = n_features ->
  _evaluate_submodels n_features cv_score m n bsm = Raise e ->
  exists columns, cv_score columns = Raise e.
Proof.
  intros Hm Hb. unfold _evaluate_submodels.
  assert (G : forall l, (forall i, In i l -> (i < n)%nat) ->
            for_each (fun i => columns <- masked_columns n_features n bsm i ;;
                               _evaluate cv_score columns i) l = Raise e ->
            exists columns, cv_score columns = Raise e).
  { induction l as [|i l IH]; intros Hl; simpl; [discriminate|].
    unfold masked_columns at 1.
    destruct (Nat.ltb_spec i n) as [_|Hge];
      [|specialize (Hl i (or_introl eq_refl)); lia].
    rewrite Hb, Nat.eqb_refl. cbn [bind]. unfold _evaluate at 1.
    destruct (cv_score (Np.nonzero (Np.column bsm i))) as [s|e'] eqn:Cv;
      cbn [bind].
    - destruct (for_each _ l) as [ys|e'] eqn:F; cbn [bind]; [discriminate|].
      intros [= ->]. apply IH; [|reflexivity]. intros j Hj. apply Hl. now right.
    - intros [= ->]. eauto. }
  apply G. intros i Hi. apply in_seq in Hi. lia.
Qed.

(** When the cross-validation returns on every choice of columns, every
    submodel is evaluated. *)
Lemma evaluate_submodels_ok (n : nat) (bsm : list (list bool)) :
  always_returns cv_score ->
  List.length bsm = n_features ->
  exists submodels,
    _evaluate_submodels n_features cv_score n n bsm = Ok submodels.
Proof.
  intros Hcv Hb.
  destruct (_evaluate_submodels n_features cv_score n n bsm) as [subs|e] eqn:E;
    [eauto|exfalso].
  destruct (@evaluate_submodels_raises n n bsm e (Nat.le_refl n) Hb E)
    as [columns Hc].
  destruct (Hcv columns) as [s Hs]. congruence.
Qed.

Lemma top_quantile_length (q : nat) (submodels : list (Q * nat)) :
  List.length (firstn q (sorted (fun x => (- fst x)%Q) submodels))
  = Nat.min q (List.length submodels).
Proof. now rewrite length_firstn, sorted_length. Qed.

(** With a top quantile that is not empty, a round raises only what the
    cross-validation of a submodel raised, and a run that raises ends with
    such a round. *)
Lemma refinement_loop_failures (iters n q : nat) (vw : list Q) (rs : R)
      (best : Q) (best_w : option (list Q)) :
  (1 <= q <= n)%nat ->
  List.length vw = n_features ->
  let r := refinement_loop n_features cv_score iters n vw n rs q best best_w in
  (forall e, In (Failed e) (rounds r) ->
             exists columns, cv_score columns = Raise e)
  /\ ((exists s w, outcome r = Ok (s, w))
      \/ (exists e, outcome r = Raise e /\ In (Failed e) (rounds r))).
Proof.
  intros Hq Hvw. revert rs best best_w.
  induction iters as [|k IH]; intros rs best best_w.
  - simpl. split; [intros e []|eauto].
  - cbn [refinement_loop].
    pose proof (produce_submodels_length vw n rs) as L.
    destruct (_produce_submodels vw n rs) as [rs' bsm]. simpl in L.
    destruct (_evaluate_submodels n_features cv_score n n bsm) as [subs|e0]
      eqn:Hs; cbn [bind].
    + rewrite unzip_pairs_nonempty
        by (rewrite top_quantile_length, (evaluate_submodels_length _ _ _ Hs);
            lia).
      destruct (Qltb _ _); cbn [rounds outcome].
      * match goal with
        | |- context [refinement_loop _ _ k n vw n rs' q ?a ?w] =>
            destruct (IH rs' a w) as [Hr Ho]
        end.
        split.
        -- intros e [He|He]; [discriminate|exact (Hr e He)].
        -- destruct Ho as [Ho|(e & Ho & Hin)]; [now left|right].
           exists e. split; [exact Ho|now right].
      * split; [|eauto]. intros e [He|[]]. discriminate.
    + cbn [rounds outcome].
      destruct (@evaluate_submodels_raises n n bsm e0 (Nat.le_refl n)
                  ltac:(congruence) Hs) as [columns Hc].
      split.
      * intros e [[= <-]|[]]. eauto.
      * right. exists e0. split; [reflexivity|now left].
Qed.

Lemma refinement_loop_succeeds (iters n q : nat) (vw : list Q) (rs : R)
      (best : Q) (best_w : option (list Q)) :
  always_returns cv_score ->
  (1 <= q <= n)%nat ->
  List.length vw = n_features ->
  let r := refinement_loop n_features cv_score iters n vw n rs q best best_w in
  raises_nothing (rounds r) /\ exists s w, outcome r = Ok (s, w).
Proof.
  intros Hcv Hq Hvw r.
  destruct (@refinement_loop_failures iters n q vw rs best best_w Hq Hvw)
    as [Hf Ho]. fold r in Hf, Ho.
  assert (Hn : raises_nothing (rounds r)).
  { intros e He. destruct (Hf e He) as [columns Hc].
    destruct (Hcv columns) as [s Hs]. congruence. }
  split; [exact Hn|].
  destruct Ho as [Ho|(e & _ & Hin)]; [exact Ho|]. now apply Hn in Hin.
Qed.

(** With an empty top quantile the first round raises: ValueError at the
    unpacking when the submodels were evaluated, and what their evaluation
    raised otherwise. *)
Lemma refinement_loop_empty_quantile (iters n : nat) (vw : list Q) (rs : R)
      (best : Q) (best_w : option (list Q)) :
  List.length vw = n_features ->
  let r := refinement_loop n_features cv_score (S iters) n vw n rs 0 best best_w in
  exists e,
    rounds r = [Failed e] /\ outcome r = Raise e
    /\ (e = ValueError \/ exists columns, cv_score columns = Raise e)
    /\ (forall submodels,
          _evaluate_submodels n_features cv_score n n
                              (snd (_produce_submodels vw n rs)) = Ok submodels ->
          e = ValueError).
Proof.
  intros Hvw. cbn [refinement_loop].
  pose proof (produce_submodels_length vw n rs) as L.
  destruct (_produce_submodels vw n rs) as [rs' bsm]. simpl in L. cbn [snd].
  destruct (_evaluate_submodels n_features cv_score n n bsm) as [subs|e0]
    eqn:Hs; cbn [bind unzip_pairs firstn rounds outcome].
  - exists ValueError. repeat split; auto.
  - exists e0. split; [reflexivity|]. split; [reflexivity|]. split.
    + right. apply (@evaluate_submodels_raises n n bsm e0 (Nat.le_refl n));
        [congruence|exact Hs].
    + discriminate.
Qed.

End Quantile.

(** ** Masks and rankings *)

Lemma count_true_all (A : Type) (f : A -> bool) (l : list A) :
  (forall x, In x l -> f x = true) ->
  Np.count_true (map f l) = List.length l.
Proof.
  induction l as [|x l IH]; intros H; [reflexivity|].
  change (map f (x :: l)) with ([f x] ++ map f l).
  rewrite count_true_app, IH by (intros; apply H; now right).
  rewrite (H x) by now left. reflexivity.
Qed.

Lemma count_true_none (A : Type) (f : A -> bool) (l : list A) :
  (forall x, In x l -> f x = false) -> Np.count_true (map f l) = 0%nat.
Proof.
  induction l as [|x l IH]; intros H; [reflexivity|].
  change (map f (x :: l)) with ([f x] ++ map f l).
  rewrite count_true_app, IH by (intros; apply H; now right).
  rewrite (H x) by now left. reflexivity.
Qed.

Lemma map_all_true (A : Type) (f : A -> bool) (l : list A) :
  (forall x, In x l -> f x = true) -> map f l = repeat true (List.length l).
Proof.
  induction l as [|x l IH]; intros H; [reflexivity|]. simpl.
  rewrite (H x) by now left. f_equal. apply IH. intros; apply H; now right.
Qed.

Lemma member_spec (i : nat) (idx : list nat) :
  existsb (Nat.eqb i) idx = true <-> In i idx.
Proof.
  rewrite existsb_exists. split.
  - intros (x & Hx & E). apply Nat.eqb_eq in E. now subst.
  - intros H. exists i. split; [exact H|apply Nat.eqb_refl].
Qed.

Lemma mask_of_nth (n : nat) (idx : list nat) (i : nat) :
  nth i (mask_of n idx) false
  = if (i <? n)%nat then existsb (Nat.eqb i) idx else false.
Proof.
  unfold mask_of. destruct (Nat.ltb_spec i n) as [Hlt|Hge].
  - rewrite (nth_indep _ false (existsb (Nat.eqb 0) idx))
      by now rewrite length_map, length_seq.
    rewrite (map_nth (fun i => existsb (Nat.eqb i) idx)), seq_nth by exact Hlt.
    reflexivity.
  - apply nth_overflow. now rewrite length_map, length_seq.
Qed.

Lemma sorted_app_cross (A : Type) (rel : A -> A -> Prop) (l1 l2 : list A) :
  StronglySorted rel (l1 ++ l2) ->
  forall x y, In x l1 -> In y l2 -> rel x y.
Proof.
  induction l1 as [|a l1 IH]; intros S x y Hx Hy; [contradiction|].
  simpl in S. apply StronglySorted_inv in S. destruct S as [S F].
  destruct Hx as [<-|Hx].
  - rewrite Forall_forall in F. apply F, in_or_app. now right.
  - now apply IH.
Qed.

Lemma Qle_bool_total (x y : Q) : Qle_bool x y = true \/ Qle_bool y x = true.
Proof.
  rewrite !Qle_bool_iff. destruct (Qlt_le_dec x y) as [H|H]; [left|right];
    [now apply Qlt_le_weak|exact H].
Qed.

Lemma Qle_bool_trans (x y z : Q) :
  Qle_bool x y = true -> Qle_bool y z = true -> Qle_bool x z = true.
Proof. rewrite !Qle_bool_iff. apply Qle_trans. Qed.

Section Ranking.

Context {NS : NumpySort}.
Variable w : list Q.
Variable k : nat.

Let n := List.length w.
Let order := argsort Qle_bool 0%Q (map Qopp w).

Lemma order_perm : Permutation order (seq 0 n).
Proof.
  unfold order, n. rewrite <- (length_map Qopp w). apply argsort_perm.
Qed.

Lemma top_indices_split : order = top_indices w k ++ skipn k order.
Proof. unfold top_indices. fold order. now rewrite firstn_skipn. Qed.

Lemma top_mask_length : List.length (mask_of n (top_indices w k)) = n.
Proof. unfold mask_of. now rewrite length_map, length_seq. Qed.

Lemma top_mask_count :
  Np.count_true (mask_of n (top_indices w k)) = Nat.min k n.
Proof.
  unfold mask_of.
  rewrite <- (count_true_perm
                (Permutation_map (fun i => existsb (Nat.eqb i) (top_indices w k))
                                 order_perm)).
  assert (ND : NoDup order).
  { eapply Permutation_NoDup; [symmetry; apply order_perm|apply seq_NoDup]. }
  rewrite top_indices_split in ND |- *.
  rewrite map_app, count_true_app.
  rewrite count_true_all by (intros x Hx; now apply member_spec).
  rewrite count_true_none.
  - unfold top_indices. rewrite length_firstn. fold order.
    rewrite (Permutation_length order_perm), length_seq. lia.
  - intros x Hx. apply not_true_iff_false. rewrite member_spec. intros Hin.
    apply NoDup_app_remove_l in ND as ND2.
    revert Hin Hx. revert x.
    induction (top_indices w k) as [|a t IH]; intros x Hin Hx; [contradiction|].
    simpl in ND. apply NoDup_cons_iff in ND. destruct ND as [Ha NDt].
    destruct Hin as [->|Hin].
    + apply Ha, in_or_app. now right.
    + now apply (IH NDt x).
Qed.

Lemma top_mask_dominates (i j : nat) :
  nth i (mask_of n (top_indices w k)) false = true ->
  nth j (mask_of n (top_indices w k)) false = false ->
  (j < n)%nat ->
  (nth j w 0 <= nth i w 0)%Q.
Proof.
  rewrite !mask_of_nth. intros Hi Hj Hlt.
  destruct (Nat.ltb_spec i n) as [_|_]; [|discriminate].
  destruct (Nat.ltb_spec j n) as [_|?]; [|lia].
  apply member_spec in Hi.
  apply not_true_iff_false in Hj. rewrite member_spec in Hj.
  assert (Hrest : In j (skipn k order)).
  { assert (Hin : In j order).
    { eapply Permutation_in; [symmetry; apply order_perm|].
      apply in_seq. lia. }
    rewrite top_indices_split in Hin. apply in_app_or in Hin. tauto. }
  pose proof (argsort_sorted Qle_bool 0%Q (map Qopp w)
                Qle_bool_total Qle_bool_trans) as S.
  fold order in S. rewrite top_indices_split in S.
  pose proof (@sorted_app_cross _ _ _ _ S i j Hi Hrest) as C. cbv beta in C.
  apply Qle_bool_iff in C.
  change 0%Q with (- 0)%Q in C. rewrite !map_nth in C.
  change (- 0)%Q with 0%Q in C. lra.
Qed.

Lemma top_mask_everything :
  k = n -> mask_of n (top_indices w k) = repeat true n.
Proof.
  intros ->. unfold top_indices. fold order.
  rewrite firstn_all2
    by (rewrite (Permutation_length order_perm), length_seq; lia).
  unfold mask_of.
  replace (repeat true n) with (repeat true (List.length (seq 0 n)))
    by now rewrite length_seq.
  apply map_all_true. intros i Hi. apply member_spec.
  eapply Permutation_in; [symmetry; apply order_perm|exact Hi].
Qed.

End Ranking.

(** ** The outer convergence loop *)

Section Fit.

Context {R : Type} {RS : RandomState R} {NS : NumpySort}.
Variable n_features : nat.
Variable cv_score : list nat -> result Q.

Lemma top_frequencies_length (bsm : list (list bool)) (top : list nat) (q : nat) :
  List.length (top_frequencies bsm top q) = List.length bsm.
Proof. unfold top_frequencies. apply length_map. Qed.

Lemma refinement_loop_weights_length (iters n_self n q : nat) (vw : list Q)
      (rs : R) (best : Q) (best_w : option (list Q)) (s : Q) (w : list Q) :
  (forall w0, best_w = Some w0 -> List.length w0 = List.length vw) ->
  outcome (refinement_loop n_features cv_score iters n_self vw n rs q best best_w)
  = Ok (s, Some w) ->
  List.length w = List.length vw.
Proof.
  revert rs best best_w. induction iters as [|i IH]; intros rs best best_w Hb.
  - simpl. intros [= _ E]. now apply Hb.
  - cbn [refinement_loop].
    pose proof (produce_submodels_length vw n rs) as L.
    destruct (_produce_submodels vw n rs) as [rs' bsm]. simpl in L.
    destruct (bind _ _) as [[top_scores top_models]|e]; [|discriminate].
    destruct (Qltb _ _); cbn [outcome].
    + apply IH. intros w0 [= <-]. now rewrite top_frequencies_length.
    + intros [= _ E]. now apply Hb.
Qed.

Lemma yield_best_weights_length (n_self n q : nat) (vw : list Q) (rs : R)
      (s : Q) (w : list Q) :
  outcome (_yield_best_weights n_features cv_score n_self vw n rs q) = Ok (s, Some w) ->
  List.length w = List.length vw.
Proof. apply refinement_loop_weights_length. discriminate. Qed.

Lemma convergence_loop_lengths (fuel n_subs q k : nat) (ts : Q) (tw : list Q)
      (rs : R) (c : convergence) (x : loop_exit) :
  List.length tw = n_features ->
  convergence_loop n_features cv_score fuel n_subs q k ts tw rs = Some c ->
  exit c = Ok x ->
  List.length (top_var_weights x) = n_features
  /\ forall w, var_weights x = Some w -> List.length w = n_features.
Proof.
  revert ts tw rs c. induction fuel as [|f IH]; intros ts tw rs c Htw;
    [discriminate|].
  cbn [convergence_loop].
  pose proof (fun s w => @yield_best_weights_length n_subs n_subs q tw rs s w)
    as L.
  destruct (outcome _) as [[score [w|]]|e].
  - specialize (L score w eq_refl). destruct (Qltb ts score).
    + destruct (k <=? n_certain n_subs w)%nat.
      * intros [= <-]. cbn [exit]. intros [= <-]. cbn. split; [congruence|].
        intros ? [= <-]. congruence.
      * destruct (convergence_loop _ _ f _ _ _ _ _ _) as [c'|] eqn:E;
          [|discriminate].
        intros [= <-]. cbn [add_event exit]. eapply IH; [|exact E]. congruence.
    + intros [= <-]. cbn [exit]. intros [= <-]. cbn. split; [exact Htw|].
      intros ? [= <-]. congruence.
  - destruct (Qltb ts score).
    + intros [= <-]. discriminate.
    + intros [= <-]. cbn [exit]. intros [= <-]. cbn. split; [exact Htw|].
      discriminate.
  - intros [= <-]. discriminate.
Qed.

Lemma convergence_loop_stops (fuel n_subs q k : nat) (ts : Q) (tw : list Q)
      (rs : R) (c : convergence) (pre post : list outer_event) (s : Q)
      (w : list Q) :
  convergence_loop n_features cv_score fuel n_subs q k ts tw rs = Some c ->
  history c = pre ++ Accepted s w :: post ->
  (k <= n_certain n_subs w)%nat ->
  post = []
  /\ exit c = Ok {| top_score := s; top_var_weights := w;
                    var_weights := Some w |}.
Proof.
  intros Hc Hh Hk. revert ts tw rs c pre Hc Hh.
  induction fuel as [|f IH]; intros ts tw rs c pre; [discriminate|].
  cbn [convergence_loop].
  destruct (outcome _) as [[score [w'|]]|e].
  - destruct (Qltb ts score).
    + destruct (k <=? n_certain n_subs w')%nat eqn:Stop.
      * intros [= <-]. cbn [history exit].
        destruct pre as [|ev [|? ?]]; intros [= ]; subst.
        now split.
      * destruct (convergence_loop _ _ f _ _ _ _ _ _) as [c'|] eqn:E;
          [|discriminate].
        intros [= <-]. cbn [add_event history exit].
        destruct pre as [|ev pre]; intros [= ]; subst.
        -- apply Nat.leb_gt in Stop. lia.
        -- eapply IH; eassumption.
    + intros [= <-]. cbn [history].
      destruct pre as [|ev [|? ?]]; intros [= ].
  - destruct (Qltb ts score); intros [= <-]; cbn [history];
      destruct pre as [|ev [|? ?]]; intros [= ].
  - intros [= <-]. cbn [history]. destruct pre as [|ev [|? ?]]; intros [= ].
Qed.

(** The shape [_fit] reduces to once the loop has returned. *)
Ltac unfold_fit Hc Hx :=
  unfold _fit;
  destruct (convergence_loop _ _ _ _ _ _ _ _ _) as [c|] eqn:Hc; [|discriminate];
  destruct (release_random_state _ _ _) as [rs' global'];
  destruct (exit c) as [x|err] eqn:Hx;
  [destruct (var_weights x) as [w_last|] eqn:Hlast|].

(** C6. In the history of a fit, an accepted round whose weights have at
    least [n_features_to_select] entries at or above [(n - 0.5) / n] is the
    last round: [_yield_best_weights] is not called again, the fit returns
    and [weights_] holds that round's weights. *)
Theorem fit_stops_when_certain
        (self : VISSA R) (global : R) (fuel : nat)
        (e : VISSA R) (g : R) (hist : list outer_event) (res : result unit)
        (pre post : list outer_event) (s : Q) (w : list Q) :
  _fit n_features cv_score self global fuel = Some (e, g, hist, res) ->
  hist = pre ++ Accepted s w :: post ->
  (n_features_to_select self <= n_certain (n_submodels self) w)%nat ->
  post = [] /\ res = Ok tt /\ weights_ e = Some (Some w).
Proof.
  intros Hfit Hh Hk. revert Hfit. unfold_fit Hc Hx; intros [= <- <- <- <-];
    (edestruct convergence_loop_stops as [-> Hexit];
     [exact Hc|exact Hh|exact Hk|]);
    rewrite Hexit in Hx; inversion Hx; subst; cbn in Hlast; try discriminate.
  injection Hlast as <-. now repeat split.
Qed.

(** C7, amended. After a fit that returned, [support_] is a mask of length
    n_features with min(n_features_to_select, n_features) true entries, no
    unmarked feature has a larger weight in [weights_] than a marked one
    (whatever order numpy's argsort gives equal weights), and the mask is all
    true when n_features_to_select is the number of features. *)
Theorem fit_support_mask
        (self : VISSA R) (global : R) (fuel : nat)
        (e : VISSA R) (g : R) (hist : list outer_event) :
  _fit n_features cv_score self global fuel = Some (e, g, hist, Ok tt) ->
  exists (w : list Q) (mask : list bool),
    weights_ e = Some (Some w) /\ support_ e = Some mask
    /\ List.length w = n_features /\ List.length mask = n_features
    /\ Np.count_true mask = Nat.min (n_features_to_select self) n_features
    /\ (forall i j, nth i mask false = true -> nth j mask false = false ->
                    (j < n_features)%nat -> (nth j w 0 <= nth i w 0)%Q)
    /\ (n_features_to_select self = n_features -> mask = repeat true n_features).
Proof.
  unfold_fit Hc Hx; intros [= <- <- <-].
  edestruct convergence_loop_lengths as [_ L];
    [apply repeat_length|exact Hc|exact Hx|].
  specialize (L w_last Hlast). subst n_features.
  exists w_last, (mask_of (List.length w_last)
                    (top_indices w_last (n_features_to_select self))).
  cbn [weights_ support_ with_attributes].
  repeat split.
  - apply top_mask_length.
  - apply top_mask_count.
  - apply top_mask_dominates.
  - apply top_mask_everything.
Qed.

(** C8. With an int seed, fitting the estimator a second time on the same
    data reproduces the first fit: the same history, the same outcome, the
    same [weights_] and the same [support_]. *)
Theorem fit_twice_same_support
        (self : VISSA R) (z : Z) (global : R) (fuel : nat)
        (e : VISSA R) (g : R) (hist : list outer_event) (res : result unit) :
  random_state self = seed z ->
  _fit n_features cv_score self global fuel = Some (e, g, hist, res) ->
  exists e' : VISSA R,
    _fit n_features cv_score e g fuel = Some (e', g, hist, res)
    /\ support_ e' = support_ e /\ weights_ e' = weights_ e.
Proof.
  intros Hseed. unfold _fit. rewrite Hseed. cbn [check_random_state release_random_state].
  destruct (convergence_loop _ _ _ _ _ _ _ _ _) as [c|] eqn:Hc; [|discriminate].
  destruct (exit c) as [x|err] eqn:Hx;
    [destruct (var_weights x) as [w_last|] eqn:Hlast|];
    intros [= <- <- <- <-];
    cbn [n_submodels n_features_to_select random_state with_attributes
         check_random_state release_random_state];
    rewrite Hc, Hx, ?Hlast; eexists; split; reflexivity || (split; reflexivity).
Qed.

(** C10. The top quantile has [n_submodels / 20] submodels.  Below twenty
    submodels it is empty: whatever the evaluated submodels, the slice of
    the best is empty and unpacking it raises ValueError; so the first
    refinement round raises, and the fit with it: ValueError at the
    unpacking whenever the evaluation of the submodels returned, and the
    error of that evaluation otherwise.  From twenty on the slice taken from
    the evaluated submodels is never empty: a round raises only what the
    cross-validation of a submodel raised, and when the cross-validation
    returns on every choice of columns no round raises and every refinement
    returns. *)
Theorem fit_quantile_precondition (self : VISSA R) (global : R) :
  ((n_submodels self < 20)%nat ->
   selection_quantile_of (n_submodels self) = 0%nat
   /\ (forall submodels : list (Q * nat),
          unzip_pairs
            (firstn (selection_quantile_of (n_submodels self))
                    (sorted (fun x => (- fst x)%Q) submodels))
          = Raise ValueError)
   /\ (forall vw rs,
          List.length vw = n_features ->
          let r := _yield_best_weights n_features cv_score (n_submodels self)
                     vw (n_submodels self) rs
                     (selection_quantile_of (n_submodels self)) in
          exists e,
            rounds r = [Failed e] /\ outcome r = Raise e
            /\ (e = ValueError \/ exists columns, cv_score columns = Raise e)
            /\ (forall submodels,
                  _evaluate_submodels n_features cv_score (n_submodels self)
                    (n_submodels self)
                    (snd (_produce_submodels vw (n_submodels self) rs))
                  = Ok submodels ->
                  e = ValueError))
   /\ (forall fuel, exists e g err,
          _fit n_features cv_score self global (S fuel)
          = Some (e, g, [Aborted err], Raise err)
          /\ (err = ValueError \/ exists columns, cv_score columns = Raise err)
          /\ (forall submodels,
                _evaluate_submodels n_features cv_score (n_submodels self)
                  (n_submodels self)
                  (snd (_produce_submodels (repeat (1 # 2)%Q n_features)
                          (n_submodels self)
                          (check_random_state (random_state self) global)))
                = Ok submodels ->
                err = ValueError)))
  /\
  ((20 <= n_submodels self)%nat ->
   (1 <= selection_quantile_of (n_submodels self))%nat
   /\ (forall bsm submodels,
          _evaluate_submodels n_features cv_score (n_submodels self)
                              (n_submodels self) bsm = Ok submodels ->
          firstn (selection_quantile_of (n_submodels self))
                 (sorted (fun x => (- fst x)%Q) submodels) <> [])
   /\ (forall vw rs,
          List.length vw = n_features ->
          let r := _yield_best_weights n_features cv_score (n_submodels self)
                     vw (n_submodels self) rs
                     (selection_quantile_of (n_submodels self)) in
          (forall e, In (Failed e) (rounds r) ->
                     exists columns, cv_score columns = Raise e)
          /\ (always_returns cv_score ->
              raises_nothing (rounds r) /\ exists s w, outcome r = Ok (s, w)))).
Proof.
  split; intros Hn.
  - assert (Hq : selection_quantile_of (n_submodels self) = 0%nat)
      by (unfold selection_quantile_of; now apply Nat.div_small).
    rewrite Hq. split; [reflexivity|]. split; [reflexivity|].
    split.
    + intros vw rs Hvw. now apply refinement_loop_empty_quantile.
    + intros fuel. unfold _fit. rewrite Hq. cbn [convergence_loop].
      destruct (@refinement_loop_empty_quantile _ _ _ n_features cv_score 4
                  (n_submodels self) (repeat (1 # 2)%Q n_features)
                  (check_random_state (random_state self) global)
                  sentinel None (repeat_length _ _)) as (err & _ & Ho & Hc & Hv).
      unfold _yield_best_weights. rewrite Ho.
      destruct (release_random_state _ _ _) as [rs' global'].
      cbn [exit history]. eauto 6.
  - assert (Hq : (1 <= selection_quantile_of (n_submodels self)
                  <= n_submodels self)%nat).
    { unfold selection_quantile_of. split.
      - apply Nat.div_le_lower_bound; lia.
      - apply Nat.Div0.div_le_upper_bound. lia. }
    split; [lia|]. split.
    + intros bsm submodels Hs E. apply (f_equal (@List.length _)) in E.
      rewrite top_quantile_length, (evaluate_submodels_length _ _ _ _ _ Hs) in E.
      simpl in E. lia.
    + intros vw rs Hvw r. split.
      * exact (proj1 (@refinement_loop_failures _ _ _ n_features cv_score 5
                        (n_submodels self) _ vw rs sentinel None Hq Hvw)).
      * intros Hcv. now apply refinement_loop_succeeds.
Qed.

End Fit.

(** *** The fit on concrete data *)

Lemma fit_stops_when_certain_witness :
  exists (e : VISSA (list (list nat))) (g : list (list nat))
         (hist : list outer_event) (res : result unit),
    @_fit _ (scripted Concrete.no_script) stable_numpy 2 Concrete.cv_flat
          Concrete.two_features [] 3 = Some (e, g, hist, res)
    /\ (@nil outer_event = [] /\ res = Ok tt
        /\ weights_ e = Some (Some [1; 1]%Q)).
Proof.
  do 4 eexists. split.
  - vm_compute. reflexivity.
  - apply (@fit_stops_when_certain _ (scripted Concrete.no_script) stable_numpy
             2%nat Concrete.cv_flat Concrete.two_features [] 3%nat
             _ [] [Accepted (- (1)) [1; 1]%Q] (Ok tt) [] [] (- (1))%Q [1; 1]%Q).
    + vm_compute. reflexivity.
    + reflexivity.
    + vm_compute. lia.
Defined.

Lemma fit_support_mask_witness :
  exists (e : VISSA (list (list nat))) (g : list (list nat))
         (hist : list outer_event),
    @_fit _ (scripted Concrete.book) stable_numpy 3 Concrete.cv_three
          Concrete.three_features [] 5 = Some (e, g, hist, Ok tt)
    /\ exists (w : list Q) (mask : list bool),
        weights_ e = Some (Some w) /\ support_ e = Some mask
        /\ List.length w = 3%nat /\ List.length mask = 3%nat
        /\ Np.count_true mask = Nat.min 1 3
        /\ (forall i j, nth i mask false = true -> nth j mask false = false ->
                        (j < 3)%nat -> (nth j w 0 <= nth i w 0)%Q)
        /\ (1%nat = 3%nat -> mask = repeat true 3).
Proof.
  do 3 eexists. split.
  - vm_compute. reflexivity.
  - eapply (@fit_support_mask _ (scripted Concrete.book) stable_numpy 3%nat
              Concrete.cv_three Concrete.three_features [] 5%nat).
    vm_compute. reflexivity.
Defined.

Lemma fit_twice_same_support_witness :
  exists (e g hist res : _),
    @_fit _ (scripted Concrete.book) stable_numpy 3 Concrete.cv_three
          Concrete.three_features [] 5 = Some (e, g, hist, res)
    /\ exists e' : VISSA (list (list nat)),
        @_fit _ (scripted Concrete.book) stable_numpy 3 Concrete.cv_three
              e g 5 = Some (e', g, hist, res)
        /\ support_ e' = support_ e /\ weights_ e' = weights_ e.
Proof.
  do 4 eexists. split.
  - vm_compute. reflexivity.
  - apply (@fit_twice_same_support _ (scripted Concrete.book) stable_numpy
             3%nat Concrete.cv_three Concrete.three_features 0%Z [] 5%nat).
    + reflexivity.
    + vm_compute. reflexivity.
Defined.

(** The seed matters: an estimator that holds a RandomState instance draws
    on from where the first fit left the generator, and the second fit marks
    another feature. *)
Example fit_twice_shared_generator :
  match @_fit _ (scripted Concrete.book) stable_numpy 3 Concrete.cv_three
              Concrete.three_features_shared [] 5 with
  | Some (e1, g1, _, _) =>
      support_ e1 = Some [false; true; false]
      /\ match @_fit _ (scripted Concrete.book) stable_numpy 3
                     Concrete.cv_three e1 g1 5 with
         | Some (e2, _, _, _) => support_ e2 = Some [true; false; false]
         | None => False
         end
  | None => False
  end.
Proof. vm_compute. split; reflexivity. Qed.

Lemma fit_quantile_precondition_witness :
  (exists e g err,
      @_fit _ (scripted Concrete.no_script) stable_numpy 2 Concrete.cv_flat
            Concrete.few_submodels [] 1
      = Some (e, g, [Aborted err], Raise err)
      /\ err = ValueError)
  /\ (1 <= selection_quantile_of (n_submodels Concrete.two_features))%nat.
Proof.
  split.
  - destruct (@fit_quantile_precondition _ (scripted Concrete.no_script)
                stable_numpy 2%nat Concrete.cv_flat Concrete.few_submodels [])
      as [Small _].
    destruct Small as (_ & _ & _ & Hfit); [simpl; lia|].
    destruct (Hfit 0%nat) as (e & g & err & Hf & _ & Hv).
    exists e, g, err. split; [exact Hf|].
    eapply Hv. vm_compute. reflexivity.
  - destruct (@fit_quantile_precondition _ (scripted Concrete.no_script)
                stable_numpy 2%nat Concrete.cv_flat Concrete.two_features [])
      as [_ Large].
    destruct Large as (Hq & _); [simpl; lia|]. exact Hq.
Defined.

(** Twenty submodels are enough for the top quantile, not for the
    evaluation: with the default estimator a submodel that holds no feature
    cannot be fitted, and the error ends the fit.  Here two features of
    weight 0.5 are sampled into twenty submodels, and those that hold
    neither of them make the first round fail. *)
Example fit_fails_on_empty_submodel :
  exists bsm,
    snd (@_produce_submodels _ (scripted Concrete.no_script) stable_numpy
           [1 # 2; 1 # 2]%Q 20 []) = bsm
    /\ Np.nonzero (Np.column bsm 19) = []
    /\ @_evaluate_submodels 2 Concrete.cv_pls 20 20 bsm = Raise ValueError
    /\ exists e g,
        @_fit _ (scripted Concrete.no_script) stable_numpy 2 Concrete.cv_pls
              Concrete.two_features [] 1
        = Some (e, g, [Aborted ValueError], Raise ValueError).
Proof. eexists. split; [reflexivity|]. vm_compute. eauto. Qed.

(** C3: the code at a failing input.  The first round of the loop is
    accepted with score -2 and weights (1/2, 1/2, 1/2); the second scores -3,
    is rejected and ends the loop.  The best pair the loop tracked is the
    first round's, yet [weights_] is the rejected round's (0, 1, 0) and
    [support_] marks feature 1, where the tracked weights rank feature 0
    first. *)
Theorem fit_keeps_rejected_candidate :
  @_fit _ (scripted Concrete.book) stable_numpy 3 Concrete.cv_three
        Concrete.three_features [] 5
  = Some ({| n_features_to_select := 1; n_submodels := 40;
             random_state := seed 0;
             weights_ := Some (Some [0; 1; 0]%Q);
             support_ := Some [false; true; false] |},
          [],
          [Accepted (-4 # 2) [1 # 2; 1 # 2; 1 # 2]%Q;
           Rejected (-6 # 2) (Some [0; 1; 0]%Q)],
          Ok tt)
  /\ option_map (@exit _)
       (@convergence_loop _ (scripted Concrete.book) stable_numpy
          3 Concrete.cv_three 5 40 (selection_quantile_of 40) 1 sentinel
          (repeat (1 # 2)%Q 3) (Concrete.book 0))
     = Some (Ok {| top_score := (-4 # 2)%Q;
                   top_var_weights := [1 # 2; 1 # 2; 1 # 2]%Q;
                   var_weights := Some [0; 1; 0]%Q |})
  /\ @mask_of 3 (@top_indices stable_numpy [1 # 2; 1 # 2; 1 # 2]%Q 1)
     = [true; false; false].
Proof. vm_compute. repeat split. Qed.

(** C7 as stated fails: numpy's default argsort is not stable.  Eighteen
    features end a fit with weight 1 each and two are to be selected; with a
    sort that meets the contract of argsort and is stable on short arrays
    only, the fit marks features 16 and 17, where the order of the indices
    would mark features 0 and 1. *)
Lemma fit_ties_not_by_index :
  exists e g hist,
    @_fit _ (scripted Concrete.no_script) quicksort_like_numpy 18
          Concrete.cv_flat Concrete.two_of_eighteen [] 3
    = Some (e, g, hist, Ok tt)
    /\ weights_ e = Some (Some (repeat 1%Q 18))
    /\ support_ e = Some (repeat false 16 ++ [true; true])
    /\ stable_support (repeat 1%Q 18) 2 = [true; true] ++ repeat false 16.
Proof. do 3 eexists. vm_compute. repeat split. Qed.

(** ** Interval expansion *)

Module IVISSAFacts.
Import IVISSA.

Lemma resolve_index_inside (len : nat) (i : Z) :
  (0 <= i < Z.of_nat len)%Z -> resolve_index len i = Ok (Z.to_nat i).
Proof.
  intros H. unfold resolve_index.
  destruct (Z.leb_spec 0 i); [|lia]. destruct (Z.ltb_spec i (Z.of_nat len)); [|lia].
  reflexivity.
Qed.

Lemma resolve_index_at_length (len : nat) :
  resolve_index len (Z.of_nat len) = Raise (IndexError (Z.of_nat len)).
Proof.
  unfold resolve_index.
  destruct (Z.ltb_spec (Z.of_nat len) (Z.of_nat len)); [lia|].
  destruct (Z.ltb_spec (Z.of_nat len) 0); [lia|].
  now rewrite !andb_false_r.
Qed.

Lemma setitem_length (a : list Q) (k : nat) (v : Q) :
  List.length (setitem a k v) = List.length a.
Proof.
  revert k. induction a as [|x a IH]; intros [|k]; simpl; congruence.
Qed.

Lemma select_columns_exact (n : nat) (columns : list Z) :
  Forall (fun c => (0 <= c < Z.of_nat n)%Z) columns ->
  select_columns n columns = Ok (map Z.to_nat columns).
Proof.
  induction 1 as [|c rest Hc _ IH]; simpl; [reflexivity|].
  now rewrite (resolve_index_inside _ Hc), IH.
Qed.

Section LastFeature.

Variable n_features : nat.
Variable cv_score : list nat -> result Q.
Variable threshold : Q.

Let last : Z := (Z.of_nat n_features - 1)%Z.

(** The probe to the left of the last feature stays inside the array and
    leaves the right border where it was, one past the last feature; or the
    cross-validation of the features with the left neighbour raises. *)
Lemma probe_left_of_last (w : list Q) (s0 : Q) (fs : list Z) :
  List.length w = n_features ->
  Forall (fun c => (0 <= c < Z.of_nat n_features)%Z) fs ->
  let l0 := {| var_weights := w; score := s0; features := fs;
               borders := [(last - 1)%Z; (last + 1)%Z];
               index := 0; progress := true |} in
  (exists l,
      probe n_features cv_score threshold l0 = Ok l
      /\ index l = 0%nat
      /\ nth 1 (borders l) 0%Z = Z.of_nat n_features
      /\ List.length (var_weights l) = n_features)
  \/ (exists e,
         probe n_features cv_score threshold l0 = Raise e
         /\ cv_score (map Z.to_nat (fs ++ [(last - 1)%Z])) = Raise e).
Proof.
  intros Hw Hf l0. unfold probe, l0, last.
  cbn [index borders nth limits var_weights score IVISSA.features].
  assert (Hright : (Z.of_nat n_features - 1 + 1 = Z.of_nat n_features)%Z) by lia.
  destruct (Z.leb_spec 0 (Z.of_nat n_features - 1 - 1)) as [Hb|Hb].
  - unfold getitem. rewrite Hw, resolve_index_inside by lia. cbn [bind].
    destruct (Qle_bool threshold _).
    + left. eexists. split; [reflexivity|]. cbn. repeat split; [lia|exact Hw].
    + rewrite select_columns_exact
        by (apply Forall_app; split; [exact Hf|];
            constructor; [lia|constructor]).
      cbn [bind]. unfold _evaluate.
      destruct (cv_score _) as [cv_mean|e]; cbn [bind fst].
      * left. destruct (Qltb s0 cv_mean).
        -- eexists. split; [reflexivity|]. cbn.
           repeat split; [lia|]. now rewrite setitem_length.
        -- eexists. split; [reflexivity|]. cbn. repeat split; [lia|exact Hw].
      * right. exists e. split; reflexivity.
  - left. eexists. split; [reflexivity|]. cbn. repeat split; [lia|exact Hw].
Qed.

(** The probe to the right of the last feature passes the bounds test and
    reads the weight vector one past its end. *)
Lemma probe_right_of_last (l : locals) :
  (1 <= n_features)%nat ->
  index l = 1%nat ->
  nth 1 (borders l) 0%Z = Z.of_nat n_features ->
  List.length (var_weights l) = n_features ->
  probe n_features cv_score threshold l
  = Raise (IndexError (Z.of_nat n_features)).
Proof.
  intros Hn Hi Hb Hw. unfold probe. rewrite Hi, Hb. cbn [nth limits].
  destruct (Z.leb_spec (- (Z.of_nat n_features - 1)) (Z.of_nat n_features));
    [|lia].
  unfold getitem. now rewrite Hw, resolve_index_at_length.
Qed.

End LastFeature.

End IVISSAFacts.

(** C4: the code at its failing inputs.  Whenever [_expand_interval] is
    called with at least one submodel for the last feature of a data set, it
    cannot return.  The first pass probes the left neighbour, inside the
    array.  The second pass probes the right neighbour: the test
    [borders[1] >= limits[1]] compares the index n_features with
    -(n_features - 1), passes, and the weight vector is read at index
    n_features, one past its end; numpy raises IndexError.  The call ends
    with that IndexError, unless the cross-validation of the features with
    the left neighbour raised before. *)
Theorem expand_interval_reads_past_end
        (n_features : nat) (cv_score : list nat -> result Q) (fuel : nat)
        (var_weights : list Q) (score : Q) (features : list Z)
        (n_submodels : nat) :
  (1 <= n_features)%nat ->
  (1 <= n_submodels)%nat ->
  List.length var_weights = n_features ->
  Forall (fun c => (0 <= c < Z.of_nat n_features)%Z) features ->
  let call :=
    IntervalGrowth._expand_interval n_features cv_score (S (S fuel))
      var_weights score (IntervalGrowth.ndarray features)
      (Z.of_nat n_features - 1) n_submodels in
  let with_left_neighbour :=
    map Z.to_nat (features ++ [(Z.of_nat n_features - 2)%Z]) in
  (exists e, call = Some (Throws (Builtin e))
             /\ (e = IndexError (Z.of_nat n_features)
                 \/ cv_score with_left_neighbour = Raise e))
  /\ ((forall e, cv_score with_left_neighbour <> Raise e) ->
      call = Some (Throws (Builtin (IndexError (Z.of_nat n_features))))).
Proof.
  intros Hn Hs Hw Hf call cols.
  assert (Core : exists e, call = Some (Throws (Builtin e))
                           /\ (e = IndexError (Z.of_nat n_features)
                               \/ cv_score cols = Raise e)).
  { unfold call, IntervalGrowth._expand_interval, IntervalGrowth.threshold_of.
    destruct (Nat.eqb_spec n_submodels 0) as [?|_]; [lia|].
    cbn [IntervalGrowth.tolist]. unfold IVISSA.expansion.
    cbn [IVISSA.expand].
    destruct (@IVISSAFacts.probe_left_of_last n_features cv_score
                (certainty n_submodels) var_weights score features Hw Hf)
      as [(l & -> & Hi & Hb & Hl)|(e & -> & Hcv)].
    - rewrite Hi. cbn [Nat.eqb andb Nat.add Nat.modulo].
      rewrite IVISSAFacts.probe_right_of_last;
        [|exact Hn|reflexivity|exact Hb|exact Hl].
      cbn. eauto.
    - cbn. exists e. split; [reflexivity|]. right. unfold cols.
      replace (Z.of_nat n_features - 2)%Z
        with (Z.of_nat n_features - 1 - 1)%Z by lia.
      exact Hcv. }
  split; [exact Core|].
  intros Hleft. destruct Core as (e & -> & [->|Hcv]); [reflexivity|].
  now apply Hleft in Hcv.
Qed.

Lemma expand_interval_reads_past_end_witness :
  IntervalGrowth._expand_interval 3 Concrete.cv_three 2 [0; 0; 1]%Q (- (1))%Q
    (IntervalGrowth.ndarray [2%Z]) (Z.of_nat 3 - 1) 40
  = Some (Throws (Builtin (IndexError (Z.of_nat 3)))).
Proof.
  apply (@expand_interval_reads_past_end 3%nat Concrete.cv_three 0%nat
           [0; 0; 1]%Q (- (1))%Q [2%Z] 40%nat).
  - lia.
  - lia.
  - reflexivity.
  - constructor; [lia|constructor].
  - intros e. vm_compute. discriminate.
Defined.

(** ** The key check of the DataHandler *)

Module DataHandlingFacts.
Import DataHandling.

Lemma first_missing_none (mi : MultiIndex) (level : nat) (items : list label) :
  first_missing mi level items = None <->
  forall item, In item items -> isin_any mi item level = true.
Proof.
  induction items as [|x items IH]; simpl.
  - split; [intros _ ? []|reflexivity].
  - destruct (isin_any mi x level) eqn:E.
    + rewrite IH. split.
      * intros H item [<-|Hin]; auto.
      * intros H item Hin. apply H. now right.
    + split; [discriminate|]. intros H. specialize (H x (or_introl eq_refl)).
      congruence.
Qed.

Lemma first_missing_some (mi : MultiIndex) (level : nat) (items : list label)
      (msg : string) :
  first_missing mi level items = Some msg ->
  exists item, In item items /\ isin_any mi item level = false
               /\ msg = message mi item level.
Proof.
  induction items as [|x items IH]; simpl; [discriminate|].
  destruct (isin_any mi x level) eqn:E.
  - intros H. destruct (IH H) as (item & Hin & Hm & ->). exists item. auto.
  - intros [= <-]. exists x. auto.
Qed.

Lemma identify_from_none (level : nat) (key : list key_item) (mi : MultiIndex) :
  identify_from level key mi = None <->
  forall pos k item, nth_error key pos = Some k -> In item (items_of k) ->
                     isin_any mi item (level + pos) = true.
Proof.
  revert level. induction key as [|k key IH]; intros level; simpl.
  - split; [intros _ [|?] ? ? H; discriminate H|reflexivity].
  - destruct (first_missing mi level (items_of k)) as [msg|] eqn:E.
    + split; [discriminate|]. intros H.
      destruct (first_missing_some _ _ _ E) as (item & Hin & Hm & _).
      specialize (H 0%nat k item eq_refl Hin). rewrite Nat.add_0_r in H.
      congruence.
    + rewrite first_missing_none in E. rewrite IH. split.
      * intros H [|pos] k' item Hk Hin; simpl in Hk.
        -- injection Hk as <-. rewrite Nat.add_0_r. now apply E.
        -- rewrite Nat.add_succ_r. now apply (H pos k').
      * intros H pos k' item Hk Hin.
        specialize (H (S pos) k' item Hk Hin). now rewrite Nat.add_succ_r in H.
Qed.

Lemma identify_from_some (level : nat) (key : list key_item) (mi : MultiIndex)
      (msg : string) :
  identify_from level key mi = Some msg ->
  exists pos k item, nth_error key pos = Some k /\ In item (items_of k)
                     /\ isin_any mi item (level + pos) = false
                     /\ msg = message mi item (level + pos).
Proof.
  revert level. induction key as [|k key IH]; intros level; simpl;
    [discriminate|].
  destruct (first_missing mi level (items_of k)) as [m|] eqn:E.
  - intros [= <-]. destruct (first_missing_some _ _ _ E) as (item & Hin & Hm & ->).
    exists 0%nat, k, item. rewrite Nat.add_0_r. auto.
  - intros H. destruct (IH _ H) as (pos & k' & item & Hk & Hin & Hm & ->).
    exists (S pos), k', item. rewrite Nat.add_succ_r. auto.
Qed.

Lemma first_missing_first (mi : MultiIndex) (level : nat) (items : list label)
      (msg : string) :
  first_missing mi level items = Some msg ->
  exists pre item post,
    items = (pre ++ item :: post)%list
    /\ isin_any mi item level = false
    /\ msg = message mi item level
    /\ forall x, In x pre -> isin_any mi x level = true.
Proof.
  induction items as [|x items IH]; simpl; [discriminate|].
  destruct (isin_any mi x level) eqn:E.
  - intros H. destruct (IH H) as (pre & item & post & -> & Hm & -> & Hpre).
    exists (x :: pre), item, post.
    split; [reflexivity|]. split; [exact Hm|]. split; [reflexivity|].
    intros y [<-|Hy]; auto.
  - intros [= <-]. exists [], x, items.
    split; [reflexivity|]. split; [exact E|]. split; [reflexivity|].
    intros y [].
Qed.

Lemma identify_from_first (level : nat) (key : list key_item) (mi : MultiIndex)
      (msg : string) :
  identify_from level key mi = Some msg ->
  exists pos k pre item post,
    nth_error key pos = Some k
    /\ items_of k = (pre ++ item :: post)%list
    /\ isin_any mi item (level + pos) = false
    /\ msg = message mi item (level + pos)
    /\ (forall x, In x pre -> isin_any mi x (level + pos) = true)
    /\ (forall pos' k' x, (pos' < pos)%nat -> nth_error key pos' = Some k' ->
                          In x (items_of k') ->
                          isin_any mi x (level + pos') = true).
Proof.
  revert level. induction key as [|k key IH]; intros level; simpl;
    [discriminate|].
  destruct (first_missing mi level (items_of k)) as [m|] eqn:E.
  - intros [= <-].
    destruct (first_missing_first _ _ _ E) as (pre & item & post & Hk & Hm & -> & Hpre).
    exists 0%nat, k, pre, item, post. rewrite Nat.add_0_r.
    split; [reflexivity|]. split; [exact Hk|]. split; [exact Hm|].
    split; [reflexivity|]. split; [exact Hpre|].
    intros pos' k' x Hlt. lia.
  - intros H.
    destruct (IH _ H) as (pos & k' & pre & item & post & Hk & Hi & Hm & -> & Hpre & Hbefore).
    exists (S pos), k', pre, item, post. rewrite Nat.add_succ_r.
    split; [exact Hk|]. split; [exact Hi|]. split; [exact Hm|].
    split; [reflexivity|]. split; [exact Hpre|].
    intros [|pos'] k'' x Hlt Hk'' Hx; simpl in Hk''.
    + injection Hk'' as <-. rewrite Nat.add_0_r.
      now apply (proj1 (first_missing_none mi level (items_of k)) E).
    + rewrite Nat.add_succ_r. apply (Hbefore pos' k'' x); [lia|assumption..].
Qed.

Section Protected.

Variable Frame : Type.
Variable loc : DataFrame -> key_item -> list key_item -> option Frame.

Lemma protected_diagnoses (frame : DataFrame) (keys : key_item * list key_item) :
  diagnoses loc frame keys (_protected loc frame keys).
Proof.
  unfold diagnoses, _protected, _identify_key_error.
  destruct (loc frame (fst keys) (snd keys)) as [res|].
  - split; [discriminate|]. split.
    + intros ? _ (pos & item & k & Hk & Hin & Hm).
      destruct (identify_from 0 (snd keys) (columns frame)) as [msg|] eqn:E.
      * destruct (identify_from_first _ _ _ E)
          as (p & k' & pre & it & post & Hk' & Hit & Hm' & -> & Hpre & Hbefore).
        exists p, it. split; [|reflexivity]. now exists k', pre, post.
      * rewrite identify_from_none in E.
        specialize (E pos k item Hk Hin). simpl in E. congruence.
    + intros ? [= <-] Hnone.
      destruct (identify_from 0 (snd keys) (columns frame)) as [msg|] eqn:E;
        [|reflexivity].
      destruct (identify_from_some _ _ _ E) as (p & k' & it & Hk' & Hin' & Hm' & _).
      exfalso. apply (Hnone p it). now exists k'.
  - split; [reflexivity|]. split; discriminate.
Qed.

(** C9, amended. Each of the four retrieval calls behaves as follows.  If
    pandas' own lookup raises KeyError, the call raises a KeyError with an
    empty message.  If the lookup returns and some item asked for in the
    column key (dataset, feature configuration, metric, run) is in no tuple
    of the column index at its level, the call raises a KeyError whose
    message names the first such item and the name of its level: first by
    position in the key, then by place in the list given at that position,
    so that everything asked for before it is in the index.  Otherwise the
    call returns the selection.  The method is the row key and is not
    checked. *)
Theorem retrieval_diagnoses_column_keys
        (s : DataHandler) (dataset method n_features metric sample : arg) :
  diagnoses loc (reg_data s)
            (_make_key dataset method n_features (Some metric) None (Some sample))
            (get_regression_data loc s dataset method n_features metric sample)
  /\ diagnoses loc (selection_data s)
               (_make_key dataset method n_features None None (Some sample))
               (get_selection_data loc s dataset method n_features sample)
  /\ diagnoses loc (stab_data s)
               (_make_key dataset method n_features None (Some metric) None)
               (get_stability_data loc s dataset method n_features metric)
  /\ diagnoses loc (measurement_data s)
               (_make_key dataset method n_features None None (Some sample))
               (get_measurement_data loc s dataset method n_features sample).
Proof.
  repeat split; apply protected_diagnoses.
Qed.

(** The method is only the row key: whatever pandas does, a call never
    raises a KeyError with a message when all it asks for in the columns is
    there. *)
Lemma missing_method_never_named (frame : DataFrame)
      (keys : key_item * list key_item) (msg : string) :
  (forall pos item, ~ missing_in (snd keys) (columns frame) pos item) ->
  _protected loc frame keys = Raise (KeyError msg) -> msg = ""%string.
Proof.
  intros Hnone. destruct (protected_diagnoses frame keys) as (Hraise & _ & Hok).
  destruct (loc frame (fst keys) (snd keys)) as [res|] eqn:E.
  - rewrite (Hok res eq_refl Hnone). discriminate.
  - rewrite (Hraise eq_refl). now intros [= <-].
Qed.

End Protected.

End DataHandlingFacts.

(** *** Retrieval on a small store *)

Example missing_dataset_message :
  DataHandling.get_regression_data DataHandling.lenient_loc
    DataHandling.small_store
    (DataHandling.Scalar (DataHandling.Str "wheat"))
    DataHandling.PyNone (DataHandling.Scalar (DataHandling.Int 12))
    DataHandling.PyNone DataHandling.PyNone
  = Raise (KeyError "Item wheat not present in level dataset").
Proof. vm_compute. reflexivity. Qed.

Example missing_feature_configuration_message :
  DataHandling.get_stability_data DataHandling.lenient_loc
    DataHandling.small_store
    (DataHandling.Scalar (DataHandling.Str "corn"))
    DataHandling.PyNone (DataHandling.Scalar (DataHandling.Tuple 2 10))
    DataHandling.PyNone
  = Raise (KeyError "Item (2, 10) not present in level n_features").
Proof. vm_compute. reflexivity. Qed.

Lemma retrieval_diagnoses_column_keys_witness :
  DataHandling.reports_missing
    (DataHandling.get_selection_data DataHandling.lenient_loc
       DataHandling.small_store
       (DataHandling.Scalar (DataHandling.Str "wheat")) DataHandling.PyNone
       DataHandling.PyNone (DataHandling.Scalar (DataHandling.Int 5)))
    (snd (DataHandling._make_key
            (DataHandling.Scalar (DataHandling.Str "wheat"))
            DataHandling.PyNone DataHandling.PyNone None None
            (Some (DataHandling.Scalar (DataHandling.Int 5)))))
    (DataHandling.columns (DataHandling.selection_data DataHandling.small_store)).
Proof.
  destruct (@DataHandlingFacts.retrieval_diagnoses_column_keys unit
              DataHandling.lenient_loc DataHandling.small_store
              (DataHandling.Scalar (DataHandling.Str "wheat"))
              DataHandling.PyNone DataHandling.PyNone
              DataHandling.PyNone (DataHandling.Scalar (DataHandling.Int 5)))
    as (_ & (_ & Hmissing & _) & _).
  apply (Hmissing tt).
  - reflexivity.
  - exists 2%nat, (DataHandling.Int 5), (DataHandling.one (DataHandling.Int 5)).
    repeat split. now left.
Defined.

(** Two items of that call are missing, the dataset wheat and the run 5:
    the message names the dataset, which comes first in the key. *)
Example first_missing_item_named :
  DataHandling.get_selection_data DataHandling.lenient_loc
    DataHandling.small_store
    (DataHandling.Scalar (DataHandling.Str "wheat")) DataHandling.PyNone
    DataHandling.PyNone (DataHandling.Scalar (DataHandling.Int 5))
  = Raise (KeyError "Item wheat not present in level dataset").
Proof. vm_compute. reflexivity. Qed.

(** C9 as stated fails.  The method PLS is not in the store: when pandas
    raises for the missing row, the call raises a KeyError with an empty
    message; when pandas returns, the call returns, since the method is not
    among the keys that are checked.  And a run of -1, which is not in the
    run level, is taken for a keyword that was not passed and raises
    nothing. *)
Lemma retrieval_missing_method_unnamed :
  existsb (DataHandling.label_eqb (DataHandling.Str "PLS"))
          (DataHandling.index (DataHandling.reg_data DataHandling.small_store))
  = false
  /\ DataHandling.get_regression_data DataHandling.strict_rows_loc
       DataHandling.small_store DataHandling.PyNone
       (DataHandling.Scalar (DataHandling.Str "PLS"))
       DataHandling.PyNone DataHandling.PyNone DataHandling.PyNone
     = Raise (KeyError "")
  /\ DataHandling.get_regression_data DataHandling.lenient_loc
       DataHandling.small_store DataHandling.PyNone
       (DataHandling.Scalar (DataHandling.Str "PLS"))
       DataHandling.PyNone DataHandling.PyNone DataHandling.PyNone
     = Ok tt
  /\ DataHandling.isin_any
       (DataHandling.columns (DataHandling.reg_data DataHandling.small_store))
       (DataHandling.Int (-1)) 3
     = false
  /\ DataHandling.get_regression_data DataHandling.lenient_loc
       DataHandling.small_store DataHandling.PyNone DataHandling.PyNone
       DataHandling.PyNone DataHandling.PyNone
       (DataHandling.Scalar (DataHandling.Int (-1)))
     = Ok tt.
Proof. vm_compute. repeat split. Qed.

(** * Further properties of the code *)

(** ** The sampler: shape and certain features *)

Lemma map_all_false (A : Type) (f : A -> bool) (l : list A) :
  (forall x, In x l -> f x = false) -> map f l = repeat false (List.length l).
Proof.
  induction l as [|x l IH]; intros H; [reflexivity|]. simpl.
  rewrite (H x) by now left. f_equal. apply IH. intros; apply H; now right.
Qed.

(** A row whose number of appearances is at least the float of the number
    of columns is all true: the floats of the column numbers do not exceed
    it. *)
Lemma bsm_row_full (n : nat) (a : Z) :
  (Np.float (Z.of_nat n) <= inject_Z a)%Q -> bsm_row n a = repeat true n.
Proof.
  intros Ha. unfold bsm_row.
  replace (repeat true n) with (repeat true (List.length (seq 1 n)))
    by now rewrite length_seq.
  apply map_all_true.
  intros j Hj. apply in_seq in Hj. apply Qle_bool_iff.
  eapply Qle_trans; [|exact Ha]. apply float_mono. lia.
Qed.

Lemma bsm_row_none (n : nat) : bsm_row n 0 = repeat false n.
Proof.
  unfold bsm_row.
  replace (repeat false n) with (repeat false (List.length (seq 1 n)))
    by now rewrite length_seq.
  apply map_all_false.
  intros j Hj. apply in_seq in Hj.
  apply not_true_iff_false. rewrite Qle_bool_iff. apply Qlt_not_le.
  apply Qlt_le_trans with (Np.float (Z.of_nat 1)); [reflexivity|].
  apply float_mono. lia.
Qed.

Lemma take_constant (b : bool) (n : nat) (idx : list nat) :
  Permutation idx (seq 0 n) -> Np.take false (repeat b n) idx = repeat b n.
Proof.
  intros P.
  assert (H : forall k, In k idx -> nth k (repeat b n) false = b).
  { intros k Hk. apply (Permutation_in _ P), in_seq in Hk.
    apply nth_repeat_lt. lia. }
  assert (E : Np.take false (repeat b n) idx = repeat b (List.length idx)).
  { clear P. unfold Np.take. induction idx as [|k idx IH]; [reflexivity|].
    simpl. rewrite (H k) by now left. f_equal. apply IH.
    intros; apply H; now right. }
  now rewrite E, (Permutation_length P), length_seq.
Qed.

Section SamplerShape.

Context {R : Type} {RS : RandomState R} {NS : NumpySort}.

(** Row [i] of the matrix returned is the row built from the appearances of
    feature [i], read along a permutation of the column indices. *)
Lemma produce_submodels_row (var_weights : list Q) (n_submodels : nat)
      (random_state : R) (i : nat) (w : Q) :
  nth_error var_weights i = Some w ->
  exists rp,
    Permutation rp (seq 0 n_submodels)
    /\ nth_error (snd (_produce_submodels var_weights n_submodels random_state)) i
       = Some (Np.take false
                 (bsm_row n_submodels
                    (Np.round
                       (Np.double (w * Np.float (Z.of_nat n_submodels)))))
                 rp).
Proof.
  intros Hi. unfold _produce_submodels.
  pose proof (shuffle_perm random_state
                (seq 0 (n_submodels * List.length var_weights))) as Hperm.
  destruct (shuffle random_state _) as [r p]. simpl in Hperm |- *.
  assert (Hlen : List.length p = (n_submodels * List.length var_weights)%nat).
  { rewrite <- (Permutation_length Hperm). apply length_seq. }
  destruct (nth_error (row_permutations (List.length var_weights) n_submodels p) i)
    as [rp|] eqn:Hrp.
  - exists rp. split.
    + eapply row_permutations_perm; [exact Hlen|]. eapply nth_error_In, Hrp.
    + apply permute_rows_nth; [|exact Hrp].
      unfold initial_bsm, appearances. rewrite !nth_error_map, Hi. reflexivity.
  - apply nth_error_None in Hrp. rewrite row_permutations_length in Hrp.
    assert (i < List.length var_weights)%nat
      by (apply nth_error_Some; congruence).
    lia.
Qed.

(** X1. The matrix [_produce_submodels] returns has one row for each weight
    and [n_submodels] entries in every row, whatever the weights and the
    generator. *)
Theorem produce_submodels_shape (var_weights : list Q) (n_submodels : nat)
        (random_state : R) :
  let bsm := snd (_produce_submodels var_weights n_submodels random_state) in
  List.length bsm = List.length var_weights
  /\ Forall (fun row => List.length row = n_submodels) bsm.
Proof.
  split; [apply produce_submodels_length|].
  apply Forall_forall. intros row Hrow.
  destruct (In_nth_error _ _ Hrow) as [i Hi].
  assert (Hlt : (i < List.length var_weights)%nat).
  { rewrite <- (produce_submodels_length var_weights n_submodels random_state).
    apply nth_error_Some. congruence. }
  destruct (nth_error var_weights i) as [w|] eqn:Hw;
    [|apply nth_error_None in Hw; lia].
  destruct (@produce_submodels_row var_weights n_submodels random_state i w Hw)
    as (rp & P & E).
  rewrite E in Hi. injection Hi as <-.
  unfold Np.take. rewrite length_map, (Permutation_length P). apply length_seq.
Qed.

(** X2. A feature of weight 1 is in every submodel and a feature of weight 0
    is in none: its row of the sampling matrix is all true, respectively all
    false. *)
Theorem produce_submodels_certain_rows (var_weights : list Q)
        (n_submodels : nat) (random_state : R) (i : nat) (w : Q) :
  nth_error var_weights i = Some w ->
  let bsm := snd (_produce_submodels var_weights n_submodels random_state) in
  ((w == 1)%Q -> nth_error bsm i = Some (repeat true n_submodels))
  /\ ((w == 0)%Q -> nth_error bsm i = Some (repeat false n_submodels)).
Proof.
  intros Hw bsm.
  destruct (@produce_submodels_row var_weights n_submodels random_state i w Hw)
    as (rp & P & E).
  fold bsm in E. split; intros Hv; rewrite E; f_equal.
  - destruct (float_of_nat_integer n_submodels) as [z Hz].
    assert (D : (Np.double (w * Np.float (Z.of_nat n_submodels))
                 == inject_Z z)%Q).
    { rewrite (@double_proper _ (Np.float (Z.of_nat n_submodels)))
        by (rewrite Hv; ring).
      unfold Np.float at 1. rewrite double_idempotent; [exact Hz|].
      change 0%Q with (inject_Z 0). rewrite <- Zle_Qle. lia. }
    rewrite (round_integer D), bsm_row_full.
    + now apply take_constant.
    + rewrite Hz. apply Qle_refl.
  - rewrite (@double_proper _ 0%Q) by (rewrite Hv; ring).
    change (Np.round (Np.double 0)) with 0%Z.
    rewrite bsm_row_none. now apply take_constant.
Qed.

End SamplerShape.

Lemma produce_submodels_certain_rows_witness :
  let bsm := snd (@_produce_submodels _ (scripted Concrete.no_script)
                    stable_numpy [1; 1 # 2; 0]%Q 4 []) in
  ((1 == 1)%Q -> nth_error bsm 0 = Some (repeat true 4))
  /\ ((1 == 0)%Q -> nth_error bsm 0 = Some (repeat false 4)).
Proof.
  apply (@produce_submodels_certain_rows _ (scripted Concrete.no_script)
           stable_numpy [1; 1 # 2; 0]%Q 4%nat [] 0%nat 1%Q).
  reflexivity.
Defined.

(** ** Refinement and fit: the weights stay in the unit interval *)

Lemma bind_ok_inv {A B} (r : result A) (k : A -> result B) (v : B) :
  bind r k = Ok v -> exists a, r = Ok a /\ k a = Ok v.
Proof. destruct r as [a|e]; simpl; [eauto|discriminate]. Qed.

Lemma unzip_pairs_ok {A B} (pairs : list (A * B)) (xs : list A) (ys : list B) :
  unzip_pairs pairs = Ok (xs, ys) ->
  xs = map fst pairs /\ ys = map snd pairs /\ pairs <> [].
Proof.
  destruct pairs as [|p pairs]; simpl; [discriminate|].
  intros [= <- <-]. repeat split. discriminate.
Qed.

Lemma count_true_le_length (l : list bool) :
  (Np.count_true l <= List.length l)%nat.
Proof. unfold Np.count_true. apply filter_length_le. Qed.

Lemma frequency_unit (c q : nat) :
  (c <= q)%nat ->
  unit_weight (Np.double (Np.float (Z.of_nat c) / Np.float (Z.of_nat q))).
Proof.
  intros Hc. destruct q as [|q].
  - replace c with 0%nat by lia. split; discriminate.
  - assert (Hq : (0 < Np.float (Z.of_nat (S q)))%Q).
    { apply Qlt_le_trans with (Np.float (Z.of_nat 1)); [reflexivity|].
      apply float_mono. lia. }
    pose proof (float_nonneg c) as C0.
    pose proof (float_mono Hc) as Cq.
    assert (L : (0 <= Np.float (Z.of_nat c) / Np.float (Z.of_nat (S q)))%Q).
    { apply Qle_shift_div_l; [exact Hq|]. now rewrite Qmult_0_l. }
    assert (U : (Np.float (Z.of_nat c) / Np.float (Z.of_nat (S q)) <= 1)%Q).
    { apply Qle_shift_div_r; [exact Hq|]. now rewrite Qmult_1_l. }
    split.
    + now apply double_nonneg.
    + change 1%Q with (Np.double 1). now apply double_mono.
Qed.

Lemma top_frequencies_unit (bsm : list (list bool)) (top : list nat) (q : nat) :
  (List.length top <= q)%nat -> Forall unit_weight (top_frequencies bsm top q).
Proof.
  intros Hq. unfold top_frequencies. apply Forall_forall. intros v Hv.
  apply in_map_iff in Hv. destruct Hv as (row & <- & _).
  apply frequency_unit.
  eapply Nat.le_trans; [apply count_true_le_length|].
  unfold Np.take. now rewrite length_map.
Qed.

Section UnitWeights.

Context {R : Type} {RS : RandomState R} {NS : NumpySort}.
Variable n_features : nat.
Variable cv_score : list nat -> result Q.

Lemma refinement_loop_unit (iters n_self n q : nat) (vw : list Q) (rs : R)
      (best : Q) (best_w : option (list Q)) (s : Q) (w : list Q) :
  (forall w0, best_w = Some w0 -> Forall unit_weight w0) ->
  outcome (refinement_loop n_features cv_score iters n_self vw n rs q best best_w)
  = Ok (s, Some w) ->
  Forall unit_weight w.
Proof.
  revert rs best best_w. induction iters as [|i IH]; intros rs best best_w Hb.
  - simpl. intros [= _ E]. now apply Hb.
  - cbn [refinement_loop].
    destruct (_produce_submodels vw n rs) as [rs' bsm].
    destruct (bind _ _) as [[top_scores top_models]|e] eqn:Top; [|discriminate].
    destruct (Qltb _ _); cbn [outcome].
    + apply IH. intros w0 [= <-]. apply top_frequencies_unit.
      apply bind_ok_inv in Top. destruct Top as (subs & _ & Hz).
      apply unzip_pairs_ok in Hz. destruct Hz as (_ & -> & _).
      rewrite length_map, length_firstn. lia.
    + intros [= _ E]. now apply Hb.
Qed.

(** X3. The weights [_yield_best_weights] returns, when it returns some, are
    as many as the weights it was given, and each lies in [0, 1]: they can be
    fed to the sampler again. *)
Theorem yield_best_weights_unit_weights (n_self n q : nat) (vw : list Q)
        (rs : R) (s : Q) (w : list Q) :
  outcome (_yield_best_weights n_features cv_score n_self vw n rs q)
  = Ok (s, Some w) ->
  List.length w = List.length vw /\ Forall unit_weight w.
Proof.
  intros H. split.
  - exact (yield_best_weights_length _ _ _ _ _ _ _ H).
  - eapply refinement_loop_unit; [|exact H]. discriminate.
Qed.

Lemma convergence_loop_unit (fuel n_subs q k : nat) (ts : Q) (tw : list Q)
      (rs : R) (c : convergence) (x : loop_exit) :
  Forall unit_weight tw ->
  convergence_loop n_features cv_score fuel n_subs q k ts tw rs = Some c ->
  exit c = Ok x ->
  Forall unit_weight (top_var_weights x)
  /\ forall w, var_weights x = Some w -> Forall unit_weight w.
Proof.
  revert ts tw rs c. induction fuel as [|f IH]; intros ts tw rs c Htw;
    [discriminate|].
  cbn [convergence_loop].
  pose proof (fun s w =>
                @refinement_loop_unit 5 n_subs n_subs q tw rs sentinel None s w
                  ltac:(discriminate)) as U.
  fold (_yield_best_weights n_features cv_score n_subs tw n_subs rs q) in U.
  destruct (outcome _) as [[score [w|]]|e].
  - specialize (U score w eq_refl). destruct (Qltb ts score).
    + destruct (k <=? n_certain n_subs w)%nat.
      * intros [= <-]. cbn [exit]. intros [= <-]. cbn. split; [exact U|].
        now intros ? [= <-].
      * destruct (convergence_loop _ _ f _ _ _ _ _ _) as [c'|] eqn:E;
          [|discriminate].
        intros [= <-]. cbn [add_event exit]. eapply IH; [|exact E]. exact U.
    + intros [= <-]. cbn [exit]. intros [= <-]. cbn. split; [exact Htw|].
      now intros ? [= <-].
  - destruct (Qltb ts score).
    + intros [= <-]. discriminate.
    + intros [= <-]. cbn [exit]. intros [= <-]. cbn. split; [exact Htw|].
      discriminate.
  - intros [= <-]. discriminate.
Qed.

Lemma convergence_loop_ascends (fuel n_subs q k : nat) (ts : Q) (tw : list Q)
      (rs : R) (c : convergence) :
  convergence_loop n_features cv_score fuel n_subs q k ts tw rs = Some c ->
  ascends ts (history c) /\ history c <> [].
Proof.
  revert ts tw rs c. induction fuel as [|f IH]; intros ts tw rs c;
    [discriminate|].
  cbn [convergence_loop].
  destruct (outcome _) as [[score [w|]]|e].
  - destruct (Qltb ts score) eqn:Cmp.
    + apply Qltb_lt in Cmp. destruct (k <=? n_certain n_subs w)%nat.
      * intros [= <-]. cbn. repeat split; [exact Cmp|discriminate].
      * destruct (convergence_loop _ _ f _ _ _ _ _ _) as [c'|] eqn:E;
          [|discriminate].
        intros [= <-]. cbn [add_event history ascends].
        destruct (IH _ _ _ _ E) as [A _]. repeat split; [exact Cmp|exact A|].
        discriminate.
    + apply Qltb_ge in Cmp. intros [= <-]. cbn.
      repeat split; [exact Cmp|discriminate].
  - destruct (Qltb ts score) eqn:Cmp; intros [= <-]; cbn.
    + split; [reflexivity|discriminate].
    + apply Qltb_ge in Cmp. repeat split; [exact Cmp|discriminate].
  - intros [= <-]. cbn. split; [reflexivity|discriminate].
Qed.

(** [_fit] once its loop has returned, by cases on how the loop was left. *)
Ltac open_fit Hc Hx :=
  unfold _fit;
  destruct (convergence_loop _ _ _ _ _ _ _ _ _) as [c|] eqn:Hc; [|discriminate];
  destruct (release_random_state _ _ _) as [rs' global'];
  destruct (exit c) as [x|err] eqn:Hx;
  [destruct (var_weights x) as [w_last|] eqn:Hlast|].

(** X4. The history of a fit is never empty; the scores of its accepted
    rounds increase strictly, the first lying above the sentinel -1e7, and a
    rejected round, whose score does not exceed the best so far, or a round
    that raised, is its last entry. *)
Theorem fit_history_ascends (self : VISSA R) (global : R) (fuel : nat)
        (e : VISSA R) (g : R) (hist : list outer_event) (res : result unit) :
  _fit n_features cv_score self global fuel = Some (e, g, hist, res) ->
  ascends sentinel hist /\ hist <> [].
Proof.
  open_fit Hc Hx; intros [= <- <- <- <-];
    exact (convergence_loop_ascends _ _ _ _ _ _ _ Hc).
Qed.

(** X6. After a fit that returned, [weights_] holds one weight for each
    feature, each in [0, 1]. *)
Theorem fit_weights_unit (self : VISSA R) (global : R) (fuel : nat)
        (e : VISSA R) (g : R) (hist : list outer_event) :
  _fit n_features cv_score self global fuel = Some (e, g, hist, Ok tt) ->
  exists w, weights_ e = Some (Some w)
            /\ List.length w = n_features /\ Forall unit_weight w.
Proof.
  open_fit Hc Hx; intros [= <- <- <-].
  edestruct convergence_loop_lengths as [_ L];
    [apply repeat_length|exact Hc|exact Hx|].
  edestruct convergence_loop_unit as [_ U]; [|exact Hc|exact Hx|].
  { apply Forall_forall. intros v Hv. apply repeat_spec in Hv. subst v.
    split; discriminate. }
  exists w_last. cbn [weights_ with_attributes]. auto.
Qed.

End UnitWeights.

(** ** A fit on data no submodel predicts *)

Lemma sorted_insert_In {A} (key : A -> Q) (x y : A) (l : list A) :
  In y (sorted_insert key x l) -> y = x \/ In y l.
Proof.
  induction l as [|z l IH]; simpl.
  - intros [<-|[]]. now left.
  - destruct (Qle_bool _ _); simpl.
    + intros [<-|[<-|H]]; auto.
    + intros [<-|H]; auto. destruct (IH H); auto.
Qed.

Lemma sorted_In {A} (key : A -> Q) (y : A) (l : list A) :
  In y (sorted key l) -> In y l.
Proof.
  induction l as [|x l IH]; simpl; [auto|].
  intros H. apply sorted_insert_In in H. destruct H as [<-|H]; auto.
Qed.

Lemma firstn_subset {A} (n : nat) (l : list A) (x : A) :
  In x (firstn n l) -> In x l.
Proof.
  intros H. rewrite <- (firstn_skipn n l). apply in_or_app. now left.
Qed.

Lemma for_each_In {A B} (f : A -> result B) (l : list A) (ys : list B) (y : B) :
  for_each f l = Ok ys -> In y ys -> exists x, In x l /\ f x = Ok y.
Proof.
  revert ys. induction l as [|x l IH]; intros ys; simpl.
  - intros [= <-] [].
  - destruct (f x) as [y0|e] eqn:Fx; [|discriminate]. simpl.
    destruct (for_each f l) as [ys'|e]; [|discriminate]. simpl.
    intros [= <-] [<-|Hy].
    + exists x. auto.
    + destruct (IH ys' eq_refl Hy) as (x' & Hx' & E). exists x'. auto.
Qed.

Lemma sum_le (l : list Q) (s : Q) :
  (forall x, In x l -> (x <= s)%Q) ->
  (Np.sum l <= s * inject_Z (Z.of_nat (List.length l)))%Q.
Proof.
  induction l as [|x l IH]; intros H.
  - simpl. rewrite Qmult_0_r. apply Qle_refl.
  - cbn [Np.sum fold_right List.length]. fold (Np.sum l).
    rewrite Nat2Z.inj_succ. unfold Z.succ. rewrite inject_Z_plus.
    assert (Hx : (x <= s)%Q) by (apply H; now left).
    assert (Hl : (Np.sum l <= s * inject_Z (Z.of_nat (List.length l)))%Q)
      by (apply IH; intros; apply H; now right).
    change (inject_Z 1) with 1%Q. lra.
Qed.

Lemma mean_le (l : list Q) (s : Q) :
  l <> [] -> (forall x, In x l -> (x <= s)%Q) -> (Np.mean l <= s)%Q.
Proof.
  intros Hne H. unfold Np.mean. apply Qle_shift_div_r.
  - change 0%Q with (inject_Z 0). rewrite <- Zlt_Qlt.
    destruct l; [congruence|]. simpl. lia.
  - now apply sum_le.
Qed.

Section Hopeless.

Context {R : Type} {RS : RandomState R} {NS : NumpySort}.
Variable n_features : nat.
Variable cv_score : list nat -> result Q.

Hypothesis hopeless : forall columns, scores_at_most cv_score columns sentinel.

Lemma hopeless_returns : always_returns cv_score.
Proof. intros columns. destruct (hopeless columns) as (s & Hs & _). eauto. Qed.

Lemma evaluate_submodels_scores (n shape1 : nat) (bsm : list (list bool))
      (submodels : list (Q * nat)) (p : Q * nat) :
  _evaluate_submodels n_features cv_score n shape1 bsm = Ok submodels ->
  In p submodels -> (fst p <= sentinel)%Q.
Proof.
  unfold _evaluate_submodels. intros H Hp.
  destruct (for_each_In _ _ _ H Hp) as (i & _ & E).
  destruct (masked_columns _ _ _ _) as [cols|e]; [|discriminate].
  cbn [bind] in E. unfold _evaluate in E.
  destruct (hopeless cols) as (s & Hs & Hle). rewrite Hs in E.
  cbn [bind] in E. injection E as <-. exact Hle.
Qed.

Lemma refinement_stalls_at_once (iters n q : nat) (vw : list Q) (rs : R) :
  (1 <= q <= n)%nat ->
  List.length vw = n_features ->
  outcome (refinement_loop n_features cv_score (S iters) n vw n rs q sentinel None)
  = Ok (sentinel, None).
Proof.
  intros Hq Hvw. cbn [refinement_loop].
  pose proof (produce_submodels_length vw n rs) as L.
  destruct (_produce_submodels vw n rs) as [rs' bsm]. simpl in L.
  destruct (@evaluate_submodels_ok n_features cv_score n bsm) as [subs Hs];
    [exact hopeless_returns|congruence|].
  rewrite Hs. cbn [bind].
  assert (Hlen : (1 <= List.length (firstn q (sorted (fun x => (- fst x)%Q) subs)))%nat).
  { rewrite top_quantile_length, (evaluate_submodels_length _ _ _ _ _ Hs). lia. }
  rewrite unzip_pairs_nonempty by exact Hlen.
  assert (Hmean : (Np.mean (map fst (firstn q (sorted (fun x => (- fst x)%Q) subs)))
                   <= sentinel)%Q).
  { apply mean_le.
    - intros E. apply (f_equal (@List.length _)) in E.
      rewrite length_map in E. simpl in E. lia.
    - intros x Hx. apply in_map_iff in Hx. destruct Hx as (p & <- & Hp).
      eapply evaluate_submodels_scores; [exact Hs|].
      eapply sorted_In, firstn_subset, Hp. }
  apply Qltb_ge in Hmean. rewrite Hmean. reflexivity.
Qed.

(** X5. When every submodel of the data has a score and none scores above
    -1e7 (every mean squared error is at least 1e7), [_yield_best_weights]
    returns None for the
    weights, the first round of the fit is rejected, and the fit raises
    TypeError on negating None, leaving [weights_] set to None and
    [support_] to an all-false mask. *)
Theorem fit_raises_on_hopeless_scores (self : VISSA R) (global : R)
        (fuel : nat) :
  (20 <= n_submodels self)%nat ->
  exists e g,
    _fit n_features cv_score self global (S fuel)
    = Some (e, g, [Rejected sentinel None], Raise TypeError)
    /\ weights_ e = Some None
    /\ support_ e = Some (repeat false n_features).
Proof.
  intros Hn.
  assert (Hq : (1 <= selection_quantile_of (n_submodels self)
                <= n_submodels self)%nat).
  { unfold selection_quantile_of. split.
    - apply Nat.div_le_lower_bound; lia.
    - apply Nat.Div0.div_le_upper_bound. lia. }
  unfold _fit. cbn [convergence_loop]. unfold _yield_best_weights.
  rewrite (@refinement_stalls_at_once 4 (n_submodels self)
             (selection_quantile_of (n_submodels self))
             (repeat (1 # 2)%Q n_features)
             (check_random_state (random_state self) global)
             Hq (repeat_length _ _)).
  assert (Cmp : Qltb sentinel sentinel = false)
    by (apply Qltb_ge, Qle_refl).
  rewrite Cmp.
  destruct (release_random_state _ _ _) as [rs' global'].
  cbn. eauto.
Qed.

End Hopeless.

Lemma fit_raises_on_hopeless_scores_witness :
  exists e g,
    @_fit _ (scripted Concrete.no_script) stable_numpy 2 Concrete.cv_huge
          Concrete.two_features [] 1
    = Some (e, g, [Rejected sentinel None], Raise TypeError)
    /\ weights_ e = Some None
    /\ support_ e = Some (repeat false 2).
Proof.
  apply (@fit_raises_on_hopeless_scores _ (scripted Concrete.no_script)
           stable_numpy 2%nat Concrete.cv_huge).
  - intros columns. eexists. split; [reflexivity|].
    unfold sentinel, Qle. simpl. lia.
  - simpl. lia.
Defined.

Lemma yield_best_weights_unit_weights_witness :
  List.length [1 # 2; 1 # 2; 1 # 2]%Q = List.length [1 # 2; 1 # 2; 1 # 2]%Q
  /\ Forall unit_weight [1 # 2; 1 # 2; 1 # 2]%Q.
Proof.
  apply (@yield_best_weights_unit_weights _ (scripted Concrete.book)
           stable_numpy 3%nat Concrete.cv_three 40%nat 40%nat 2%nat
           [1 # 2; 1 # 2; 1 # 2]%Q (Concrete.book 0) (-4 # 2)%Q
           [1 # 2; 1 # 2; 1 # 2]%Q).
  vm_compute. reflexivity.
Defined.

Lemma fit_history_ascends_witness :
  exists e g hist res,
    @_fit _ (scripted Concrete.book) stable_numpy 3 Concrete.cv_three
          Concrete.three_features [] 5 = Some (e, g, hist, res)
    /\ (ascends sentinel hist /\ hist <> []).
Proof.
  do 4 eexists. split.
  - vm_compute. reflexivity.
  - eapply (@fit_history_ascends _ (scripted Concrete.book) stable_numpy 3%nat
              Concrete.cv_three Concrete.three_features [] 5%nat).
    vm_compute. reflexivity.
Defined.

Lemma fit_weights_unit_witness :
  exists e g hist,
    @_fit _ (scripted Concrete.book) stable_numpy 3 Concrete.cv_three
          Concrete.three_features [] 5 = Some (e, g, hist, Ok tt)
    /\ exists w, weights_ e = Some (Some w)
                 /\ List.length w = 3%nat /\ Forall unit_weight w.
Proof.
  do 3 eexists. split.
  - vm_compute. reflexivity.
  - eapply (@fit_weights_unit _ (scripted Concrete.book) stable_numpy 3%nat
              Concrete.cv_three Concrete.three_features [] 5%nat).
    vm_compute. reflexivity.
Defined.

(** ** The fit terminates *)

Lemma all_masks_complete (m : list bool) : In m (all_masks (List.length m)).
Proof.
  induction m as [|b m IH]; simpl; [now left|].
  apply in_flat_map. exists m. split; [exact IH|].
  destruct b; simpl; auto.
Qed.

Lemma tuples_complete {A} (vs : list A) (t : list A) :
  (forall x, In x t -> In x vs) -> In t (tuples vs (List.length t)).
Proof.
  induction t as [|x t IH]; intros H; simpl; [now left|].
  apply in_flat_map. exists t. split.
  - apply IH. intros y Hy. apply H. now right.
  - apply (in_map (fun v => v :: t)). apply H. now left.
Qed.

Lemma rising_above (best : Q) (l : list Q) (y : Q) :
  rising best l -> In y l -> (best < y)%Q.
Proof.
  revert best. induction l as [|x t IH]; intros best; simpl; [intros _ []|].
  intros [Hx Ht] [<-|Hy]; [exact Hx|].
  eapply Qlt_trans; [exact Hx|]. now apply IH.
Qed.

Lemma rising_NoDup (best : Q) (l : list Q) : rising best l -> NoDup l.
Proof.
  revert best. induction l as [|x t IH]; intros best; simpl; [constructor|].
  intros [_ Ht]. constructor; [|now apply (IH x)].
  intros Hin. apply (Qlt_irrefl x). now apply (@rising_above x t x).
Qed.

Section Termination.

Context {R : Type} {RS : RandomState R} {NS : NumpySort}.
Variable n_features : nat.
Variable cv_score : list nat -> result Q.

(** A submodel that was evaluated has the score of a mask over the columns
    of X. *)
Lemma evaluate_submodels_reachable (n shape1 : nat) (bsm : list (list bool))
      (submodels : list (Q * nat)) (p : Q * nat) :
  _evaluate_submodels n_features cv_score n shape1 bsm = Ok submodels ->
  In p submodels ->
  In (fst p) (flat_map (score_of_mask cv_score) (all_masks n_features)).
Proof.
  unfold _evaluate_submodels. intros H Hp.
  destruct (for_each_In _ _ _ H Hp) as (i & _ & E).
  unfold masked_columns in E.
  destruct (i <? shape1)%nat; [|discriminate].
  destruct (Nat.eqb_spec (List.length bsm) n_features) as [Hb|]; [|discriminate].
  cbn [bind] in E. unfold _evaluate in E.
  destruct (cv_score (Np.nonzero (Np.column bsm i))) as [s|e] eqn:Cv;
    [|discriminate].
  cbn [bind] in E. injection E as <-. cbn [fst].
  apply in_flat_map. exists (Np.column bsm i). split.
  - rewrite <- Hb.
    replace (List.length bsm) with (List.length (Np.column bsm i))
      by (unfold Np.column; apply length_map).
    apply all_masks_complete.
  - unfold score_of_mask. rewrite Cv. now left.
Qed.

Lemma refinement_loop_reachable (iters n q : nat) (vw : list Q) (rs : R)
      (best : Q) (best_w : option (list Q)) (s : Q) (w : option (list Q)) :
  outcome (refinement_loop n_features cv_score iters n vw n rs q best best_w)
  = Ok (s, w) ->
  s = best \/ In s (reachable_scores n_features cv_score (Nat.min q n)).
Proof.
  revert rs best best_w. induction iters as [|i IH]; intros rs best best_w.
  - simpl. intros [= <- _]. now left.
  - cbn [refinement_loop].
    destruct (_produce_submodels vw n rs) as [rs' bsm].
    destruct (bind _ _) as [[top_scores top_models]|e] eqn:Top; [|discriminate].
    destruct (Qltb _ _); cbn [outcome].
    + intros H. destruct (IH _ _ _ H) as [->|Hin]; [|now right].
      right. apply bind_ok_inv in Top. destruct Top as (subs & Hs & Hz).
      apply unzip_pairs_ok in Hz. destruct Hz as (-> & _ & _).
      unfold reachable_scores. apply in_map.
      rewrite <- (evaluate_submodels_length _ _ _ _ _ Hs).
      rewrite <- (top_quantile_length q subs), <- (length_map fst).
      apply tuples_complete. intros x Hx.
      apply in_map_iff in Hx. destruct Hx as (p & <- & Hp).
      eapply evaluate_submodels_reachable; [exact Hs|].
      eapply sorted_In, firstn_subset, Hp.
    + intros [= <- _]. now left.
Qed.

(** If [fuel] passes do not end the loop, each of them accepted a round, and
    their scores rise strictly among the reachable ones. *)
Lemma convergence_loop_unfinished (fuel n_subs q k : nat) (ts : Q)
      (tw : list Q) (rs : R) :
  (sentinel <= ts)%Q ->
  convergence_loop n_features cv_score fuel n_subs q k ts tw rs = None ->
  exists chain,
    List.length chain = fuel /\ rising ts chain
    /\ incl chain (reachable_scores n_features cv_score (Nat.min q n_subs)).
Proof.
  revert ts tw rs. induction fuel as [|f IH]; intros ts tw rs Hts.
  - intros _. exists []. repeat split. intros x [].
  - cbn [convergence_loop].
    pose proof (fun s w =>
                  @refinement_loop_reachable 5 n_subs q tw rs sentinel None s w)
      as Reach.
    fold (_yield_best_weights n_features cv_score n_subs tw n_subs rs q) in Reach.
    destruct (outcome _) as [[score [w|]]|e]; [| |discriminate].
    + specialize (Reach score (Some w) eq_refl).
      destruct (Qltb ts score) eqn:Cmp; [|discriminate].
      destruct (k <=? n_certain n_subs w)%nat; [discriminate|].
      destruct (convergence_loop _ _ f _ _ _ _ _ _) as [c'|] eqn:E;
        [discriminate|].
      intros _. apply Qltb_lt in Cmp.
      destruct (IH score w (rng_after
                  (_yield_best_weights n_features cv_score n_subs tw n_subs rs q)))
        as (chain & Hlen & Hrise & Hincl).
      { eapply Qle_trans; [exact Hts|]. now apply Qlt_le_weak. }
      { exact E. }
      exists (score :: chain). repeat split; simpl; auto.
      intros x [<-|Hx]; [|now apply Hincl].
      destruct Reach as [->|Hin]; [|exact Hin].
      exfalso. apply (Qlt_irrefl sentinel).
      eapply Qle_lt_trans; eassumption.
    + destruct (Qltb ts score); discriminate.
Qed.

(** X7. The loop of the fit ends: on every data set and for every estimator
    and generator there is a number of passes within which [_fit] returns or
    raises.  The accepted scores rise strictly and are means of scores of
    submodels, of which a data set with finitely many columns has finitely
    many. *)
Theorem fit_terminates (self : VISSA R) (global : R) :
  exists fuel e g hist res,
    _fit n_features cv_score self global fuel = Some (e, g, hist, res).
Proof.
  set (q := selection_quantile_of (n_submodels self)).
  set (bound := List.length (reachable_scores n_features cv_score
                               (Nat.min q (n_submodels self)))).
  exists (S bound). unfold _fit. fold q.
  destruct (convergence_loop _ _ (S bound) _ _ _ _ _ _) as [c|] eqn:Hc.
  - destruct (release_random_state _ _ _) as [rs' global'].
    destruct (exit c) as [x|err]; [destruct (var_weights x)|]; eauto.
  - exfalso.
    edestruct convergence_loop_unfinished as (chain & Hlen & Hrise & Hincl);
      [apply Qle_refl|exact Hc|].
    pose proof (NoDup_incl_length (@rising_NoDup _ _ Hrise) Hincl) as Hle.
    fold bound in Hle. lia.
Qed.

End Termination.

(** ** iVISSA: newly selected features *)

Module IntervalGrowthFacts.
Import IntervalGrowth.

Lemma nonzero_from_In (k : nat) (mask : list bool) (i : nat) :
  In i (Np.nonzero_from k mask) <->
  (k <= i)%nat /\ nth_error mask (i - k) = Some true.
Proof.
  revert k. induction mask as [|b mask IH]; intros k; simpl.
  - split; [intros []|]. intros [_ H]. destruct (i - k)%nat; discriminate.
  - assert (Step : (In i (Np.nonzero_from (S k) mask)) <->
                   (k < i)%nat /\ nth_error mask (i - S k) = Some true)
      by (rewrite IH; reflexivity).
    destruct b; simpl; rewrite ?Step.
    + split.
      * intros [<-|[Hlt H]].
        -- rewrite Nat.sub_diag. auto.
        -- split; [lia|]. replace (i - k)%nat with (S (i - S k)) by lia. exact H.
      * intros [Hle H]. destruct (Nat.eq_dec k i) as [->|Hne]; [now left|].
        right. split; [lia|].
        replace (i - k)%nat with (S (i - S k)) in H by lia. exact H.
    + split.
      * intros [Hlt H]. split; [lia|].
        replace (i - k)%nat with (S (i - S k)) by lia. exact H.
      * intros [Hle H]. destruct (Nat.eq_dec k i) as [->|Hne].
        -- rewrite Nat.sub_diag in H. discriminate.
        -- split; [lia|].
           replace (i - k)%nat with (S (i - S k)) in H by lia. exact H.
Qed.

Lemma nonzero_from_sorted (k : nat) (mask : list bool) :
  StronglySorted lt (Np.nonzero_from k mask).
Proof.
  revert k. induction mask as [|b mask IH]; intros k; simpl; [constructor|].
  destruct b; [|apply IH]. constructor; [apply IH|].
  apply Forall_forall. intros i Hi. apply nonzero_from_In in Hi. lia.
Qed.

Lemma selected_In (threshold : Q) (var_weights : list Q) (i : nat) :
  In i (selected threshold var_weights) <->
  exists w, nth_error var_weights i = Some w /\ (threshold <= w)%Q.
Proof.
  unfold selected, Np.nonzero. rewrite nonzero_from_In, Nat.sub_0_r.
  rewrite nth_error_map. split.
  - intros [_ H]. destruct (nth_error var_weights i) as [w|]; [|discriminate].
    exists w. split; [reflexivity|]. apply Qle_bool_iff. now injection H.
  - intros (w & -> & Hw). split; [lia|]. simpl. f_equal.
    now apply Qle_bool_iff.
Qed.

Lemma insert_unique_In (x y : nat) (l : list nat) :
  In y (insert_unique x l) <-> y = x \/ In y l.
Proof.
  induction l as [|z l IH]; simpl; [intuition|].
  destruct (Nat.ltb_spec x z); simpl; [intuition|].
  destruct (Nat.eqb_spec x z); simpl; [subst; intuition|].
  rewrite IH. intuition.
Qed.

Lemma unique_In (y : nat) (l : list nat) : In y (unique l) <-> In y l.
Proof.
  induction l as [|x l IH]; simpl; [reflexivity|].
  rewrite insert_unique_In, IH. intuition.
Qed.

Lemma insert_unique_sorted (x : nat) (l : list nat) :
  StronglySorted lt l -> StronglySorted lt (insert_unique x l).
Proof.
  induction 1 as [|z l S IH F]; simpl; [repeat constructor|].
  destruct (Nat.ltb_spec x z).
  - constructor; [now constructor|]. constructor; [exact H|].
    eapply Forall_impl; [|exact F]. intros; lia.
  - destruct (Nat.eqb_spec x z); [now constructor|].
    constructor; [exact IH|]. apply Forall_forall. intros y Hy.
    apply insert_unique_In in Hy. rewrite Forall_forall in F.
    destruct Hy as [->|Hy]; [lia|now apply F].
Qed.

Lemma unique_sorted (l : list nat) : StronglySorted lt (unique l).
Proof.
  induction l as [|x l IH]; simpl; [constructor|].
  now apply insert_unique_sorted.
Qed.

Lemma filter_sorted (f : nat -> bool) (l : list nat) :
  StronglySorted lt l -> StronglySorted lt (filter f l).
Proof.
  induction 1 as [|x l S IH F]; simpl; [constructor|].
  destruct (f x); [|exact IH]. constructor; [exact IH|].
  apply Forall_forall. intros y Hy. apply filter_In in Hy.
  rewrite Forall_forall in F. now apply F.
Qed.

Lemma setdiff1d_In (ar1 ar2 : list nat) (y : nat) :
  In y (setdiff1d ar1 ar2) <-> In y ar1 /\ ~ In y ar2.
Proof.
  unfold setdiff1d. rewrite filter_In, unique_In, negb_true_iff.
  rewrite <- not_true_iff_false, member_spec, unique_In. reflexivity.
Qed.

(** X8. With at least one submodel, [_newly_selected] returns the indices of
    the features whose new weight is at or above the certainty threshold
    and, second, those of them whose previous weight was not: both in
    increasing order.  With zero submodels the threshold divides by zero. *)
Theorem newly_selected_spec (var_weights next_var_weights : list Q)
        (n_submodels : nat) :
  (n_submodels = 0%nat ->
   _newly_selected var_weights next_var_weights n_submodels
   = Throws ZeroDivisionError)
  /\ (n_submodels <> 0%nat ->
      exists features new_features,
        _newly_selected var_weights next_var_weights n_submodels
        = Returns (features, new_features)
        /\ StronglySorted lt features /\ StronglySorted lt new_features
        /\ (forall i, In i features <->
                      exists w, nth_error next_var_weights i = Some w
                                /\ (certainty n_submodels <= w)%Q)
        /\ (forall i, In i new_features <->
                      In i features
                      /\ ~ exists w, nth_error var_weights i = Some w
                                     /\ (certainty n_submodels <= w)%Q)).
Proof.
  unfold _newly_selected, threshold_of. split.
  - intros ->. reflexivity.
  - intros Hn. apply Nat.eqb_neq in Hn. rewrite Hn.
    fold (certainty n_submodels).
    eexists. eexists. split; [reflexivity|].
    split; [apply nonzero_from_sorted|].
    split; [apply filter_sorted, unique_sorted|].
    split.
    + intros i. apply selected_In.
    + intros i. rewrite setdiff1d_In, (selected_In _ var_weights). reflexivity.
Qed.

End IntervalGrowthFacts.

(** ** iVISSA: what an expansion keeps, and that it ends *)

Module ExpansionFacts.
Import IVISSA.

(** What an expansion may change: the score only rises, features are only
    appended, and weights are only set to 1. *)
Definition extends (l l' : locals) : Prop :=
  (score l <= score l')%Q
  /\ (exists added, features l' = features l ++ added)
  /\ Forall2 (fun a b => b = a \/ b = 1%Q) (var_weights l) (var_weights l').

(** The size of the room left for the two borders. *)
Definition room (l : locals) : nat :=
  (Z.to_nat (nth 0 (borders l) 0%Z + 1)
   + Z.to_nat (Z.of_nat (List.length (var_weights l)) - nth 1 (borders l) 0%Z))%nat.

Definition two_borders (l : locals) : Prop :=
  exists b0 b1, borders l = [b0; b1].

Lemma Forall2_same (w : list Q) : Forall2 (fun a b => b = a \/ b = 1%Q) w w.
Proof. induction w; constructor; auto. Qed.

Lemma Forall2_setitem (w : list Q) (k : nat) :
  Forall2 (fun a b => b = a \/ b = 1%Q) w (setitem w k 1%Q).
Proof.
  revert k. induction w as [|x w IH]; intros [|k]; simpl; constructor; auto.
  apply Forall2_same.
Qed.

Lemma Forall2_chain (u v w : list Q) :
  Forall2 (fun a b => b = a \/ b = 1%Q) u v ->
  Forall2 (fun a b => b = a \/ b = 1%Q) v w ->
  Forall2 (fun a b => b = a \/ b = 1%Q) u w.
Proof.
  intros H. revert w. induction H as [|a b u v Hab _ IH]; intros w Hw;
    inversion Hw as [|b' c v' w' Hbc Hrest]; subst; constructor;
    [|now apply IH].
  destruct Hbc as [-> | ->]; [exact Hab|now right].
Qed.

Lemma extends_refl (l : locals) : extends l l.
Proof.
  repeat split; [apply Qle_refl| |apply Forall2_same].
  exists []. now rewrite app_nil_r.
Qed.

Lemma extends_trans (a b c : locals) : extends a b -> extends b c -> extends a c.
Proof.
  intros (S1 & (x & F1) & W1) (S2 & (y & F2) & W2). repeat split.
  - eapply Qle_trans; eassumption.
  - exists (x ++ y). now rewrite F2, F1, app_assoc.
  - eapply Forall2_chain; eassumption.
Qed.

Lemma resolve_index_below (len : nat) (i : Z) (k : nat) :
  resolve_index len i = Ok k -> (i < Z.of_nat len)%Z.
Proof.
  unfold resolve_index.
  destruct (Z.leb_spec 0 i), (Z.ltb_spec i (Z.of_nat len)),
    (Z.leb_spec (- Z.of_nat len) i), (Z.ltb_spec i 0);
    simpl; intros; try lia; discriminate.
Qed.

Section Probe.

Variable n_features : nat.
Variable cv_score : list nat -> result Q.
Variable threshold : Q.

(** A probe leaves the variables alone, or it moves the border of its side
    outwards and records progress: the probed neighbour passed the bounds
    test and is an index into the weight vector; it was absorbed, or added
    with a strictly better score and its weight set to 1. *)
Lemma probe_ok (l l' : locals) :
  probe n_features cv_score threshold l = Ok l' ->
  l' = l
  \/ (let b := nth (index l) (borders l) 0%Z in
      (nth (index l) (limits n_features) 0%Z <= b)%Z
      /\ (exists k, resolve_index (List.length (var_weights l)) b = Ok k
                    /\ ((var_weights l' = var_weights l /\ score l' = score l
                         /\ features l' = features l)
                        \/ (var_weights l' = setitem (var_weights l) k 1%Q
                            /\ (score l < score l')%Q
                            /\ features l' = features l ++ [b])))
      /\ borders l' = set_border (borders l) (index l) (b + direction (index l))
      /\ index l' = index l /\ progress l' = true).
Proof.
  unfold probe.
  destruct (Z.leb_spec (nth (index l) (limits n_features) 0%Z)
                       (nth (index l) (borders l) 0%Z)) as [Hg|Hg];
    [|intros [= <-]; now left].
  unfold getitem.
  destruct (resolve_index _ _) as [k|e] eqn:Hk; [|discriminate]. cbn [bind].
  destruct (Qle_bool threshold _).
  - intros [= <-]. right. cbn. split; [exact Hg|].
    split; [|auto]. exists k. split; [reflexivity|]. left. auto.
  - destruct (select_columns _ _) as [cols|e]; [|discriminate]. cbn [bind].
    destruct (_evaluate cv_score cols tt) as [evaluated|e]; [|discriminate].
    cbn [bind].
    destruct (Qltb _ _) eqn:Cmp; [|intros [= <-]; now left].
    apply Qltb_lt in Cmp. intros [= <-]. right. cbn. split; [exact Hg|].
    split; [|auto]. exists k. split; [reflexivity|]. right. auto.
Qed.

Lemma probe_extends (l l' : locals) :
  probe n_features cv_score threshold l = Ok l' -> extends l l'.
Proof.
  intros H. destruct (probe_ok _ H) as [->|(_ & (k & _ & Hc) & _)];
    [apply extends_refl|].
  destruct Hc as [(W & S & F)|(W & S & F)]; unfold extends; rewrite W, F.
  - rewrite S. repeat split; [apply Qle_refl| |apply Forall2_same].
    exists []. now rewrite app_nil_r.
  - repeat split; [now apply Qlt_le_weak|eauto|apply Forall2_setitem].
Qed.

Lemma probe_room (l l' : locals) :
  two_borders l -> (index l = 0 \/ index l = 1)%nat ->
  probe n_features cv_score threshold l = Ok l' ->
  two_borders l' /\ index l' = index l
  /\ (l' = l \/ ((room l' < room l)%nat /\ progress l' = true)).
Proof.
  intros (b0 & b1 & Hb) Hi H.
  destruct (probe_ok _ H) as [->|(Hg & (k & Hk & Hc) & Hb' & Hi' & Hp)].
  { split; [now exists b0, b1|]. split; [reflexivity|now left]. }
  assert (Hlen : List.length (var_weights l') = List.length (var_weights l)).
  { destruct Hc as [(-> & _)|(-> & _)]; [reflexivity|apply IVISSAFacts.setitem_length]. }
  apply resolve_index_below in Hk.
  rewrite Hb in Hb', Hg, Hk. unfold room. rewrite Hlen, Hb', Hb.
  destruct Hi as [Hi|Hi]; rewrite Hi in *; cbn in *.
  - split; [now exists (b0 + -1)%Z, b1|]. split; [exact Hi'|]. right.
    split; [lia|exact Hp].
  - split; [now exists b0, (b1 + 1)%Z|]. split; [exact Hi'|]. right.
    split; [lia|exact Hp].
Qed.

Lemma expand_extends (fuel : nat) (l l' : locals) :
  expand n_features cv_score fuel threshold l = Some (Ok l') -> extends l l'.
Proof.
  revert l. induction fuel as [|f IH]; intros l; [discriminate|].
  cbn [expand].
  destruct (probe _ _ _ l) as [l1|e] eqn:P; [|discriminate].
  apply probe_extends in P.
  destruct (_ && _)%bool.
  - intros [= <-]. exact P.
  - intros H. apply IH in H. eapply extends_trans; [exact P|].
    destruct H as (S & F & W). repeat split; assumption.
Qed.

(** The variables at the start of the next pass. *)
Definition next_pass (l : locals) : locals :=
  {| var_weights := var_weights l; score := score l; features := features l;
     borders := borders l;
     index := (index l + 1) mod 2;
     progress := if (index l =? 1)%nat then false else progress l |}.

Lemma expand_step (fuel : nat) (l : locals) :
  expand n_features cv_score (S fuel) threshold l
  = match probe n_features cv_score threshold l with
    | Raise e => Some (Raise e)
    | Ok l1 =>
        if ((index l1 =? 1)%nat && negb (progress l1))%bool then Some (Ok l1)
        else expand n_features cv_score fuel threshold (next_pass l1)
    end.
Proof. reflexivity. Qed.

(** Every two passes, one to each side, the loop ends or the room left for
    the borders shrinks; so it ends. *)
Lemma expand_ends (potential : nat) (l : locals) :
  two_borders l -> index l = 0%nat ->
  (2 * room l + (if progress l then 1 else 0) <= potential)%nat ->
  exists r, expand n_features cv_score (2 * S potential) threshold l = Some r.
Proof.
  revert l. induction potential as [|p IH]; intros l Hb Hi Hpot.
  - replace (2 * 1)%nat with 2%nat by reflexivity.
    rewrite expand_step.
    destruct (probe _ _ _ l) as [l1|e] eqn:P1; [|eauto].
    destruct (probe_room Hb (or_introl Hi) P1) as (Hb1 & Hi1 & C1).
    rewrite Hi1, Hi. cbn [Nat.eqb andb]. rewrite expand_step.
    destruct (probe _ _ _ (next_pass l1)) as [l2|e] eqn:P2; [|eauto].
    assert (Hn1 : index (next_pass l1) = 1%nat)
      by (unfold next_pass; cbn; now rewrite Hi1, Hi).
    destruct (@probe_room (next_pass l1) l2 Hb1 (or_intror Hn1) P2)
      as (Hb2 & Hi2 & C2).
    rewrite Hi2, Hn1. cbn [Nat.eqb andb].
    destruct (progress l2) eqn:Pr2; cbn [negb]; [|eauto].
    exfalso.
    assert (Hr1 : room (next_pass l1) = room l1) by reflexivity.
    assert (Hp1 : progress (next_pass l1) = progress l1)
      by (unfold next_pass; cbn; now rewrite Hi1, Hi).
    destruct C2 as [->|[Hlt _]].
    + rewrite Hp1 in Pr2. destruct C1 as [->|[Hlt1 _]].
      * rewrite Pr2 in Hpot. lia.
      * lia.
    + rewrite Hr1 in Hlt. destruct C1 as [->|[Hlt1 _]]; lia.
  - replace (2 * S (S p))%nat with (S (S (2 * S p))) by lia.
    rewrite expand_step.
    destruct (probe _ _ _ l) as [l1|e] eqn:P1; [|eauto].
    destruct (probe_room Hb (or_introl Hi) P1) as (Hb1 & Hi1 & C1).
    rewrite Hi1, Hi. cbn [Nat.eqb andb]. rewrite expand_step.
    destruct (probe _ _ _ (next_pass l1)) as [l2|e] eqn:P2; [|eauto].
    assert (Hn1 : index (next_pass l1) = 1%nat)
      by (unfold next_pass; cbn; now rewrite Hi1, Hi).
    destruct (@probe_room (next_pass l1) l2 Hb1 (or_intror Hn1) P2)
      as (Hb2 & Hi2 & C2).
    rewrite Hi2, Hn1. cbn [Nat.eqb andb].
    destruct (progress l2) eqn:Pr2; cbn [negb]; [|eauto].
    assert (Hr1 : room (next_pass l1) = room l1) by reflexivity.
    assert (Hp1 : progress (next_pass l1) = progress l1)
      by (unfold next_pass; cbn; now rewrite Hi1, Hi).
    apply IH.
    + exact Hb2.
    + unfold next_pass. cbn. now rewrite Hi2, Hn1.
    + assert (Hr2 : room (next_pass l2) = room l2) by reflexivity.
      assert (Hp2 : progress (next_pass l2) = false)
        by (unfold next_pass; cbn; now rewrite Hi2, Hn1).
      rewrite Hr2, Hp2.
      destruct C2 as [->|[Hlt _]].
      * rewrite Hp1 in Pr2. rewrite Hr1. destruct C1 as [->|[Hlt1 _]].
        -- rewrite Pr2 in Hpot. lia.
        -- lia.
      * rewrite Hr1 in Hlt. destruct C1 as [->|[Hlt1 _]]; lia.
Qed.

(** A probe whose neighbour is outside the bounds test, or is below the
    threshold and does not improve the score, changes nothing. *)
Lemma probe_rejects (l : locals) :
  let b := nth (index l) (borders l) 0%Z in
  (b < nth (index l) (limits n_features) 0%Z)%Z
  \/ ((0 <= b < Z.of_nat (List.length (var_weights l)))%Z
      /\ Qle_bool threshold (nth (Z.to_nat b) (var_weights l) 0%Q) = false
      /\ Forall (fun c => (0 <= c < Z.of_nat n_features)%Z) (features l ++ [b])
      /\ scores_at_most cv_score (map Z.to_nat (features l ++ [b])) (score l)) ->
  probe n_features cv_score threshold l = Ok l.
Proof.
  intros b H. unfold probe. fold b.
  destruct (Z.leb_spec (nth (index l) (limits n_features) 0%Z) b) as [Hg|Hg];
    [|reflexivity].
  destruct H as [H|(Hb & Hw & Hf & (cv_mean & Hcv & Hs))]; [lia|].
  unfold getitem. rewrite IVISSAFacts.resolve_index_inside by exact Hb.
  cbn [bind]. rewrite Hw.
  rewrite (@IVISSAFacts.select_columns_exact _ _ Hf). cbn [bind].
  unfold _evaluate. rewrite Hcv. cbn [bind fst].
  apply Qltb_ge in Hs. now rewrite Hs.
Qed.

End Probe.

End ExpansionFacts.

Section GrowthTheorems.

Variable n_features : nat.
Variable cv_score : list nat -> result Q.

(** X9. When [_expand_interval] returns, the score it returns is not below
    the score it was given, the features it returns are those it was given
    followed by the ones it added, and the weight vector differs from the
    one it was given only in entries set to 1. *)
Theorem expand_interval_keeps
        (fuel : nat) (w : list Q) (s : Q) (features : IntervalGrowth.sequence)
        (new_feature : Z) (n_submodels : nat)
        (fs' : list Z) (s' : Q) (w' : list Q) :
  IntervalGrowth._expand_interval n_features cv_score fuel w s features
                                  new_feature n_submodels
  = Some (Returns (fs', s', w')) ->
  exists fs,
    features = IntervalGrowth.ndarray fs
    /\ (s <= s')%Q
    /\ (exists added, fs' = fs ++ added)
    /\ Forall2 (fun a b => b = a \/ b = 1%Q) w w'.
Proof.
  unfold IntervalGrowth._expand_interval.
  destruct (IntervalGrowth.threshold_of n_submodels); [|discriminate].
  destruct features as [fs|fs]; cbn [IntervalGrowth.tolist]; [|discriminate].
  unfold IVISSA.expansion.
  destruct (IVISSA.expand _ _ _ _ _) as [[l|e]|] eqn:E; cbn; try discriminate.
  intros [= <- <- <-]. apply ExpansionFacts.expand_extends in E.
  destruct E as (Hs & Hf & Hw). exists fs. auto.
Qed.

(** X10. [_expand_interval] ends: for every input there is a number of
    passes within which it returns or raises.  A border moves only towards
    the end of the weight vector on its side, and after a pass to each side
    without a move the loop is left. *)
Theorem expand_interval_terminates
        (w : list Q) (s : Q) (features : IntervalGrowth.sequence)
        (new_feature : Z) (n_submodels : nat) :
  exists fuel r,
    IntervalGrowth._expand_interval n_features cv_score fuel w s features
                                    new_feature n_submodels = Some r.
Proof.
  unfold IntervalGrowth._expand_interval.
  destruct (IntervalGrowth.threshold_of n_submodels) as [thr|e];
    [|exists 0%nat; eauto].
  destruct features as [fs|fs]; cbn [IntervalGrowth.tolist];
    [|exists 0%nat; eauto].
  unfold IVISSA.expansion.
  set (l0 := {| IVISSA.var_weights := w; IVISSA.score := s;
                IVISSA.features := fs;
                IVISSA.borders := [(new_feature - 1)%Z; (new_feature + 1)%Z];
                IVISSA.index := 0; IVISSA.progress := true |}).
  destruct (@ExpansionFacts.expand_ends n_features cv_score thr
              (2 * ExpansionFacts.room l0 + 1) l0) as [r Hr].
  - now exists (new_feature - 1)%Z, (new_feature + 1)%Z.
  - reflexivity.
  - cbn [IVISSA.progress l0]. lia.
  - exists (2 * S (2 * ExpansionFacts.room l0 + 1))%nat.
    rewrite Hr. destruct r; cbn; eauto.
Qed.

(** X11. An expansion around a feature whose neighbours do not qualify
    changes nothing: if the right neighbour exists, is below the threshold
    and is evaluated to a score that does not improve on the current one,
    and the left neighbour either does not exist (the feature is the first
    one) or is below the threshold and likewise does not improve the score,
    [_expand_interval] returns the features, the score and the weights it
    was given, after four passes.  Around the first
    feature this holds whatever the weight and the score of the last
    feature, which the index -1 would denote in numpy. *)
Theorem expand_interval_nothing_to_add
        (fuel : nat) (w : list Q) (s : Q) (fs : list Z) (k : nat)
        (n_submodels : nat) :
  n_submodels <> 0%nat ->
  List.length w = n_features ->
  (k + 1 < n_features)%nat ->
  Forall (fun c => (0 <= c < Z.of_nat n_features)%Z) fs ->
  Qle_bool (certainty n_submodels) (nth (k + 1) w 0%Q) = false ->
  scores_at_most cv_score (map Z.to_nat (fs ++ [Z.of_nat (k + 1)])) s ->
  (k = 0%nat
   \/ (Qle_bool (certainty n_submodels) (nth (k - 1) w 0%Q) = false
       /\ scores_at_most cv_score
            (map Z.to_nat (fs ++ [Z.of_nat (k - 1)])) s)) ->
  IntervalGrowth._expand_interval n_features cv_score (4 + fuel) w s
                                  (IntervalGrowth.ndarray fs) (Z.of_nat k)
                                  n_submodels
  = Some (Returns (fs, s, w)).
Proof.
  intros Hn Hw Hk Hfs Hrw Hrs Hleft.
  unfold IntervalGrowth._expand_interval, IntervalGrowth.threshold_of.
  apply Nat.eqb_neq in Hn. rewrite Hn. cbn [IntervalGrowth.tolist].
  unfold IVISSA.expansion.
  set (st := fun (i : nat) (p : bool) =>
               {| IVISSA.var_weights := w; IVISSA.score := s;
                  IVISSA.features := fs;
                  IVISSA.borders := [(Z.of_nat k - 1)%Z; (Z.of_nat k + 1)%Z];
                  IVISSA.index := i; IVISSA.progress := p |}).
  change (IVISSA.expand n_features cv_score (4 + fuel) (certainty n_submodels)
            {| IVISSA.var_weights := w; IVISSA.score := s;
               IVISSA.features := fs;
               IVISSA.borders := [(Z.of_nat k - 1)%Z; (Z.of_nat k + 1)%Z];
               IVISSA.index := 0; IVISSA.progress := true |})
    with (IVISSA.expand n_features cv_score (S (S (S (S fuel))))
            (certainty n_submodels) (st 0%nat true)).
  assert (Probe : forall i p,
             (i = 0 \/ i = 1)%nat ->
             IVISSA.probe n_features cv_score (certainty n_submodels) (st i p)
             = Ok (st i p)).
  { intros i p [-> | ->]; apply ExpansionFacts.probe_rejects; cbn.
    - destruct Hleft as [->|[Hlw Hls]]; [left; lia|].
      destruct (Nat.eq_dec k 0) as [->|Hk0]; [left; lia|].
      right. replace (Z.of_nat k - 1)%Z with (Z.of_nat (k - 1)) by lia.
      rewrite Nat2Z.id. repeat split; try lia; try assumption.
      apply Forall_app. split; [exact Hfs|]. constructor; [lia|constructor].
    - right. replace (Z.of_nat k + 1)%Z with (Z.of_nat (k + 1)) by lia.
      rewrite Nat2Z.id. repeat split; try lia; try assumption.
      apply Forall_app. split; [exact Hfs|]. constructor; [lia|constructor]. }
  assert (Pass : forall f i p,
             (i = 0 \/ i = 1)%nat ->
             IVISSA.expand n_features cv_score (S f) (certainty n_submodels)
                           (st i p)
             = if ((i =? 1)%nat && negb p)%bool then Some (Ok (st i p))
               else IVISSA.expand n_features cv_score f (certainty n_submodels)
                      (st ((i + 1) mod 2)
                          (if (i =? 1)%nat then false else p))).
  { intros f i p Hi. rewrite ExpansionFacts.expand_step, Probe by exact Hi.
    reflexivity. }
  change (4 + fuel)%nat with (S (S (S (S fuel)))).
  rewrite !Pass by auto. cbn. reflexivity.
Qed.

(** With two or more features to expand around, the loop of
    [_grow_intervals] ends as the first expansion does if that raises, and
    with AttributeError on [tolist] otherwise. *)
Lemma grow_second_expansion (fuel : nat) (a b : nat) (rest : list nat)
      (w : list Q) (s : Q) (fs : list Z) (n_submodels thr : _) :
  IntervalGrowth.threshold_of n_submodels = Returns thr ->
  IntervalGrowth.grow n_features cv_score fuel (a :: b :: rest) w s
                      (IntervalGrowth.ndarray fs) n_submodels
  = match IntervalGrowth._expand_interval n_features cv_score fuel w s
            (IntervalGrowth.ndarray fs) (Z.of_nat a) n_submodels with
    | None => None
    | Some (Throws e) => Some (Throws e)
    | Some (Returns _) => Some (Throws (AttributeError "tolist"))
    end.
Proof.
  intros Hthr. simpl.
  destruct (IntervalGrowth._expand_interval _ _ _ _ _ _ _ _)
    as [[[[fs' s'] w']|e]|]; try reflexivity.
  unfold IntervalGrowth._expand_interval. rewrite Hthr. reflexivity.
Qed.

(** X12. [_grow_intervals] cannot return when two or more features are newly
    selected: the first expansion gets the features as an array and hands
    back a list, and the second calls [tolist] on that list.  The call ends
    as the first expansion does if that raises, and with AttributeError
    otherwise.  With no newly selected feature it returns the weights and
    the score it was given. *)
Theorem grow_intervals_second_expansion
        (fuel : nat) (var_weights next_var_weights : list Q) (score : Q)
        (n_submodels : nat) (features new_features : list nat) :
  IntervalGrowth._newly_selected var_weights next_var_weights n_submodels
  = Returns (features, new_features) ->
  (new_features = [] ->
   IntervalGrowth._grow_intervals n_features cv_score fuel var_weights
                                  next_var_weights score n_submodels
   = Some (Returns (next_var_weights, score)))
  /\ ((2 <= List.length new_features)%nat ->
      IntervalGrowth._grow_intervals n_features cv_score fuel var_weights
                                     next_var_weights score n_submodels
      = match IntervalGrowth._expand_interval n_features cv_score fuel
                next_var_weights score
                (IntervalGrowth.ndarray (map Z.of_nat features))
                (Z.of_nat (hd 0%nat new_features)) n_submodels with
        | None => None
        | Some (Throws e) => Some (Throws e)
        | Some (Returns _) => Some (Throws (AttributeError "tolist"))
        end).
Proof.
  intros Hsel.
  assert (Hthr : exists thr, IntervalGrowth.threshold_of n_submodels = Returns thr).
  { unfold IntervalGrowth._newly_selected in Hsel.
    destruct (IntervalGrowth.threshold_of n_submodels); [eauto|discriminate]. }
  destruct Hthr as [thr Hthr].
  unfold IntervalGrowth._grow_intervals. rewrite Hsel. split.
  - intros ->. reflexivity.
  - destruct new_features as [|a [|b rest]]; simpl List.length; try lia.
    intros _. now apply grow_second_expansion with (thr := thr).
Qed.

End GrowthTheorems.

(** ** iVISSA: the fit stops at the second newly selected feature *)

Lemma half_below_certainty (n_submodels : nat) :
  (2 <= n_submodels)%nat -> Qle_bool (certainty n_submodels) (1 # 2) = false.
Proof.
  intros Hn. apply not_true_iff_false. rewrite Qle_bool_iff. apply Qlt_not_le.
  unfold certainty.
  assert (H2 : (2 <= inject_Z (Z.of_nat n_submodels))%Q).
  { change 2%Q with (inject_Z 2). rewrite <- Zle_Qle. lia. }
  apply Qlt_shift_div_l; lra.
Qed.

Lemma nonzero_from_none (k n : nat) : Np.nonzero_from k (repeat false n) = [].
Proof. revert k. induction n as [|n IH]; intros k; simpl; auto. Qed.

Lemma selected_half (n_submodels n : nat) :
  (2 <= n_submodels)%nat ->
  IntervalGrowth.selected (certainty n_submodels) (repeat (1 # 2)%Q n) = [].
Proof.
  intros Hn. unfold IntervalGrowth.selected, Np.nonzero.
  rewrite map_repeat, half_below_certainty by exact Hn.
  apply nonzero_from_none.
Qed.

Lemma unique_of_sorted (l : list nat) :
  StronglySorted lt l -> IntervalGrowth.unique l = l.
Proof.
  induction 1 as [|x l S IH F]; simpl; [reflexivity|]. rewrite IH.
  destruct l as [|y l]; [reflexivity|]. simpl.
  inversion F as [|? ? Hxy _]; subst.
  destruct (Nat.ltb_spec x y); [reflexivity|lia].
Qed.

Lemma setdiff1d_nothing (l : list nat) :
  StronglySorted lt l -> IntervalGrowth.setdiff1d l [] = l.
Proof.
  intros S. unfold IntervalGrowth.setdiff1d. rewrite (unique_of_sorted S).
  simpl. induction l as [|x l IH]; simpl; [reflexivity|]. f_equal.
  apply IH. now inversion S.
Qed.

Section IntervalFit.

Context {R : Type} {RS : RandomState R} {NS : NumpySort}.
Variable n_features : nat.
Variable cv_score : list nat -> result Q.

(** X13. [iVISSA._fit] cannot return once the first refinement makes two
    or more features certain: every feature starts at weight 0.5, below the
    threshold, so all of them are newly selected, and [_grow_intervals]
    raises at the second one at the latest. *)
Theorem interval_fit_fails_on_two_certain
        (n_submodels : nat) (random_state : R) (score : Q) (w : list Q) :
  (2 <= n_submodels)%nat ->
  outcome (_yield_best_weights n_features cv_score n_submodels
             (repeat (1 # 2)%Q n_features) n_submodels random_state
             (selection_quantile_of n_submodels))
  = Ok (score, Some w) ->
  (2 <= List.length (IntervalGrowth.selected (certainty n_submodels) w))%nat ->
  forall fuel fuel_e n_intervals_to_select interval_width attributes,
    interval_fit n_features cv_score fuel fuel_e n_submodels random_state
                 n_intervals_to_select interval_width
    <> Some (Returns attributes).
Proof.
  intros Hn Hout Hsel fuel fuel_e ni iw attributes.
  unfold interval_fit. destruct fuel as [|fuel]; [discriminate|].
  cbn [interval_loop]. rewrite Hout.
  assert (Cmp : Qltb sentinel score = true).
  { pose proof (@refinement_loop_returns _ _ _ n_features cv_score n_submodels
                  n_submodels (selection_quantile_of n_submodels)
                  (repeat (1 # 2)%Q n_features) 5 random_state sentinel None
                  score (Some w) Hout) as [Hlast _].
    destruct (last_improved _) as [[a c]|].
    - destruct Hlast as (-> & _ & Hlt). now apply Qltb_lt.
    - destruct Hlast as [_ Hw]. discriminate. }
  rewrite Cmp.
  unfold IntervalGrowth._grow_intervals, IntervalGrowth._newly_selected.
  assert (Hthr : IntervalGrowth.threshold_of n_submodels
                 = Returns (certainty n_submodels)).
  { unfold IntervalGrowth.threshold_of.
    destruct (Nat.eqb_spec n_submodels 0); [lia|reflexivity]. }
  rewrite Hthr, selected_half by exact Hn.
  rewrite setdiff1d_nothing by apply IntervalGrowthFacts.nonzero_from_sorted.
  destruct (IntervalGrowth.selected (certainty n_submodels) w)
    as [|a [|b rest]]; simpl in Hsel; try lia.
  rewrite (@grow_second_expansion n_features cv_score fuel_e a b rest w score
             _ n_submodels _ Hthr).
  destruct (IntervalGrowth._expand_interval _ _ _ _ _ _ _ _) as [[r|e]|];
    discriminate.
Qed.

End IntervalFit.

Lemma interval_fit_fails_on_two_certain_witness :
  @interval_fit _ (scripted Concrete.no_script) stable_numpy 2
                Concrete.cv_flat 3 10 20 [] 1 2
  <> Some (Returns ([1; 1]%Q, [true; true])).
Proof.
  refine (@interval_fit_fails_on_two_certain _ (scripted Concrete.no_script)
            stable_numpy 2%nat Concrete.cv_flat 20%nat [] (- (1))%Q [1; 1]%Q
            _ _ _ 3%nat 10%nat 1%nat 2%nat ([1; 1]%Q, [true; true])).
  - lia.
  - vm_compute. reflexivity.
  - vm_compute. lia.
Defined.

(** *** Expansions on five features *)

Lemma newly_selected_spec_witness :
  exists features new_features,
    IntervalGrowth._newly_selected (repeat (1 # 2)%Q 5) [1; 0; 0; 1; 0]%Q 40
    = Returns (features, new_features)
    /\ StronglySorted lt features /\ StronglySorted lt new_features
    /\ (forall i, In i features <->
                  exists w, nth_error [1; 0; 0; 1; 0]%Q i = Some w
                            /\ (certainty 40 <= w)%Q)
    /\ (forall i, In i new_features <->
                  In i features
                  /\ ~ exists w, nth_error (repeat (1 # 2)%Q 5) i = Some w
                                 /\ (certainty 40 <= w)%Q).
Proof.
  destruct (IntervalGrowthFacts.newly_selected_spec
              (repeat (1 # 2)%Q 5) [1; 0; 0; 1; 0]%Q 40) as [_ H].
  apply H. discriminate.
Defined.

Lemma expand_interval_keeps_witness :
  exists fs,
    IntervalGrowth.ndarray [2%Z] = IntervalGrowth.ndarray fs
    /\ (- (1) <= - (1))%Q
    /\ (exists added, [2%Z] = fs ++ added)
    /\ Forall2 (fun a b => b = a \/ b = 1%Q) [0; 0; 1; 0; 0]%Q [0; 0; 1; 0; 0]%Q.
Proof.
  apply (@expand_interval_keeps 5%nat Concrete.cv_flat 4%nat [0; 0; 1; 0; 0]%Q
           (- (1))%Q (IntervalGrowth.ndarray [2%Z]) 2%Z 40%nat
           [2%Z] (- (1))%Q [0; 0; 1; 0; 0]%Q).
  vm_compute. reflexivity.
Defined.

Lemma expand_interval_nothing_to_add_witness :
  IntervalGrowth._expand_interval 5 Concrete.cv_flat (4 + 0) [0; 0; 1; 0; 0]%Q
                                  (- (1))%Q (IntervalGrowth.ndarray [2%Z])
                                  (Z.of_nat 2) 40
  = Some (Returns ([2%Z], (- (1))%Q, [0; 0; 1; 0; 0]%Q)).
Proof.
  apply (@expand_interval_nothing_to_add 5%nat Concrete.cv_flat 0%nat
           [0; 0; 1; 0; 0]%Q (- (1))%Q [2%Z] 2%nat 40%nat).
  - discriminate.
  - reflexivity.
  - simpl. lia.
  - constructor; [lia|constructor].
  - vm_compute. reflexivity.
  - eexists. split; [reflexivity|]. vm_compute. discriminate.
  - right. split; [vm_compute; reflexivity|].
    eexists. split; [reflexivity|]. vm_compute. discriminate.
Defined.

Lemma grow_intervals_second_expansion_witness :
  IntervalGrowth._grow_intervals 5 Concrete.cv_flat 4 (repeat (1 # 2)%Q 5)
                                 [1; 0; 0; 1; 0]%Q (- (1))%Q 40
  = Some (Throws (AttributeError "tolist")).
Proof.
  destruct (@grow_intervals_second_expansion 5%nat Concrete.cv_flat 4%nat
              (repeat (1 # 2)%Q 5) [1; 0; 0; 1; 0]%Q (- (1))%Q 40%nat
              [0; 3]%nat [0; 3]%nat) as [_ H].
  - vm_compute. reflexivity.
  - rewrite H by (simpl; lia). vm_compute. reflexivity.
Defined.

(** ** The key check names the first missing item *)

Module KeyCheckFacts.
Import DataHandling.

(** X14. When [_identify_key_error] reports an item, it is the first missing
    one in key order: every item asked for at an earlier position of the key
    is in the index at its level, and so is every item listed before it at
    its own position; the message gives the item and the name of that
    level. *)
Theorem identify_key_error_first_missing (key : list key_item)
        (mi : MultiIndex) (msg : string) :
  _identify_key_error key mi = Some msg ->
  exists pos k pre item post,
    nth_error key pos = Some k
    /\ items_of k = (pre ++ item :: post)%list
    /\ isin_any mi item pos = false
    /\ msg = message mi item pos
    /\ (forall x, In x pre -> isin_any mi x pos = true)
    /\ (forall pos' k' x, (pos' < pos)%nat -> nth_error key pos' = Some k' ->
                          In x (items_of k') -> isin_any mi x pos' = true).
Proof. exact (@DataHandlingFacts.identify_from_first 0 key mi msg). Qed.

(** *** Indices built as products *)

Lemma label_eqb_eq (a b : label) : label_eqb a b = true <-> a = b.
Proof.
  revert b. induction a as [s|z|x1 x2|k IH]; intros [t|y|y1 y2|k']; simpl;
    try (split; [discriminate|intros [=]]).
  - rewrite String.eqb_eq. split; [now intros ->|now intros [= ->]].
  - rewrite Z.eqb_eq. split; [now intros ->|now intros [= ->]].
  - rewrite andb_true_iff, !Z.eqb_eq.
    split; [now intros [-> ->]|now intros [= -> ->]].
  - rewrite IH. split; [now intros ->|now intros [= ->]].
Qed.

Lemma product_In (levels : list (list label)) (t : list label) :
  In t (product levels) <-> Forall2 (fun x l => In x l) t levels.
Proof.
  revert t. induction levels as [|l levels IH]; intros t; simpl.
  - split.
    + intros [<-|[]]. constructor.
    + intros H. inversion H. now left.
  - rewrite in_flat_map. split.
    + intros (x & Hx & Ht). apply in_map_iff in Ht.
      destruct Ht as (t' & <- & Ht'). constructor; [exact Hx|now apply IH].
    + intros H. inversion H as [|x l' t' levels' Hx Ht']; subst.
      exists x. split; [exact Hx|]. apply in_map. now apply IH.
Qed.

Lemma isin_any_spec (mi : MultiIndex) (item : label) (level : nat) :
  isin_any mi item level = true <->
  exists t, In t (tuples mi) /\ nth_error t level = Some item.
Proof.
  unfold isin_any. rewrite existsb_exists. split.
  - intros (t & Ht & H). exists t. split; [exact Ht|].
    destruct (nth_error t level) as [x|]; [|discriminate].
    apply label_eqb_eq in H. now subst.
  - intros (t & Ht & Hn). exists t. split; [exact Ht|]. rewrite Hn.
    now apply label_eqb_eq.
Qed.

Lemma Forall2_pick (levels : list (list label)) (k : nat) (l : list label)
      (item : label) :
  (forall l', In l' levels -> l' <> []) ->
  nth_error levels k = Some l -> In item l ->
  exists t, Forall2 (fun x l => In x l) t levels /\ nth_error t k = Some item.
Proof.
  revert k. induction levels as [|l0 levels IH]; intros k Hne Hk Hitem.
  - destruct k; discriminate.
  - assert (Hrest : forall l', In l' levels -> l' <> [])
      by (intros; apply Hne; now right).
    destruct k as [|k]; simpl in Hk.
    + injection Hk as ->.
      assert (exists t, Forall2 (fun x l => In x l) t levels) as [t Ht].
      { clear IH Hne. induction levels as [|l1 levels IH']; [exists []; constructor|].
        destruct IH' as [t Ht]; [intros; apply Hrest; now right|].
        destruct l1 as [|x l1]; [exfalso; apply (Hrest []); [now left|reflexivity]|].
        exists (x :: t). constructor; [now left|exact Ht]. }
      exists (item :: t). split; [now constructor|reflexivity].
    + destruct (IH k Hrest Hk Hitem) as (t & Ht & Hn).
      destruct l0 as [|x l0]; [exfalso; apply (Hne []); [now left|reflexivity]|].
      exists (x :: t). split; [constructor; [now left|exact Ht]|exact Hn].
Qed.

(** X15. In an index built by [from_product], an item is found at a level
    exactly when it is in the list that level was built from and none of the
    lists is empty. *)
Theorem from_product_isin (levels : list (list label)) (names : list string)
        (item : label) (level : nat) :
  isin_any (from_product levels names) item level = true <->
  (forall l, In l levels -> l <> [])
  /\ exists l, nth_error levels level = Some l /\ In item l.
Proof.
  rewrite isin_any_spec. unfold from_product. cbn [tuples]. split.
  - intros (t & Ht & Hn). apply product_In in Ht. split.
    + clear Hn. induction Ht as [|x l t levels Hx _ IH]; intros l' [].
      * subst. intros ->. contradiction.
      * now apply IH.
    + clear - Ht Hn. revert level Hn.
      induction Ht as [|x l t levels Hx _ IH]; intros [|k] Hn; simpl in *;
        try discriminate.
      * injection Hn as ->. eauto.
      * now apply IH.
  - intros (Hne & l & Hl & Hitem).
    destruct (@Forall2_pick levels level l item Hne Hl Hitem) as (t & Ht & Hn).
    exists t. split; [now apply product_In|exact Hn].
Qed.

Lemma product_empty_level (levels : list (list label)) :
  In [] levels -> product levels = [].
Proof.
  induction levels as [|l levels IH]; intros H; [contradiction|]. simpl.
  destruct H as [->|H]; [reflexivity|]. rewrite (IH H).
  induction l as [|x l IHl]; [reflexivity|exact IHl].
Qed.

Section EmptyLevel.

Variable Frame : Type.
Variable loc : DataFrame -> key_item -> list key_item -> option Frame.

(** X16. A handler built for zero runs finds nothing: whenever pandas' own
    lookup returns, asking [get_selection_data] for a dataset raises a
    KeyError that names the dataset as not present in level dataset, even if
    the dataset is one the handler was built with. *)
Theorem zero_runs_every_dataset_missing
        (datasets methods features reg_metrics stab_metrics : list label)
        (dataset : label) (method n_features sample : arg) (res : Frame) :
  let s := new_handler datasets methods features reg_metrics stab_metrics 0 in
  let keys := _make_key (Scalar dataset) method n_features None None
                        (Some sample) in
  loc (selection_data s) (fst keys) (snd keys) = Some res ->
  get_selection_data loc s (Scalar dataset) method n_features sample
  = Raise (KeyError ("Item " ++ render dataset
                             ++ " not present in level dataset")).
Proof.
  intros s keys Hloc. unfold get_selection_data, _protected.
  fold keys. rewrite Hloc.
  assert (Hempty : tuples (columns (selection_data s)) = []).
  { apply product_empty_level. right. right. now left. }
  unfold _identify_key_error, keys, _make_key. cbn [snd app identify_from or_slice items_of first_missing].
  unfold isin_any. rewrite Hempty. cbn [existsb]. reflexivity.
Qed.

End EmptyLevel.

End KeyCheckFacts.

(** The key [get_selection_data] builds for dataset wheat on the small
    store, and the columns of its selection frame. *)
Definition wheat_key : list DataHandling.key_item :=
  snd (DataHandling._make_key
         (DataHandling.Scalar (DataHandling.Str "wheat"))
         (DataHandling.Scalar (DataHandling.Str "VIP"))
         (DataHandling.Scalar (DataHandling.Descriptor (DataHandling.Int 10)))
         None None (Some DataHandling.PyNone)).

Definition small_columns : DataHandling.MultiIndex :=
  DataHandling.columns (DataHandling.selection_data DataHandling.small_store).

Lemma identify_key_error_first_missing_witness :
  exists pos k pre item post,
    nth_error wheat_key pos = Some k
    /\ DataHandling.items_of k = (pre ++ item :: post)%list
    /\ DataHandling.isin_any small_columns item pos = false
    /\ "Item wheat not present in level dataset"%string
       = DataHandling.message small_columns item pos
    /\ (forall x, In x pre -> DataHandling.isin_any small_columns x pos = true)
    /\ (forall pos' k' x,
          (pos' < pos)%nat -> nth_error wheat_key pos' = Some k' ->
          In x (DataHandling.items_of k') ->
          DataHandling.isin_any small_columns x pos' = true).
Proof.
  apply (@KeyCheckFacts.identify_key_error_first_missing
           wheat_key small_columns).
  reflexivity.
Defined.

Lemma zero_runs_every_dataset_missing_witness :
  DataHandling.get_selection_data DataHandling.lenient_loc
    (DataHandling.new_handler
       [DataHandling.Str "corn"] [DataHandling.Str "VIP"]
       [DataHandling.Descriptor (DataHandling.Int 10)]
       [DataHandling.Str "mean_squared_error"]
       [DataHandling.Str "zucknick"] 0)
    (DataHandling.Scalar (DataHandling.Str "corn"))
    (DataHandling.Scalar (DataHandling.Str "VIP"))
    (DataHandling.Scalar (DataHandling.Descriptor (DataHandling.Int 10)))
    DataHandling.PyNone
  = Raise (KeyError "Item corn not present in level dataset").
Proof.
  apply (@KeyCheckFacts.zero_runs_every_dataset_missing
           unit DataHandling.lenient_loc
           [DataHandling.Str "corn"] [DataHandling.Str "VIP"]
           [DataHandling.Descriptor (DataHandling.Int 10)]
           [DataHandling.Str "mean_squared_error"]
           [DataHandling.Str "zucknick"]
           (DataHandling.Str "corn")
           (DataHandling.Scalar (DataHandling.Str "VIP"))
           (DataHandling.Scalar (DataHandling.Descriptor (DataHandling.Int 10)))
           DataHandling.PyNone tt).
  reflexivity.
Defined.

(** ** The meta registry of the DataHandler *)

Module RegistryFacts.

Import Registry.

Section MetaFacts.

Variables Spectra Targets : Type.
Variable shape : Spectra -> nat * nat.

Definition name_of (t : dataset_tuple Spectra Targets) : string := snd (fst t).

Definition tuples_of (a : argument Spectra Targets) : list (dataset_tuple Spectra Targets) :=
  match a with
  | single t => [t]
  | many l => l
  end.

Lemma getitem_setitem (d : dict Spectra Targets) (k : string) (v : entry Spectra Targets) :
  getitem (setitem d k v) k = Ok v.
Proof.
  induction d as [|[k' v'] d IH]; simpl.
  - now rewrite String.eqb_refl.
  - destruct (String.eqb k' k) eqn:E; simpl; rewrite E; [reflexivity|exact IH].
Qed.

Lemma getitem_setitem_other (d : dict Spectra Targets) (k k' : string)
      (v : entry Spectra Targets) :
  k <> k' -> getitem (setitem d k v) k' = getitem d k'.
Proof.
  intros Hk. induction d as [|[k0 v0] d IH]; simpl.
  - destruct (String.eqb_spec k k'); [contradiction|reflexivity].
  - destruct (String.eqb_spec k0 k) as [->|Hne]; simpl.
    + destruct (String.eqb_spec k k'); [contradiction|reflexivity].
    + destruct (String.eqb_spec k0 k'); [reflexivity|exact IH].
Qed.

Lemma register_many_other (l : list (dataset_tuple Spectra Targets)) (meta : dict Spectra Targets)
      (name : string) :
  (forall t, In t l -> name_of t <> name) ->
  get_meta (register_meta shape meta (many l)) name = get_meta meta name.
Proof.
  unfold get_meta, register_meta. revert meta.
  induction l as [|[[[x y] n] f] l IH]; intros meta Hl; simpl; [reflexivity|].
  rewrite IH by (intros t Ht; apply Hl; now right).
  apply getitem_setitem_other. apply (Hl (x, y, n, f)). now left.
Qed.

Lemma register_many_app (l1 l2 : list (dataset_tuple Spectra Targets)) (meta : dict Spectra Targets) :
  register_meta shape meta (many (l1 ++ l2))
  = register_meta shape (register_meta shape meta (many l1)) (many l2).
Proof. unfold register_meta. apply fold_left_app. Qed.

Lemma register_many_last (meta : dict Spectra Targets)
      (pre post : list (dataset_tuple Spectra Targets))
      (x : Spectra) (y : Targets) (name : string) (size : Q) :
  (forall t, In t post -> name_of t <> name) ->
  get_meta (register_meta shape meta (many (pre ++ (x, y, name, size) :: post)))
           name
  = Ok (x, y, shape x).
Proof.
  intros Hpost. rewrite register_many_app.
  change ((x, y, name, size) :: post) with ([(x, y, name, size)] ++ post)%list.
  rewrite register_many_app, register_many_other by exact Hpost.
  unfold get_meta, register_meta. simpl. apply getitem_setitem.
Qed.

(** X17. Registering and reading back: after [register_meta] of a list of
    datasets, [get_meta] of a name gives the spectra, the targets and the
    shape of the spectra of the last tuple of the list that carries the
    name; an earlier tuple of the same name, or an earlier registration, is
    overwritten. *)
Theorem register_meta_last_wins (meta : dict Spectra Targets)
        (pre post : list (dataset_tuple Spectra Targets))
        (x : Spectra) (y : Targets) (name : string) (size : Q) :
  (forall t, In t post -> name_of t <> name) ->
  get_meta (register_meta shape meta (many (pre ++ (x, y, name, size) :: post)))
           name
  = Ok (x, y, shape x).
Proof. apply register_many_last. Qed.

(** X18. On a handler that has registered nothing before, [get_meta] raises
    KeyError with the name asked for exactly when no registered tuple
    carries that name; a tuple passed alone is treated as a list of one. *)
Theorem get_meta_raises_iff_unregistered (a : argument Spectra Targets)
        (name : string) :
  get_meta (register_meta shape [] a) name = Raise (KeyError name)
  <-> (forall t, In t (tuples_of a) -> name_of t <> name).
Proof.
  assert (E : register_meta shape [] a
              = register_meta shape [] (many (tuples_of a)))
    by (destruct a; reflexivity).
  rewrite E. clear E. generalize (tuples_of a). clear a. intros l. split.
  - intros Hraise t Ht Hname.
    apply in_split in Ht. destruct Ht as (l1 & l2 & ->).
    revert l1 Hraise. induction l2 as [|u l2 IH] using rev_ind; intros l1 Hraise.
    + destruct t as [[[x y] n] f]. unfold name_of in Hname. simpl in Hname.
      subst n. rewrite register_many_last in Hraise; [discriminate|].
      intros ? [].
    + destruct (string_dec (name_of u) name) as [Hu|Hu].
      * destruct u as [[[x y] n] f]. unfold name_of in Hu. simpl in Hu. subst n.
        rewrite app_comm_cons, app_assoc in Hraise.
        rewrite register_many_last in Hraise; [discriminate|].
        intros ? [].
      * apply (IH l1).
        rewrite app_comm_cons, app_assoc in Hraise.
        rewrite register_many_app in Hraise.
        rewrite register_many_other in Hraise; [exact Hraise|].
        intros v [<-|[]]. exact Hu.
  - intros Hl. rewrite register_many_other by exact Hl. reflexivity.
Qed.

End MetaFacts.

(** *** The file [store] writes *)

Lemma has_dot_append (base rest : string) :
  has_dot (base ++ String "."%char rest) = true.
Proof.
  induction base as [|c base IH]; simpl; [reflexivity|].
  rewrite IH. apply orb_true_r.
Qed.

Lemma first_field_append (base rest : string) :
  has_dot base = false ->
  first_field (base ++ String "."%char rest) = base.
Proof.
  induction base as [|c base IH]; simpl; [reflexivity|].
  intros H. apply orb_false_iff in H. destruct H as [Hc Hb].
  rewrite Hc, IH by exact Hb. reflexivity.
Qed.

(** X19. [store] drops everything from the first dot of the file name on:
    for a name without a dot, appending a dot and any text gives the path of
    the bare name, so two names that differ only after their first dot are
    written to the same file. *)
Theorem store_path_ignores_after_dot (file_path base rest : string) :
  has_dot base = false ->
  store_path file_path (base ++ String "."%char rest)
  = store_path file_path base.
Proof.
  intros H. unfold store_path.
  rewrite has_dot_append, first_field_append, H by exact H. reflexivity.
Qed.

End RegistryFacts.

Lemma register_meta_last_wins_witness :
  Registry.get_meta
    (Registry.register_meta (fun x : list (list Q) => (List.length x, 2%nat))
       [] (Registry.many
             ([([[1%Q; 2%Q]], [1%Q], "corn"%string, 1 # 2)]
                ++ ([[3%Q; 4%Q]; [5%Q; 6%Q]], [1%Q; 2%Q], "corn"%string, 1 # 4)
                :: [([[7%Q; 8%Q]], [3%Q], "wheat"%string, 1 # 2)])))
    "corn"
  = Ok ([[3%Q; 4%Q]; [5%Q; 6%Q]], [1%Q; 2%Q], (2%nat, 2%nat)).
Proof.
  apply (@RegistryFacts.register_meta_last_wins
           (list (list Q)) (list Q)
           (fun x : list (list Q) => (List.length x, 2%nat)) []).
  intros t [<-|[]]. discriminate.
Defined.

Lemma store_path_ignores_after_dot_witness :
  Registry.store_path "results" "run.v2.bak" = "results/run.pickle"%string.
Proof.
  change "run.v2.bak"%string with ("run" ++ String "."%char "v2.bak")%string.
  rewrite RegistryFacts.store_path_ignores_after_dot; reflexivity.
Defined.

(** ** The stability metrics *)

Module MetricsFacts.

Import Metrics.

(** *** The pairs of runs that are compared *)

Lemma triu_indices_In (r i j : nat) :
  In (i, j) (triu_indices r) <-> (i <= j < r)%nat.
Proof.
  unfold triu_indices. rewrite in_flat_map. split.
  - intros (k & Hk & Hin). apply in_map_iff in Hin.
    destruct Hin as (m & E & Hm). inversion E; subst.
    apply in_seq in Hk. apply in_seq in Hm. lia.
  - intros H. exists i. split; [apply in_seq; lia|].
    apply in_map. apply in_seq. lia.
Qed.

Lemma compared_pairs_In (r i j : nat) :
  In (i, j) (compared_pairs r) <-> (i < j < r)%nat.
Proof.
  unfold compared_pairs. rewrite filter_In, triu_indices_In. simpl.
  rewrite negb_true_iff, Nat.eqb_neq. lia.
Qed.

Lemma rows_NoDup (f : nat -> list (nat * nat)) (l : list nat) :
  NoDup l ->
  (forall i, NoDup (f i)) ->
  (forall i p, In p (f i) -> fst p = i) ->
  NoDup (flat_map f l).
Proof.
  intros Hl Hf Hfst. induction Hl as [|x l Hx Hl IH]; simpl; [constructor|].
  apply NoDup_app; [apply Hf|exact IH|].
  intros p Hp Hq. apply in_flat_map in Hq. destruct Hq as (k & Hk & Hq).
  apply Hfst in Hp. apply Hfst in Hq. subst. contradiction.
Qed.

Lemma pair_NoDup (i : nat) (l : list nat) :
  NoDup l -> NoDup (map (pair i) l).
Proof.
  induction 1 as [|x l Hx Hl IH]; simpl; constructor; [|exact IH].
  intros Hin. apply in_map_iff in Hin. destruct Hin as (y & E & Hy).
  inversion E; subst. contradiction.
Qed.

Lemma triu_indices_NoDup (r : nat) : NoDup (triu_indices r).
Proof.
  unfold triu_indices. apply rows_NoDup.
  - apply seq_NoDup.
  - intros i. apply pair_NoDup, seq_NoDup.
  - intros i p Hp. apply in_map_iff in Hp. destruct Hp as (m & <- & _).
    reflexivity.
Qed.

Lemma off_diagonal (i n : nat) :
  filter (fun p : nat * nat => negb (fst p =? snd p)%nat)
         (map (pair i) (seq i (S n)))
  = map (pair i) (seq (S i) n).
Proof.
  simpl. rewrite Nat.eqb_refl. simpl.
  assert (G : forall a, (i < a)%nat ->
            filter (fun p : nat * nat => negb (fst p =? snd p)%nat)
                   (map (pair i) (seq a n))
            = map (pair i) (seq a n)).
  { induction n as [|n IH]; intros a Ha; simpl; [reflexivity|].
    destruct (Nat.eqb_spec i a); [lia|]. simpl. f_equal. apply IH. lia. }
  apply G. lia.
Qed.

Lemma filter_flat_map (A B : Type) (p : B -> bool) (f : A -> list B)
      (l : list A) :
  filter p (flat_map f l) = flat_map (fun x => filter p (f x)) l.
Proof.
  induction l as [|x l IH]; simpl; [reflexivity|].
  now rewrite filter_app, IH.
Qed.

Lemma pairs_from_length (n a r : nat) :
  r = (a + n)%nat ->
  (2 * List.length
         (flat_map (fun i => filter (fun p : nat * nat =>
                                       negb (fst p =? snd p)%nat)
                                    (map (pair i) (seq i (r - i))))
                   (seq a n))
   = n * (n - 1))%nat.
Proof.
  revert a. induction n as [|n IH]; intros a Hr; simpl; [reflexivity|].
  rewrite length_app.
  replace (r - a)%nat with (S n) by lia.
  rewrite off_diagonal, length_map, length_seq.
  specialize (IH (S a)). nia.
Qed.

(** X20. The pairs [_pairwise_scoring] compares among [r] runs are exactly
    the pairs (i, j) with i < j < r, each of them once, so there are
    r (r - 1) / 2 of them. *)
Theorem compared_pairs_exact (r : nat) :
  (forall i j, In (i, j) (compared_pairs r) <-> (i < j < r)%nat)
  /\ NoDup (compared_pairs r)
  /\ (2 * List.length (compared_pairs r) = r * (r - 1))%nat.
Proof.
  split; [intros; apply compared_pairs_In|]. split.
  - apply NoDup_filter, triu_indices_NoDup.
  - unfold compared_pairs, triu_indices. rewrite filter_flat_map.
    apply pairs_from_length. reflexivity.
Qed.



Section ScoringFacts.

Variable Support : Type.
Variable pairwise_sim_func : Support -> Support -> completion (option Q).




Lemma collect_throws (pairs : list (nat * nat)) (supports : list Support)
      (e : error) :
  (forall i j, In (i, j) pairs ->
               (i < List.length supports /\ j < List.length supports)%nat) ->
  collect pairwise_sim_func pairs supports = Throws e ->
  exists i j set_1 set_2,
    In (i, j) pairs
    /\ nth_error supports i = Some set_1
    /\ nth_error supports j = Some set_2
    /\ pairwise_sim_func set_1 set_2 = Throws e.
Proof.
  induction pairs as [|[i j] rest IH]; intros Hin H; simpl in H;
    [discriminate|].
  destruct (Hin i j (or_introl eq_refl)) as [Hi Hj].
  unfold run in H.
  destruct (nth_error supports i) as [s1|] eqn:E1;
    [|apply nth_error_None in E1; lia].
  destruct (nth_error supports j) as [s2|] eqn:E2;
    [|apply nth_error_None in E2; lia].
  destruct (pairwise_sim_func s1 s2) as [v|e'] eqn:Es.
  - destruct (collect pairwise_sim_func rest supports) as [vs|e''] eqn:Ec;
      [discriminate|].
    destruct IH as (i' & j' & a & b & Hp & Ha & Hb & Hs).
    + intros; apply Hin; now right.
    + exact H.
    + exists i', j', a, b. repeat split; auto. now right.
  - inversion H; subst. exists i, j, s1, s2. repeat split; auto. now left.
Qed.

(** X22. When the handler returns one selection per run, the scoring raises
    only what the similarity function raises on a compared pair of
    selections: there is no index error of its own. *)
Theorem pairwise_score_throws_from_pair (r : nat) (supports : list Support)
        (e : error) :
  List.length supports = r ->
  pairwise_score pairwise_sim_func r supports = Throws e ->
  exists i j set_1 set_2,
    (i < j < r)%nat
    /\ nth_error supports i = Some set_1
    /\ nth_error supports j = Some set_2
    /\ pairwise_sim_func set_1 set_2 = Throws e.
Proof.
  intros Hlen H. unfold pairwise_score in H.
  destruct (collect pairwise_sim_func (compared_pairs r) supports)
    as [sims|e'] eqn:Ec; try discriminate.
  inversion H; subst e'.
  destruct (@collect_throws (compared_pairs r) supports e)
    as (i & j & a & b & Hp & Ha & Hb & Hs); [|exact Ec|].
  - intros i j Hp. apply compared_pairs_In in Hp. lia.
  - exists i, j, a, b. apply compared_pairs_In in Hp. auto.
Qed.

End ScoringFacts.

(** *** The score of Deng et al. *)

Lemma size_nonneg (A : Type) (l : list A) : (0 <= size l)%Q.
Proof.
  unfold size. change 0%Q with (inject_Z 0). rewrite <- Zle_Qle. lia.
Qed.

Lemma inject_nat_eq (a b : nat) :
  (inject_Z (Z.of_nat a) == inject_Z (Z.of_nat b))%Q -> a = b.
Proof. unfold Qeq. simpl. lia. Qed.

Lemma inject_nat_zero (a : nat) : (inject_Z (Z.of_nat a) == 0)%Q -> a = 0%nat.
Proof. unfold Qeq. simpl. lia. Qed.

Lemma deng_divisor (n_wavelengths : nat) (n : Q) :
  n_wavelengths <> 0%nat ->
  (n - n * n / inject_Z (Z.of_nat n_wavelengths)
   == n * (inject_Z (Z.of_nat n_wavelengths) - n)
      / inject_Z (Z.of_nat n_wavelengths))%Q.
Proof.
  intros H. field. intros E. apply inject_nat_zero in E. contradiction.
Qed.

(** X23. [DengScore] raises ZeroDivisionError exactly when the dataset has
    no wavelength, when the first selection is empty, or when it has as many
    features as the dataset has wavelengths; in every other case it returns
    a score. *)
Theorem deng_raises_iff (n_wavelengths : nat) (set_1 set_2 : list nat) :
  (deng n_wavelengths set_1 set_2 = Throws ZeroDivisionError
   <-> n_wavelengths = 0%nat \/ set_1 = []
       \/ List.length set_1 = n_wavelengths)
  /\ (forall e, deng n_wavelengths set_1 set_2 = Throws e ->
                e = ZeroDivisionError).
Proof.
  unfold deng.
  destruct (Nat.eqb_spec n_wavelengths 0) as [H0|H0].
  { split; [split; auto|]. intros e E. now inversion E. }
  set (n := size set_1). set (w := inject_Z (Z.of_nat n_wavelengths)).
  assert (Hw : ~ (w == 0)%Q).
  { intros E. apply inject_nat_zero in E. contradiction. }
  assert (Hz : ((n - n * n / w) == 0)%Q
               <-> set_1 = [] \/ List.length set_1 = n_wavelengths).
  { unfold n, w. rewrite deng_divisor by exact H0. fold n w. split.
    - intros E.
      assert (E' : (n * (w - n) == 0)%Q).
      { assert (Hd : (n * (w - n) == n * (w - n) / w * w)%Q)
          by (field; exact Hw).
        rewrite Hd, E. ring. }
      apply Qmult_integral in E'. destruct E' as [E'|E'].
      + left. unfold n, size in E'. apply inject_nat_zero in E'.
        destruct set_1; [reflexivity|discriminate].
      + right. unfold n, w, size in E'.
        assert (E2 : (inject_Z (Z.of_nat n_wavelengths)
                      == inject_Z (Z.of_nat (List.length set_1)))%Q)
          by (rewrite <- (Qplus_0_r (inject_Z (Z.of_nat (List.length set_1))));
              rewrite <- E'; ring).
        apply inject_nat_eq in E2. congruence.
    - intros [-> | E].
      + unfold n, size. simpl. field. exact Hw.
      + unfold n, w, size. rewrite E. field. fold w. exact Hw. }
  destruct (Qeq_bool (n - n * n / w) 0) eqn:Eb.
  - apply Qeq_bool_iff in Eb. apply Hz in Eb. split.
    + split; auto.
    + intros e E. now inversion E.
  - split.
    + split; [discriminate|]. intros [H|H]; [contradiction|].
      apply Hz in H. apply Qeq_bool_iff in H. congruence.
    + intros e E. discriminate.
Qed.

Lemma sorted_NoDup (l : list nat) : StronglySorted lt l -> NoDup l.
Proof.
  induction 1 as [|x l S IH F]; constructor; [|exact IH].
  intros Hx. rewrite Forall_forall in F. apply F in Hx. lia.
Qed.

Lemma unique_length (l : list nat) :
  NoDup l -> List.length (IntervalGrowth.unique l) = List.length l.
Proof.
  intros Hl. apply Nat.le_antisymm.
  - apply NoDup_incl_length.
    + apply sorted_NoDup, IntervalGrowthFacts.unique_sorted.
    + intros x Hx. exact (proj1 (IntervalGrowthFacts.unique_In _ _) Hx).
  - apply NoDup_incl_length; [exact Hl|].
    intros x Hx. exact (proj2 (IntervalGrowthFacts.unique_In _ _) Hx).
Qed.

Lemma filter_all (A : Type) (p : A -> bool) (l : list A) :
  (forall x, In x l -> p x = true) -> filter p l = l.
Proof.
  induction l as [|x l IH]; intros H; simpl; [reflexivity|].
  rewrite (H x (or_introl eq_refl)). f_equal. apply IH.
  intros y Hy. apply H. now right.
Qed.

Lemma filter_none (A : Type) (p : A -> bool) (l : list A) :
  (forall x, In x l -> p x = false) -> filter p l = [].
Proof.
  induction l as [|x l IH]; intros H; simpl; [reflexivity|].
  rewrite (H x (or_introl eq_refl)). apply IH.
  intros y Hy. apply H. now right.
Qed.

Lemma member_In (x : nat) (l : list nat) :
  existsb (Nat.eqb x) l = true <-> In x l.
Proof.
  rewrite existsb_exists. split.
  - intros (y & Hy & E). apply Nat.eqb_eq in E. now subst.
  - intros H. exists x. split; [exact H|apply Nat.eqb_refl].
Qed.

Lemma intersect1d_In (ar1 ar2 : list nat) (x : nat) :
  In x (intersect1d ar1 ar2) <-> In x ar1 /\ In x ar2.
Proof.
  unfold intersect1d.
  rewrite filter_In, IntervalGrowthFacts.unique_In, member_In. reflexivity.
Qed.

Lemma intersect1d_length_le (ar1 ar2 : list nat) :
  (List.length (intersect1d ar1 ar2) <= List.length ar1)%nat.
Proof.
  apply NoDup_incl_length.
  - apply NoDup_filter, sorted_NoDup, IntervalGrowthFacts.unique_sorted.
  - intros x Hx. exact (proj1 (proj1 (intersect1d_In _ _ _) Hx)).
Qed.

Lemma intersect1d_all (ar1 ar2 : list nat) :
  NoDup ar1 -> incl ar1 ar2 ->
  List.length (intersect1d ar1 ar2) = List.length ar1.
Proof.
  intros Hn Hi. unfold intersect1d. rewrite filter_all.
  - now apply unique_length.
  - intros x Hx. apply (proj2 (member_In _ _)). apply Hi.
    exact (proj1 (IntervalGrowthFacts.unique_In _ _) Hx).
Qed.

Lemma setdiff1d_covered (ar1 ar2 : list nat) :
  incl ar1 ar2 -> IntervalGrowth.setdiff1d ar1 ar2 = [].
Proof.
  intros Hi. unfold IntervalGrowth.setdiff1d. apply filter_none.
  intros x Hx. apply negb_false_iff. apply (proj2 (member_In _ _)).
  apply (proj2 (IntervalGrowthFacts.unique_In _ _)). apply Hi.
  exact (proj1 (IntervalGrowthFacts.unique_In _ _) Hx).
Qed.

(** X24. When [DengScore] returns, a selection without repeated features is
    scored 1 against every selection that contains its features, itself
    included, whatever the number of wavelengths. *)
Theorem deng_contained_selection (n_wavelengths : nat)
        (set_1 set_2 : list nat) (v : Q) :
  NoDup set_1 -> incl set_1 set_2 ->
  deng n_wavelengths set_1 set_2 = Returns v ->
  (v == 1)%Q.
Proof.
  intros Hn Hi. unfold deng.
  destruct (n_wavelengths =? 0)%nat; [discriminate|].
  destruct (Qeq_bool _ 0) eqn:Eb; [discriminate|].
  intros E. inversion E; subst v. clear E.
  unfold size at 1. rewrite (intersect1d_all Hn Hi). fold (size set_1).
  apply Qeq_bool_neq in Eb. unfold Qdiv. apply Qmult_inv_r. exact Eb.
Qed.

(** X25. When the first selection has fewer features than the dataset has
    wavelengths, the score [DengScore] returns is at most 1. *)
Theorem deng_at_most_one (n_wavelengths : nat) (set_1 set_2 : list nat)
        (v : Q) :
  (List.length set_1 < n_wavelengths)%nat ->
  deng n_wavelengths set_1 set_2 = Returns v ->
  (v <= 1)%Q.
Proof.
  intros Hlt. unfold deng.
  destruct (Nat.eqb_spec n_wavelengths 0) as [H0|H0]; [discriminate|].
  set (n := size set_1). set (w := inject_Z (Z.of_nat n_wavelengths)).
  destruct (Qeq_bool (n - n * n / w) 0) eqn:Eb; [discriminate|].
  intros E. inversion E; subst v. clear E.
  apply Qeq_bool_neq in Eb.
  assert (Hw : (0 < w)%Q).
  { unfold w. change 0%Q with (inject_Z 0). rewrite <- Zlt_Qlt. lia. }
  assert (Hn : (0 <= n)%Q) by apply size_nonneg.
  assert (Hnw : (n < w)%Q).
  { unfold n, w, size. rewrite <- Zlt_Qlt. lia. }
  assert (Hpos : (0 < n - n * n / w)%Q).
  { assert (Hd : (n - n * n / w == n * (w - n) / w)%Q)
      by (field; intros Ew; rewrite Ew in Hw; now apply Qlt_irrefl in Hw).
    assert (Hge : (0 <= n * (w - n) / w)%Q).
    { apply Qle_shift_div_l; [exact Hw|]. rewrite Qmult_0_l.
      apply Qmult_le_0_compat; [exact Hn|]. lra. }
    rewrite <- Hd in Hge. apply Qle_lteq in Hge.
    destruct Hge as [Hge|Hge]; [exact Hge|]. symmetry in Hge. contradiction. }
  apply Qle_shift_div_r; [exact Hpos|]. rewrite Qmult_1_l.
  assert (Hi : (size (intersect1d set_1 set_2) <= n)%Q).
  { unfold n, size. rewrite <- Zle_Qle.
    pose proof (intersect1d_length_le set_1 set_2). lia. }
  lra.
Qed.

(** *** The score of Zucknick et al. *)

Section ZucknickFacts.

Variables Spectra Targets : Type.
Variable correlation_sum : Spectra -> list nat -> list nat -> Q.

(** X26. [ZucknickScore] on two selections of the same features, without
    repetition and not empty, is 1 for a registered dataset, whatever the
    spectra and their correlations: no correlation is looked at. *)
Theorem zucknick_same_features (meta : Registry.dict Spectra Targets)
        (set_1 set_2 : list nat) (dataset : string)
        (e : Registry.entry Spectra Targets) :
  Registry.get_meta meta dataset = Ok e ->
  NoDup set_1 -> set_1 <> [] -> incl set_1 set_2 -> incl set_2 set_1 ->
  exists v,
    zucknick_pairwise_sim_func correlation_sum meta set_1 set_2 dataset
    = Returns (Some v)
    /\ (v == 1)%Q.
Proof.
  intros Hm Hn Hne H12 H21. unfold zucknick_pairwise_sim_func.
  rewrite Hm. destruct e as [[spectra targets] shape].
  unfold _thresholded_correlation.
  rewrite (setdiff1d_covered H12), (setdiff1d_covered H21).
  cbn [List.length Nat.eqb value].
  rewrite (intersect1d_all Hn H12).
  set (n := Z.of_nat (List.length set_1)).
  assert (Hpos : (0 < n)%Z).
  { unfold n. destruct set_1; [congruence|simpl; lia]. }
  replace (2 * n - n)%Z with n by lia.
  destruct (Z.eqb_spec n 0) as [E|E]; [lia|].
  eexists. split; [reflexivity|].
  field. intros Hq. unfold Qeq in Hq. simpl in Hq. lia.
Qed.

(** X27. Both scores read the meta registry first: for a dataset that was
    never registered they raise the KeyError of [get_meta], whatever the
    selections. *)
Theorem scores_need_registered_dataset (shape : Spectra -> nat * nat)
        (a : Registry.argument Spectra Targets) (dataset : string)
        (set_1 set_2 : list nat) :
  (forall t, In t (RegistryFacts.tuples_of a) ->
             RegistryFacts.name_of t <> dataset) ->
  let meta := Registry.register_meta shape [] a in
  deng_pairwise_sim_func meta set_1 set_2 dataset
  = Throws (Builtin (KeyError dataset))
  /\ zucknick_pairwise_sim_func correlation_sum meta set_1 set_2 dataset
     = Throws (Builtin (KeyError dataset)).
Proof.
  intros Ha meta.
  assert (E : Registry.get_meta meta dataset = Raise (KeyError dataset)).
  { unfold meta.
    replace (Registry.register_meta shape [] a)
      with (Registry.register_meta shape [] (Registry.many
                                               (RegistryFacts.tuples_of a)))
      by (destruct a; reflexivity).
    now rewrite RegistryFacts.register_many_other. }
  unfold deng_pairwise_sim_func, zucknick_pairwise_sim_func.
  rewrite E. split; reflexivity.
Qed.

End ZucknickFacts.

End MetricsFacts.

Lemma pairwise_score_throws_from_pair_witness :
  exists i j set_1 set_2,
    (i < j < 2)%nat
    /\ nth_error [[1%nat]; [2%nat]] i = Some set_1
    /\ nth_error [[1%nat]; [2%nat]] j = Some set_2
    /\ Metrics.finite (Metrics.deng 0 set_1 set_2) = Throws ZeroDivisionError.
Proof.
  apply (@MetricsFacts.pairwise_score_throws_from_pair
           (list nat) (fun set_1 set_2 => Metrics.finite (Metrics.deng 0 set_1 set_2))
           2 [[1%nat]; [2%nat]] ZeroDivisionError);
    reflexivity.
Defined.

Lemma deng_contained_selection_witness :
  exists v, Metrics.deng 10 [1; 2]%nat [2; 5; 1]%nat = Returns v /\ (v == 1)%Q.
Proof.
  eexists. split; [reflexivity|].
  apply (@MetricsFacts.deng_contained_selection 10 [1; 2]%nat [2; 5; 1]%nat).
  - constructor; [simpl; lia|]. constructor; [simpl; lia|constructor].
  - intros x [<-|[<-|[]]]; simpl; auto.
  - reflexivity.
Defined.

Lemma deng_at_most_one_witness :
  exists v, Metrics.deng 10 [1; 2]%nat [2; 7]%nat = Returns v /\ (v <= 1)%Q.
Proof.
  eexists. split; [reflexivity|].
  apply (@MetricsFacts.deng_at_most_one 10 [1; 2]%nat [2; 7]%nat).
  - simpl; lia.
  - reflexivity.
Defined.

Lemma zucknick_same_features_witness :
  exists v,
    Metrics.zucknick_pairwise_sim_func
      (fun (_ : list (list Q)) (_ _ : list nat) => 0%Q)
      [("corn"%string, ([[1%Q; 2%Q; 3%Q]], [1%Q], (1%nat, 3%nat)))]
      [1; 2]%nat [2; 1]%nat "corn"
    = Returns (Some v)
    /\ (v == 1)%Q.
Proof.
  apply (@MetricsFacts.zucknick_same_features
           (list (list Q)) (list Q)
           (fun (_ : list (list Q)) (_ _ : list nat) => 0%Q)
           [("corn"%string, ([[1%Q; 2%Q; 3%Q]], [1%Q], (1%nat, 3%nat)))]
           [1; 2]%nat [2; 1]%nat "corn"
           ([[1%Q; 2%Q; 3%Q]], [1%Q], (1%nat, 3%nat))).
  - reflexivity.
  - constructor; [simpl; lia|]. constructor; [simpl; lia|constructor].
  - discriminate.
  - intros x [<-|[<-|[]]]; simpl; auto.
  - intros x [<-|[<-|[]]]; simpl; auto.
Defined.

(** A registry that knows the dataset corn only. *)
Definition corn_registry : Registry.dict (list (list Q)) (list Q) :=
  Registry.register_meta
    (fun x : list (list Q) => (List.length x, 3%nat)) []
    (Registry.single ([[1%Q; 2%Q; 3%Q]], [1%Q], "corn"%string, 1 # 2)).

Lemma scores_need_registered_dataset_witness :
  Metrics.deng_pairwise_sim_func corn_registry [1; 2]%nat [2; 1]%nat "wheat"
  = Throws (Builtin (KeyError "wheat"))
  /\ Metrics.zucknick_pairwise_sim_func
       (fun (_ : list (list Q)) (_ _ : list nat) => 0%Q)
       corn_registry [1; 2]%nat [2; 1]%nat "wheat"
     = Throws (Builtin (KeyError "wheat")).
Proof.
  apply (@MetricsFacts.scores_need_registered_dataset
           (list (list Q)) (list Q)
           (fun (_ : list (list Q)) (_ _ : list nat) => 0%Q)
           (fun x : list (list Q) => (List.length x, 3%nat))
           (Registry.single ([[1%Q; 2%Q; 3%Q]], [1%Q], "corn"%string, 1 # 2))
           "wheat" [1; 2]%nat [2; 1]%nat).
  intros t [<-|[]]. discriminate.
Defined.


